(** * Row-sharded batch inference: sharding, checkpoints, retries, validation

    A shallow embedding of the row-sharded MPI inference client
    ([daos/infer_equations_llama_mpi.py], [prompts/expressions/helpers.py],
    [daos/math_prompt.py]).

    Conventions.
    - Python [int]s are [Z]; a Python [str] is the list of its code points
      ([pystr]); a [dict] is an association list kept in insertion order.
    - A raised exception is a value of [exn]; a computation that may raise
      returns [res].
    - The output file and the checkpoint file of a rank are fields of an
      explicit store; the llama-server is a function from the number of
      the call, the url and the payload to what [requests.post] does on
      that call; whether [to_parquet] writes a frame or raises is a
      parameter too. Printing, the creation of directories and the MPI
      barrier are left out. *)

From Stdlib Require Import ZArith List Bool Lia Permutation FinFun Sorted.
From Stdlib Require Strings.String Strings.Ascii.
From Stdlib Require DecimalFacts DecimalPos DecimalZ.
Import ListNotations.
Import String.StringSyntax.

Local Open Scope Z_scope.

(** ** Python [range] and the shard of one rank *)

(** [len(range(start, stop, step))] for a non-zero step. *)
Definition range_len (start stop step : Z) : Z :=
  if 0 <? step then
    if start <? stop then (stop - start - 1) / step + 1 else 0
  else
    if stop <? start then (start - stop - 1) / (- step) + 1 else 0.

Definition range_items (start stop step : Z) : list Z :=
  map (fun k => start + Z.of_nat k * step)
      (seq 0 (Z.to_nat (range_len start stop step))).

(** [list(range(start, stop, step))]; a zero step raises [ValueError]. *)
Definition py_range (start stop step : Z) : option (list Z) :=
  if step =? 0 then None else Some (range_items start stop step).

(** [my_rows = list(range(world_rank + start_offset * world_size,
                          total_rows, world_size))] *)
Definition my_rows (world_rank start_offset world_size total_rows : Z)
  : option (list Z) :=
  py_range (world_rank + start_offset * world_size) total_rows world_size.

(** ** Python strings *)

(** A [str] is the sequence of its code points. *)
Definition pystr := list N.

Definition c_tab : N := 9.
Definition c_newline : N := 10.
Definition c_return : N := 13.
Definition c_space : N := 32.
Definition c_dquote : N := 34.
Definition c_plus : N := 43.
Definition c_comma : N := 44.
Definition c_minus : N := 45.
Definition c_dot : N := 46.
Definition c_slash : N := 47.
Definition c_zero : N := 48.
Definition c_nine : N := 57.
Definition c_colon : N := 58.
Definition c_lbracket : N := 91.
Definition c_backslash : N := 92.
Definition c_rbracket : N := 93.
Definition c_lbrace : N := 123.
Definition c_rbrace : N := 125.

(** A literal of the source without double quotes in it. *)
Definition lit (s : String.string) : pystr :=
  map Ascii.N_of_ascii (String.list_ascii_of_string s).
Arguments lit s%_string_scope.

(** A literal of the source in which every apostrophe written here stands
    for a double quote of the source. *)
Definition litq (s : String.string) : pystr :=
  map (fun c => if (c =? 39)%N then c_dquote else c) (lit s).
Arguments litq s%_string_scope.

Fixpoint str_eqb (a b : pystr) : bool :=
  match a, b with
  | [], [] => true
  | x :: a', y :: b' => (x =? y)%N && str_eqb a' b'
  | _, _ => false
  end.

(** [s.startswith(p)], returning what follows the prefix. *)
Fixpoint strip_prefix (p s : pystr) : option pystr :=
  match p, s with
  | [], _ => Some s
  | x :: p', y :: s' => if (x =? y)%N then strip_prefix p' s' else None
  | _ :: _, [] => None
  end.

(** [sub in s] for two strings. *)
Fixpoint str_contains (sub s : pystr) : bool :=
  match strip_prefix sub s with
  | Some _ => true
  | None => match s with
            | [] => false
            | _ :: s' => str_contains sub s'
            end
  end.

(** [str.isspace] of one character, which is also the class [\s] of [re]
    on a [str] pattern. *)
Definition is_space (c : N) : bool :=
  ((9 <=? c) && (c <=? 13) || (28 <=? c) && (c <=? 32)
   || (c =? 133) || (c =? 160) || (c =? 5760)
   || (8192 <=? c) && (c <=? 8202)
   || (c =? 8232) || (c =? 8233) || (c =? 8239) || (c =? 8287)
   || (c =? 12288))%N.

Fixpoint lstrip_by (f : N -> bool) (s : pystr) : pystr :=
  match s with
  | c :: s' => if f c then lstrip_by f s' else s
  | [] => []
  end.

Definition rstrip_by (f : N -> bool) (s : pystr) : pystr :=
  rev (lstrip_by f (rev s)).

(** [s.strip()] *)
Definition py_strip (s : pystr) : pystr := rstrip_by is_space (lstrip_by is_space s).

(** [str(z)] and [json.dumps(z)] of an [int]. *)
Fixpoint uint_chars (u : Decimal.uint) : pystr :=
  match u with
  | Decimal.Nil => []
  | Decimal.D0 u => 48%N :: uint_chars u
  | Decimal.D1 u => 49%N :: uint_chars u
  | Decimal.D2 u => 50%N :: uint_chars u
  | Decimal.D3 u => 51%N :: uint_chars u
  | Decimal.D4 u => 52%N :: uint_chars u
  | Decimal.D5 u => 53%N :: uint_chars u
  | Decimal.D6 u => 54%N :: uint_chars u
  | Decimal.D7 u => 55%N :: uint_chars u
  | Decimal.D8 u => 56%N :: uint_chars u
  | Decimal.D9 u => 57%N :: uint_chars u
  end.

Definition str_of_Z (z : Z) : pystr :=
  match Z.to_int z with
  | Decimal.Pos u => uint_chars u
  | Decimal.Neg u => c_minus :: uint_chars u
  end.

Definition is_digit (c : N) : bool := ((c_zero <=? c) && (c <=? c_nine))%N.

(** The digits at the head of [s], as a decimal numeral, and what follows. *)
Fixpoint scan_digits (s : pystr) : Decimal.uint * pystr :=
  match s with
  | [] => (Decimal.Nil, [])
  | c :: s' =>
    if is_digit c then
      let '(u, r) := scan_digits s' in
      ((match c with
        | 48 => Decimal.D0 | 49 => Decimal.D1 | 50 => Decimal.D2
        | 51 => Decimal.D3 | 52 => Decimal.D4 | 53 => Decimal.D5
        | 54 => Decimal.D6 | 55 => Decimal.D7 | 56 => Decimal.D8
        | _ => Decimal.D9
        end)%N u, r)
    else (Decimal.Nil, s)
  end.

(** [sep.join(parts)] *)
Fixpoint join (sep : pystr) (parts : list pystr) : pystr :=
  match parts with
  | [] => []
  | [p] => p
  | p :: rest => p ++ sep ++ join sep rest
  end.

(** [len(s)] *)
Definition py_len {A} (l : list A) : Z := Z.of_nat (length l).

(** ** JSON values, [json.loads] and [json.dumps] *)

(** What [json.loads] builds. A [float] keeps the text it was read from;
    a [dict] keeps its keys in insertion order. *)
Inductive json : Type :=
| JNull
| JBool (b : bool)
| JInt (z : Z)
| JFloat (lexeme : pystr)
| JStr (s : pystr)
| JArr (items : list json)
| JObj (members : list (pystr * json)).

Definition dict := list (pystr * json).

(** [d.get(k)] *)
Fixpoint dict_get (k : pystr) (d : dict) : option json :=
  match d with
  | [] => None
  | (k', v) :: d' => if str_eqb k k' then Some v else dict_get k d'
  end.

(** [d[k] = v]: a key already present keeps its place. *)
Fixpoint dict_set (k : pystr) (v : json) (d : dict) : dict :=
  match d with
  | [] => [(k, v)]
  | (k', v') :: d' =>
    if str_eqb k k' then (k, v) :: d' else (k', v') :: dict_set k v d'
  end.

Definition dict_keys (d : dict) : list pystr := map fst d.

(** [k in d] *)
Definition dict_has (k : pystr) (d : dict) : bool :=
  match dict_get k d with Some _ => true | None => false end.

(** [d.update(e)] *)
Definition dict_update (d e : dict) : dict :=
  fold_left (fun acc kv => dict_set (fst kv) (snd kv) acc) e d.

(** *** Decoding *)

(** The whitespace of [json.decoder]: space, tab, newline, return. *)
Definition is_json_ws (c : N) : bool :=
  ((c =? c_space) || (c =? c_tab) || (c =? c_newline) || (c =? c_return))%N.

Definition skip_ws (s : pystr) : pystr := lstrip_by is_json_ws s.

Definition hex_digit (c : N) : option N :=
  (if (48 <=? c) && (c <=? 57) then Some (c - 48)
   else if (97 <=? c) && (c <=? 102) then Some (c - 87)
   else if (65 <=? c) && (c <=? 70) then Some (c - 55)
   else None)%N.

Definition hex4 (a b c d : N) : option N :=
  match hex_digit a, hex_digit b, hex_digit c, hex_digit d with
  | Some x, Some y, Some z, Some w => Some (((x * 16 + y) * 16 + z) * 16 + w)%N
  | _, _, _, _ => None
  end.

Definition is_high_surrogate (u : N) : bool := ((55296 <=? u) && (u <=? 56319))%N.
Definition is_low_surrogate (u : N) : bool := ((56320 <=? u) && (u <=? 57343))%N.
Definition join_surrogates (hi lo : N) : N :=
  (65536 + ((hi - 55296) * 1024 + (lo - 56320)))%N.

Definition cons_char (c : N) (r : option (pystr * pystr)) : option (pystr * pystr) :=
  match r with
  | Some (s, rest) => Some (c :: s, rest)
  | None => None
  end.

(** [scanstring] in strict mode, from just after the opening quote: the
    decoded string and what follows the closing quote. *)
Fixpoint scanstring (s : pystr) : option (pystr * pystr) :=
  match s with
  | [] => None
  | c :: r =>
    if (c =? c_dquote)%N then Some ([], r)
    else if (c =? c_backslash)%N then
      match r with
      | [] => None
      | e :: r1 =>
        if (e =? 117)%N then
          match r1 with
          | h1 :: h2 :: h3 :: h4 :: r2 =>
            match hex4 h1 h2 h3 h4 with
            | None => None
            | Some uni =>
              match r2 with
              | b :: u :: g1 :: g2 :: g3 :: g4 :: r3 =>
                if is_high_surrogate uni && (b =? c_backslash)%N && (u =? 117)%N
                then
                  match hex4 g1 g2 g3 g4 with
                  | None => None
                  | Some uni2 =>
                    if is_low_surrogate uni2
                    then cons_char (join_surrogates uni uni2) (scanstring r3)
                    else cons_char uni (scanstring r2)
                  end
                else cons_char uni (scanstring r2)
              | _ => cons_char uni (scanstring r2)
              end
            end
          | _ => None
          end
        else if (e =? c_dquote)%N then cons_char c_dquote (scanstring r1)
        else if (e =? c_backslash)%N then cons_char c_backslash (scanstring r1)
        else if (e =? c_slash)%N then cons_char c_slash (scanstring r1)
        else if (e =? 98)%N then cons_char 8%N (scanstring r1)
        else if (e =? 102)%N then cons_char 12%N (scanstring r1)
        else if (e =? 110)%N then cons_char 10%N (scanstring r1)
        else if (e =? 114)%N then cons_char 13%N (scanstring r1)
        else if (e =? 116)%N then cons_char 9%N (scanstring r1)
        else None
      end
    else if (c <=? 31)%N then None
    else cons_char c (scanstring r)
  end.

(** The digits at the head of [s] as characters, and what follows. *)
Fixpoint span_digits (s : pystr) : pystr * pystr :=
  match s with
  | c :: s' =>
    if is_digit c then let '(ds, r) := span_digits s' in (c :: ds, r)
    else ([], s)
  | [] => ([], [])
  end.

(** The fraction [\.[0-9]+] at the head of [s], if any. *)
Definition scan_frac (s : pystr) : pystr * pystr :=
  match s with
  | p :: s1 =>
    if (p =? c_dot)%N then
      match s1 with
      | d :: _ =>
        if is_digit d
        then let '(ds, r) := span_digits s1 in (p :: ds, r)
        else ([], s)
      | [] => ([], s)
      end
    else ([], s)
  | [] => ([], s)
  end.

(** The exponent [[eE][-+]?[0-9]+] at the head of [s], if any. *)
Definition scan_exp (s : pystr) : pystr * pystr :=
  match s with
  | e :: s1 =>
    if ((e =? 101) || (e =? 69))%N then
      let '(sign, s2) :=
        match s1 with
        | g :: s1' =>
          if ((g =? c_minus) || (g =? c_plus))%N then ([g], s1') else ([], s1)
        | [] => ([], s1)
        end in
      match span_digits s2 with
      | ([], _) => ([], s)
      | (ds, r) => (e :: sign ++ ds, r)
      end
    else ([], s)
  | [] => ([], s)
  end.

(** A number at the head of [s]: an optional minus sign, then a zero or a
    run of digits that starts with a non-zero digit, then an optional
    fraction and an optional exponent. Without fraction and exponent it is
    an [int], else a [float]. *)
Definition match_number (s : pystr) : option (json * pystr) :=
  let '(neg, s1) :=
    match s with
    | c :: r => if (c =? c_minus)%N then (true, r) else (false, s)
    | [] => (false, s)
    end in
  match s1 with
  | [] => None
  | c :: r =>
    if is_digit c then
      let '(ip, r1) := if (c =? c_zero)%N then ([c], r) else span_digits s1 in
      let '(fr, r2) := scan_frac r1 in
      let '(ex, r3) := scan_exp r2 in
      match fr, ex with
      | [], [] =>
        let u := fst (scan_digits ip) in
        Some (JInt (Z.of_int (if neg then Decimal.Neg u else Decimal.Pos u)), r3)
      | _, _ =>
        Some (JFloat ((if neg then [c_minus] else []) ++ ip ++ fr ++ ex), r3)
      end
    else None
  end.

(** The constants and numbers of [scan_once]. *)
Definition scan_atom (s : pystr) : option (json * pystr) :=
  match strip_prefix (lit "null") s with
  | Some r => Some (JNull, r)
  | None =>
  match strip_prefix (lit "true") s with
  | Some r => Some (JBool true, r)
  | None =>
  match strip_prefix (lit "false") s with
  | Some r => Some (JBool false, r)
  | None =>
  match strip_prefix (lit "NaN") s with
  | Some r => Some (JFloat (lit "NaN"), r)
  | None =>
  match strip_prefix (lit "Infinity") s with
  | Some r => Some (JFloat (lit "Infinity"), r)
  | None =>
  match strip_prefix (lit "-Infinity") s with
  | Some r => Some (JFloat (lit "-Infinity"), r)
  | None => match_number s
  end end end end end end.

(** [scan_once], [JSONObject] and [JSONArray] of [json.decoder]. The first
    argument bounds the depth of the calls; [json_loads] gives more than
    any text needs. [object_loop] starts where a key is expected,
    [array_loop] where an item is expected. *)
Fixpoint scan_once (fuel : nat) (s : pystr) {struct fuel}
  : option (json * pystr) :=
  match fuel with
  | O => None
  | S f =>
    match s with
    | [] => None
    | c :: r =>
      if (c =? c_dquote)%N then
        match scanstring r with
        | Some (str, r') => Some (JStr str, r')
        | None => None
        end
      else if (c =? c_lbrace)%N then
        match skip_ws r with
        | c' :: r' =>
          if (c' =? c_rbrace)%N then Some (JObj [], r')
          else object_loop f [] (c' :: r')
        | [] => None
        end
      else if (c =? c_lbracket)%N then
        match skip_ws r with
        | c' :: r' =>
          if (c' =? c_rbracket)%N then Some (JArr [], r')
          else array_loop f [] (c' :: r')
        | [] => None
        end
      else scan_atom s
    end
  end
with object_loop (fuel : nat) (acc : dict) (s : pystr) {struct fuel}
  : option (json * pystr) :=
  match fuel with
  | O => None
  | S f =>
    match s with
    | [] => None
    | q :: r =>
      if (q =? c_dquote)%N then
        match scanstring r with
        | None => None
        | Some (key, r1) =>
          match skip_ws r1 with
          | [] => None
          | c2 :: r2 =>
            if (c2 =? c_colon)%N then
              match scan_once f (skip_ws r2) with
              | None => None
              | Some (v, r3) =>
                match skip_ws r3 with
                | [] => None
                | c4 :: r4 =>
                  if (c4 =? c_rbrace)%N then Some (JObj (dict_set key v acc), r4)
                  else if (c4 =? c_comma)%N
                  then object_loop f (dict_set key v acc) (skip_ws r4)
                  else None
                end
              end
            else None
          end
        end
      else None
    end
  end
with array_loop (fuel : nat) (acc : list json) (s : pystr) {struct fuel}
  : option (json * pystr) :=
  match fuel with
  | O => None
  | S f =>
    match scan_once f s with
    | None => None
    | Some (v, r1) =>
      match skip_ws r1 with
      | [] => None
      | c :: r2 =>
        if (c =? c_rbracket)%N then Some (JArr (acc ++ [v]), r2)
        else if (c =? c_comma)%N then array_loop f (acc ++ [v]) (skip_ws r2)
        else None
      end
    end
  end.

(** [json.loads(s)]: [None] stands for [JSONDecodeError]. The recursion
    limit of the interpreter is not part of the model. *)
Definition json_loads (s : pystr) : option json :=
  match scan_once (S (length s)) (skip_ws s) with
  | Some (v, r) => match skip_ws r with [] => Some v | _ :: _ => None end
  | None => None
  end.

(** *** Encoding *)

Definition hex_char (d : N) : N := (if d <? 10 then 48 + d else 87 + d)%N.

(** One character inside a JSON string, [ensure_ascii=False]. *)
Definition escape_char (c : N) : pystr :=
  (if c =? c_dquote then [c_backslash; c_dquote]
   else if c =? c_backslash then [c_backslash; c_backslash]
   else if c =? 10 then [c_backslash; 110]
   else if c =? 13 then [c_backslash; 114]
   else if c =? 9 then [c_backslash; 116]
   else if c =? 8 then [c_backslash; 98]
   else if c =? 12 then [c_backslash; 102]
   else if c <? 32 then
     [c_backslash; 117; 48; 48; hex_char (c / 16); hex_char (c mod 16)]
   else [c])%N.

Definition encode_basestring (s : pystr) : pystr :=
  c_dquote :: flat_map escape_char s ++ [c_dquote].

(** [json.dumps(j, ensure_ascii=False)] with the default separators. A
    [float] is written as it was read; the pipeline never encodes one. *)
Fixpoint dumps (j : json) : pystr :=
  match j with
  | JNull => lit "null"
  | JBool true => lit "true"
  | JBool false => lit "false"
  | JInt z => str_of_Z z
  | JFloat l => l
  | JStr s => encode_basestring s
  | JArr l =>
    c_lbracket :: join (lit ", ") (map dumps l) ++ [c_rbracket]
  | JObj kv =>
    c_lbrace ::
    join (lit ", ")
         (map (fun p => encode_basestring (fst p) ++ lit ": " ++ dumps (snd p)) kv)
    ++ [c_rbrace]
  end.

(** ** Exceptions *)

(** The [RuntimeError]s of [llama_server_infer], by what their message is
    built from. *)
Inductive runtime_error : Type :=
| HttpRetriesExhausted (url : pystr) (max_attempts : Z) (e : pystr)
| LoadingModelStuck (url : pystr) (max_attempts : Z)
| HttpStatusError (status_code : Z) (err : json + pystr)
| ResponseNotJson (text : pystr)
| UnexpectedSchema (data : json)
| RetriesExhausted.

Inductive exn : Type :=
| ValueError (msg : pystr)
| JSONDecodeError
| ValidationError
| TypeError
| KeyError
| IndexError
| UnicodeEncodeError
| RuntimeError (what : runtime_error).

Inductive res (A : Type) : Type :=
| Ok (a : A)
| Raise (e : exn).
Arguments Ok {A} a.
Arguments Raise {A} e.

(** ** The schema and its validator *)

(** The three shapes of schema that [PURE_MATH_JSON_SCHEMA] is made of,
    each with the keywords it carries there. *)
Inductive schema : Type :=
| SObject (required : list pystr) (additionalProperties : bool)
          (properties : list (pystr * schema))
| SString (minLength : option Z)
| SArray (items : schema) (maxItems : option Z).

Definition equiv_form_schema : schema :=
  SObject [lit "name_of_trafo"; lit "assumptions"; lit "latex"] false
    [(lit "name_of_trafo", SString (Some 1));
     (lit "assumptions", SArray (SString None) None);
     (lit "latex", SString (Some 1))].

Definition PURE_MATH_JSON_SCHEMA : schema :=
  SObject [lit "input"; lit "analysis"; lit "equivalents"] false
    [(lit "input",
      SObject [lit "latex_raw"] false
        [(lit "latex_raw", SString (Some 1))]);
     (lit "analysis",
      SObject [lit "math_keywords"; lit "math_sentence"; lit "katex"] false
        [(lit "math_keywords", SArray (SString None) (Some 10));
         (lit "math_sentence", SString (Some 1));
         (lit "katex", SString (Some 1))]);
     (lit "equivalents",
      SObject [lit "equiv_form_1"; lit "equiv_form_2"] false
        [(lit "equiv_form_1", equiv_form_schema);
         (lit "equiv_form_2", equiv_form_schema)])].

(** The schema as the [dict] the source writes, key by key in its order. *)
Fixpoint schema_json (sc : schema) : json :=
  match sc with
  | SObject req ap props =>
    JObj [(lit "type", JStr (lit "object"));
          (lit "required", JArr (map JStr req));
          (lit "additionalProperties", JBool ap);
          (lit "properties",
           JObj (map (fun p => (fst p, schema_json (snd p))) props))]
  | SString ml =>
    JObj ((lit "type", JStr (lit "string")) ::
          match ml with Some n => [(lit "minLength", JInt n)] | None => [] end)
  | SArray it mi =>
    JObj ((lit "type", JStr (lit "array")) :: (lit "items", schema_json it) ::
          match mi with Some n => [(lit "maxItems", JInt n)] | None => [] end)
  end.

Definition schema_has (k : pystr) (props : list (pystr * schema)) : bool :=
  existsb (fun p => str_eqb k (fst p)) props.

(** Draft 7 validation for these keywords: [type], [required],
    [additionalProperties], [properties], [minLength], [items],
    [maxItems]. [true] when the validator reports no error. *)
Fixpoint is_valid (sc : schema) (j : json) : bool :=
  match sc with
  | SObject req ap props =>
    match j with
    | JObj d =>
      forallb (fun k => dict_has k d) req
      && (ap || forallb (fun k => schema_has k props) (dict_keys d))
      && forallb (fun p => match dict_get (fst p) d with
                           | Some v => is_valid (snd p) v
                           | None => true
                           end) props
    | _ => false
    end
  | SString ml =>
    match j with
    | JStr s => match ml with Some n => n <=? py_len s | None => true end
    | _ => false
    end
  | SArray it mi =>
    match j with
    | JArr l =>
      forallb (is_valid it) l
      && match mi with Some n => py_len l <=? n | None => true end
    | _ => false
    end
  end.

(** [Draft7Validator(schema).validate(obj)] *)
Definition validate (sc : schema) (obj : json) : res unit :=
  if is_valid sc obj then Ok tt else Raise ValidationError.

(** ** Helper functions of the client *)

(** [re.search(r"\{.*\}\s*$", s, flags=re.DOTALL)], as [m.group(0)].
    The leftmost match starts at the first opening brace of [s]; [.*] may
    cross lines, so the match runs to the end of [s], and it exists when
    the last character of [s] that is no whitespace is a closing brace
    after that opening brace. *)
Fixpoint from_first_lbrace (s : pystr) : option pystr :=
  match s with
  | [] => None
  | c :: r => if (c =? c_lbrace)%N then Some s else from_first_lbrace r
  end.

Definition ends_with_rbrace (t : pystr) : bool :=
  match lstrip_by is_space (rev t) with
  | c :: _ => (c =? c_rbrace)%N
  | [] => false
  end.

Definition search_final_object (s : pystr) : option pystr :=
  match from_first_lbrace s with
  | Some (c :: t) => if ends_with_rbrace t then Some (c :: t) else None
  | _ => None
  end.

Definition no_json_found : exn := ValueError (lit "No JSON found in model output").

(** [parse_strict_json] *)
Definition parse_strict_json (s : pystr) : res json :=
  match search_final_object s with
  | None => Raise no_json_found
  | Some m =>
    match json_loads m with
    | None => Raise JSONDecodeError
    | Some obj =>
      match validate PURE_MATH_JSON_SCHEMA obj with
      | Ok _ => Ok obj
      | Raise e => Raise e
      end
    end
  end.

(** The length of the match of [\\label\{[^}]*\}] at the head of [s]. *)
Fixpoint index_rbrace (s : pystr) : option nat :=
  match s with
  | [] => None
  | c :: r =>
    if (c =? c_rbrace)%N then Some O
    else match index_rbrace r with Some n => Some (S n) | None => None end
  end.

Definition label_match_len (s : pystr) : option nat :=
  match strip_prefix (lit "\label{") s with
  | Some t => match index_rbrace t with
              | Some n => Some (7 + n + 1)%nat
              | None => None
              end
  | None => None
  end.

(** [re.sub(r"\\label\{[^}]*\}", "", s)]: [skip] characters of a match
    are still to be dropped. *)
Fixpoint sub_labels (skip : nat) (s : pystr) : pystr :=
  match s with
  | [] => []
  | c :: r =>
    match skip with
    | S k => sub_labels k r
    | O =>
      match label_match_len s with
      | Some (S k) => sub_labels k r
      | _ => c :: sub_labels O r
      end
    end
  end.

(** [katex_hygiene] *)
Definition katex_hygiene (s : pystr) : pystr :=
  rstrip_by (fun c => (c =? c_comma)%N) (py_strip (sub_labels O s)).

(** [PROMPT_TEMPLATE_v2], up to [{schema}], between [{schema}] and
    [{latex_raw}], and after it. *)
Definition line (s : pystr) : pystr := s ++ [c_newline].
Definition em_dash : pystr := [8212%N].

Definition template_head : pystr :=
  line (lit "You are a Bourbaki-style pure mathematician: formal and entirely abstract. Analyze one LaTeX expression and return strict JSON that satisfies the schema. No text outside JSON.")
  ++ line []
  ++ line (lit "INPUT")
  ++ line (lit "- latex_raw: the raw LaTeX string of a single expression")
  ++ line []
  ++ line (lit "TASKS (pure math; no domain flavor)")
  ++ line (lit "1) math_keywords " ++ em_dash ++ lit " " ++ [8804%N]
           ++ lit "10 mathematical keywords, most" ++ [8594%N]
           ++ lit "least important.")
  ++ line (lit "2) math_sentence " ++ em_dash
           ++ lit " Single natural-language sentence description")
  ++ line (lit "3) katex " ++ em_dash
           ++ lit " KaTeX representation (fix punctuation/braces; do NOT wrap in $...$ or \[...\]).")
  ++ line (lit "4) equiv_form_1 " ++ em_dash
           ++ litq " Algebraically equivalent form with 'name_of_trafo' and 'assumptions'.")
  ++ line (lit "5) equiv_form_2 " ++ em_dash
           ++ litq " A different algebraically equivalent form with its own 'name_of_trafo' and 'assumptions'.")
  ++ line []
  ++ line (lit "OUTPUT RULES")
  ++ line (lit "- Output MUST be a single JSON object and nothing else.")
  ++ line (lit "- All keys/strings use double quotes.")
  ++ line (litq "- Escape backslashes in JSON strings (e.g., '\\frac').")
  ++ line (lit "- Keep LaTeX inside strings; do not add $...$ or \[...\].")
  ++ line []
  ++ line (lit "JSON SCHEMA (informative, do not echo)").

Definition template_mid : pystr :=
  line []
  ++ line []
  ++ line (lit "Return only the JSON object.")
  ++ line []
  ++ line (lit "LaTeX expression (raw):").

Definition template_tail : pystr := line [].

(** [build_prompt] *)
Definition build_prompt (latex_raw : pystr) : pystr :=
  template_head ++ dumps (schema_json PURE_MATH_JSON_SCHEMA)
  ++ template_mid ++ latex_raw ++ template_tail.

(** ** The llama-server and [llama_server_infer] *)

(** What one [requests.post] does: it raises, or it returns a response
    with a status code and a body. *)
Inductive post_result : Type :=
| PostRaises (e : pystr)
| PostReturns (status_code : Z) (text : pystr).

(** The server seen from one rank: what the post number [n] of the process
    (counted from 0) does, given the url and the payload. *)
Definition server := nat -> pystr -> json -> post_result.

(** The effects of a rank on the network and on the clock so far. *)
Record io : Type := mkIo {
  posts : nat;   (* calls of [requests.post] *)
  sleeps : nat   (* calls of [time.sleep(sleep_seconds)] *)
}.

Definition io_post (w : io) : io := mkIo (S (posts w)) (sleeps w).
Definition io_sleep (w : io) : io := mkIo (posts w) (S (sleeps w)).

Definition max_attempts : Z := 60.

Definition server_url (SERVER_BASE_PORT local_rank : Z) : pystr :=
  lit "http://127.0.0.1:" ++ str_of_Z (SERVER_BASE_PORT + local_rank)
  ++ lit "/v1/chat/completions".

Definition request_payload (prompt : pystr) (max_tokens : Z) : json :=
  JObj [(lit "model", JStr (lit "gpt-oss-120b"));
        (lit "messages",
         JArr [JObj [(lit "role", JStr (lit "user"));
                     (lit "content", JStr prompt)]]);
        (lit "max_tokens", JInt max_tokens);
        (lit "temperature", JFloat (lit "0.0"));
        (lit "top_p", JFloat (lit "1.0"));
        (lit "n", JInt 1)].

(** [msg] of the 503 branch: [data.get("error", {}).get("message", "")],
    or [""] when anything in that raises. *)
Definition loading_msg (text : pystr) : json :=
  match json_loads text with
  | Some (JObj data) =>
    match dict_get (lit "error") data with
    | None => JStr []
    | Some (JObj error) =>
      match dict_get (lit "message") error with
      | Some m => m
      | None => JStr []
      end
    | Some _ => JStr []
    end
  | _ => JStr []
  end.

(** [needle in msg] for a string [needle]: substring of a [str], element of
    a [list], key of a [dict]; [TypeError] on anything else. *)
Definition py_in (needle : pystr) (msg : json) : res bool :=
  match msg with
  | JStr s => Ok (str_contains needle s)
  | JArr l =>
    Ok (existsb (fun x => match x with
                          | JStr t => str_eqb needle t
                          | _ => false
                          end) l)
  | JObj d => Ok (dict_has needle d)
  | _ => Raise TypeError
  end.

(** [j[k]] for a string key and [j[0]]; [None] when it raises. *)
Definition getitem_key (j : json) (k : pystr) : option json :=
  match j with
  | JObj d => dict_get k d
  | _ => None
  end.

Definition getitem_0 (j : json) : option json :=
  match j with
  | JArr (x :: _) => Some x
  | JStr (c :: _) => Some (JStr [c])
  | _ => None
  end.

(** [data["choices"][0]["message"]["content"]] *)
Definition response_content (data : json) : option json :=
  match getitem_key data (lit "choices") with
  | None => None
  | Some choices =>
    match getitem_0 choices with
    | None => None
    | Some choice =>
      match getitem_key choice (lit "message") with
      | None => None
      | Some message => getitem_key message (lit "content")
      end
    end
  end.

Section Infer.

Variable srv : server.
Variable url : pystr.
Variable payload : json.

(** The loop [for attempt in range(1, max_attempts + 1)] from [attempt]
    on, with [n] iterations left. *)
Fixpoint infer_loop (n : nat) (attempt : Z) (w : io) : res json * io :=
  match n with
  | O => (Raise (RuntimeError RetriesExhausted), w)
  | S n' =>
    let w1 := io_post w in
    match srv (posts w) url payload with
    | PostRaises e =>
      if attempt =? max_attempts
      then (Raise (RuntimeError (HttpRetriesExhausted url max_attempts e)), w1)
      else infer_loop n' (attempt + 1) (io_sleep w1)
    | PostReturns status_code text =>
      match (if status_code =? 503
             then py_in (lit "Loading model") (loading_msg text)
             else Ok false) with
      | Raise e => (Raise e, w1)
      | Ok true =>
        if attempt =? max_attempts
        then (Raise (RuntimeError (LoadingModelStuck url max_attempts)), w1)
        else infer_loop n' (attempt + 1) (io_sleep w1)
      | Ok false =>
        if negb (status_code =? 200) then
          (Raise (RuntimeError
                    (HttpStatusError status_code
                       match json_loads text with
                       | Some err => inl err
                       | None => inr text
                       end)), w1)
        else
          match json_loads text with
          | None => (Raise (RuntimeError (ResponseNotJson text)), w1)
          | Some data =>
            match response_content data with
            | None => (Raise (RuntimeError (UnexpectedSchema data)), w1)
            | Some content => (Ok content, w1)
            end
          end
      end
    end
  end.

End Infer.

(** [llama_server_infer(prompt, max_tokens)] on the rank whose node-local
    rank is [local_rank]. *)
Definition llama_server_infer (srv : server) (SERVER_BASE_PORT local_rank : Z)
           (prompt : pystr) (max_tokens : Z) (w : io) : res json * io :=
  infer_loop srv (server_url SERVER_BASE_PORT local_rank)
             (request_payload prompt max_tokens)
             (Z.to_nat max_attempts) 1 w.

(** ** Input frames *)

(** A cell of a parquet column: [None], a NaN, a [str] or an [int]. A
    cell whose truth value raises ([pd.NA], an array) is not one of
    them; the statements on runs that end normally name the frames they
    are about. *)
Inductive cell : Type :=
| CellNone
| CellNaN
| CellStr (s : pystr)
| CellInt (z : Z).

(** A row is a [Series]: its cells by column name. *)
Definition Row := list (pystr * cell).

Record frame : Type := mkFrame {
  columns : list pystr;
  rows : list Row
}.

Fixpoint row_lookup (k : pystr) (r : Row) : option cell :=
  match r with
  | [] => None
  | (k', c) :: r' => if str_eqb k k' then Some c else row_lookup k r'
  end.

(** [row.get(k)] and [row.get(k, default)] *)
Definition row_get (r : Row) (k : pystr) : cell :=
  match row_lookup k r with Some c => c | None => CellNone end.

Definition row_get_default (r : Row) (k : pystr) (default : cell) : cell :=
  match row_lookup k r with Some c => c | None => default end.

Definition cell_truthy (c : cell) : bool :=
  match c with
  | CellNone => false
  | CellNaN => true
  | CellStr s => match s with [] => false | _ :: _ => true end
  | CellInt z => negb (z =? 0)
  end.

(** [str(c)] *)
Definition cell_str (c : cell) : pystr :=
  match c with
  | CellNone => lit "None"
  | CellNaN => lit "nan"
  | CellStr s => s
  | CellInt z => str_of_Z z
  end.

(** A cell as a value of a record. *)
Definition cell_json (c : cell) : json :=
  match c with
  | CellNone => JNull
  | CellNaN => JFloat (lit "NaN")
  | CellStr s => JStr s
  | CellInt z => JInt z
  end.

(** [df[df["LLM_prompt"].isin({"LLM", "API"})]] when the column exists. *)
Definition selected (r : Row) : bool :=
  match row_get r (lit "LLM_prompt") with
  | CellStr s => str_eqb s (lit "LLM") || str_eqb s (lit "API")
  | _ => false
  end.

Definition filter_frame (f : frame) : list Row :=
  if existsb (str_eqb (lit "LLM_prompt")) (columns f)
  then filter selected (rows f)
  else rows f.

(** [df.iloc[i]]: a negative index counts from the end; [None] stands for
    [IndexError]. *)
Definition iloc (df : list Row) (i : Z) : option Row :=
  let n := py_len df in
  if (0 <=? i) && (i <? n) then nth_error df (Z.to_nat i)
  else if (- n <=? i) && (i <? 0) then nth_error df (Z.to_nat (i + n))
  else None.

(** ** Checkpoints and output files *)

(** What is left to the interpreter and to the libraries. The
    conversions [int(s)] of a [str] and [int(x)] of a [float] (given by
    the text it was read from): [None] stands for the exception they
    raise. And [DataFrame.to_parquet] on the frame of a list of records:
    [Some e] when the conversion of the frame raises [e], as it does on
    a string that UTF-8 cannot encode or on a column of mixed types, and
    [None] when the file is written. *)
Record builtins : Type := mkBuiltins {
  int_of_str : pystr -> option Z;
  int_of_float : pystr -> option Z;
  to_parquet : list dict -> option exn
}.

(** [int(v)] *)
Definition py_int (b : builtins) (v : json) : option Z :=
  match v with
  | JInt z => Some z
  | JBool true => Some 1
  | JBool false => Some 0
  | JStr s => int_of_str b s
  | JFloat l => int_of_float b l
  | JNull | JArr _ | JObj _ => None
  end.

(** [int(json.loads(text).get(key, 0))]; [None] when it raises. *)
Definition ckpt_offset (b : builtins) (key text : pystr) : option Z :=
  match json_loads text with
  | Some (JObj d) =>
    py_int b (match dict_get key d with Some v => v | None => JInt 0 end)
  | _ => None
  end.

(** [json.dumps({key: offset}, ensure_ascii=False)] *)
Definition ckpt_text (key : pystr) (offset : Z) : pystr :=
  dumps (JObj [(key, JInt offset)]).

(** [read_checkpoint] and [write_checkpoint] of [helpers.py]; the file is
    [None] when it does not exist. *)
Definition read_checkpoint (b : builtins) (ckpt : option pystr) : Z :=
  match ckpt with
  | None => 0
  | Some text =>
    match ckpt_offset b (lit "row_index") text with
    | Some z => z
    | None => 0
    end
  end.

Definition write_checkpoint (idx : Z) : option pystr :=
  Some (ckpt_text (lit "row_index") idx).

(** The files of one rank for one parquet file. An output file is the list
    of the records merged into it. *)
Record store : Type := mkStore {
  out_file : option (list dict);
  ckpt_file : option pystr
}.

(** The start of [process_file_row_sharded]: the resume offset. *)
Definition read_rank_ckpt (b : builtins) (s : store) : Z :=
  match ckpt_file s with
  | Some text =>
    match ckpt_offset b (lit "row_offset") text with
    | Some z => z
    | None => 0
    end
  | None => 0
  end.

(** [_flush(out_path, records)]: the frame written is the old file with
    the records after it; nothing is caught. *)
Definition _flush (b : builtins) (records : list dict) (s : store)
  : res store :=
  match records with
  | [] => Ok s
  | _ :: _ =>
    let df := match out_file s with
              | Some df_old => df_old ++ records
              | None => records
              end in
    match to_parquet b df with
    | Some e => Raise e
    | None => Ok (mkStore (Some df) (ckpt_file s))
    end
  end.

(** [_write_rank_ckpt(ckpt, offset)] *)
Definition _write_rank_ckpt (offset : Z) (s : store) : store :=
  mkStore (out_file s) (Some (ckpt_text (lit "row_offset") offset)).

(** ** Row-sharded processing *)

Record config : Type := mkConfig {
  world_rank : Z;
  world_size : Z;
  local_rank : Z;
  SERVER_BASE_PORT : Z;
  MAX_GENERATION_TOKENS : Z;
  ctx : Z
}.

Definition flush_every : Z := 20.

(** The variables of the loop, the files, the effects so far, and two
    histories kept for the statements only: the offsets handed to
    [_write_rank_ckpt], oldest first, and the number of flushes that
    merged records into the output file. *)
Record pstate : Type := mkState {
  st_store : store;
  st_buffer : list dict;
  st_count : Z;
  st_io : io;
  st_ckpt_log : list Z;
  st_flushes : nat
}.

Definition initial_state (s : store) (w : io) : pstate :=
  mkState s [] 0 w [] O.

Definition do_flush (b : builtins) (st : pstate) : res pstate :=
  match _flush b (st_buffer st) (st_store st) with
  | Raise e => Raise e
  | Ok s =>
    Ok (mkState s (st_buffer st) (st_count st) (st_io st) (st_ckpt_log st)
                (match st_buffer st with
                 | [] => st_flushes st
                 | _ :: _ => S (st_flushes st)
                 end))
  end.

Definition do_write_ckpt (offset : Z) (st : pstate) : pstate :=
  mkState (_write_rank_ckpt offset (st_store st)) (st_buffer st) (st_count st)
          (st_io st) (st_ckpt_log st ++ [offset]) (st_flushes st).

(** [str(row.get("content_resolved", "") or "")] *)
Definition row_latex_raw (row : Row) : pystr :=
  let c := row_get_default row (lit "content_resolved") (CellStr []) in
  cell_str (if cell_truthy c then c else CellStr []).

(** The prompt built for a row. *)
Definition row_prompt (row : Row) : pystr :=
  build_prompt (katex_hygiene (row_latex_raw row)).

(** The six fields every record has. *)
Definition base_record (paper_id eq_id : cell) (latex_raw latex_clean : pystr)
           (content : json) (global_row_index : Z) : dict :=
  [(lit "paper_id", cell_json paper_id);
   (lit "equation_id", cell_json eq_id);
   (lit "latex_raw", JStr latex_raw);
   (lit "latex_clean", JStr latex_clean);
   (lit "llm_raw_output", content);
   (lit "global_row", JInt global_row_index)].

Definition getitem (j : json) (k : pystr) : res json :=
  match j with
  | JObj d => match dict_get k d with Some v => Ok v | None => Raise KeyError end
  | _ => Raise TypeError
  end.

(** The argument of [rec.update] under [if parsed:]. *)
Definition structured_fields (parsed : json) : res dict :=
  match getitem parsed (lit "analysis") with Raise e => Raise e | Ok analysis =>
  match getitem parsed (lit "equivalents") with Raise e => Raise e | Ok equivs =>
  match getitem analysis (lit "math_keywords") with Raise e => Raise e | Ok kw =>
  match getitem analysis (lit "math_sentence") with Raise e => Raise e | Ok sentence =>
  match getitem analysis (lit "katex") with Raise e => Raise e | Ok katex =>
  match getitem equivs (lit "equiv_form_1") with Raise e => Raise e | Ok e1 =>
  match getitem equivs (lit "equiv_form_2") with Raise e => Raise e | Ok e2 =>
    Ok [(lit "math_keywords", JStr (dumps kw));
        (lit "math_sentence", sentence);
        (lit "katex", katex);
        (lit "equiv_form_1", JStr (dumps e1));
        (lit "equiv_form_2", JStr (dumps e2));
        (lit "output_json", JStr (dumps parsed))]
  end end end end end end end.

(** Truth value of [parsed]: [None] is false, a [dict] is true when it is
    not empty. *)
Definition parsed_truthy (parsed : option json) : bool :=
  match parsed with
  | Some (JObj (_ :: _)) => true
  | _ => false
  end.

(** [parse_strict_json(content)] under [try ... except Exception: parsed =
    None]; [re.search] raises [TypeError] on what is no [str]. *)
Definition try_parse (content : json) : option json :=
  match content with
  | JStr s => match parse_strict_json s with Ok obj => Some obj | Raise _ => None end
  | _ => None
  end.

Section Pipeline.

Variable b : builtins.
Variable cfg : config.
Variable srv : server.
Variable df : list Row.

Definition max_prompt_chars : Z := ctx cfg * 4.

(** After [buffer.append(rec); count += 1]: flush when the count is a
    multiple of [flush_every]. The flush stands outside every [try]: what
    it raises leaves the loop. *)
Definition buffer_record (rec : dict) (st : pstate) : res pstate :=
  let st1 := mkState (st_store st) (st_buffer st ++ [rec]) (st_count st + 1)
                     (st_io st) (st_ckpt_log st) (st_flushes st) in
  if st_count st1 mod flush_every =? 0 then
    match do_flush b st1 with
    | Raise e => Raise e
    | Ok st2 =>
      let st3 := mkState (st_store st2) [] (st_count st2) (st_io st2)
                         (st_ckpt_log st2) (st_flushes st2) in
      Ok (do_write_ckpt (st_count st3 / flush_every) st3)
    end
  else Ok st1.

(** One iteration of [for global_row_index in my_rows]. [Raise] is an
    exception that leaves the loop. *)
Definition process_row (st : pstate) (global_row_index : Z) : res pstate :=
  match iloc df global_row_index with
  | None => Raise IndexError
  | Some row =>
    let paper_id := row_get row (lit "paper_id") in
    let eq_id := row_get row (lit "equation_id") in
    let latex_raw := row_latex_raw row in
    let latex_clean := katex_hygiene latex_raw in
    let prompt := build_prompt latex_clean in
    if py_len prompt >? max_prompt_chars then Ok st
    else
      let '(r, w) :=
        llama_server_infer srv (SERVER_BASE_PORT cfg) (local_rank cfg)
                           prompt (MAX_GENERATION_TOKENS cfg) (st_io st) in
      let st' := mkState (st_store st) (st_buffer st) (st_count st) w
                         (st_ckpt_log st) (st_flushes st) in
      match r with
      | Raise _ => Ok st'
      | Ok content =>
        let parsed := try_parse content in
        let rec := base_record paper_id eq_id latex_raw latex_clean content
                               global_row_index in
        if parsed_truthy parsed then
          match structured_fields
                  (match parsed with Some p => p | None => JNull end) with
          | Raise e => Raise e
          | Ok fields => buffer_record (dict_update rec fields) st'
          end
        else buffer_record rec st'
      end
  end.

(** The loop over a list of row indices. *)
Fixpoint run_rows (st : pstate) (indices : list Z) : res pstate :=
  match indices with
  | [] => Ok st
  | i :: rest =>
    match process_row st i with
    | Raise e => Raise e
    | Ok st' => run_rows st' rest
    end
  end.

End Pipeline.

(** [process_file_row_sharded] on the frame read from one parquet file,
    from the files [s] a former run left. *)
Definition process_file_row_sharded (b : builtins) (cfg : config) (srv : server)
           (f : frame) (s : store) (w : io) : res pstate :=
  let df := filter_frame f in
  let total_rows := py_len df in
  let start_offset := read_rank_ckpt b s in
  match my_rows (world_rank cfg) start_offset (world_size cfg) total_rows with
  | None => Raise (ValueError (lit "range() arg 3 must not be zero"))
  | Some rows_ =>
    match run_rows b cfg srv df (initial_state s w) rows_ with
    | Raise e => Raise e
    | Ok st =>
      match do_flush b st with
      | Raise e => Raise e
      | Ok st1 => Ok (do_write_ckpt (py_len rows_) st1)
      end
    end
  end.

(** ** Files: the batches of a directory and the files of a rank *)

(** [a < b] on [str]: the order of the code points, a proper prefix
    first. Paths of one directory compare as their names do. *)
Fixpoint str_ltb (a b : pystr) : bool :=
  match a, b with
  | _, [] => false
  | [], _ :: _ => true
  | x :: a', y :: b' =>
    if (x <? y)%N then true
    else if (y <? x)%N then false
    else str_ltb a' b'
  end.

(** [sorted(l)]: stable, [x] goes before the first element that is not
    below it. *)
Fixpoint sorted_insert (x : pystr) (l : list pystr) : list pystr :=
  match l with
  | [] => [x]
  | y :: l' => if str_ltb y x then y :: sorted_insert x l' else x :: l
  end.

Definition py_sorted (l : list pystr) : list pystr :=
  fold_right sorted_insert [] l.

(** [name.rfind(".")] *)
Fixpoint rfind_dot (name : pystr) : option nat :=
  match name with
  | [] => None
  | c :: r =>
    match rfind_dot r with
    | Some i => Some (S i)
    | None => if (c =? c_dot)%N then Some O else None
    end
  end.

(** [PurePath.suffix] and [PurePath.stem] of a path, from its name: the
    suffix starts at the last dot of the name when that dot is neither
    its first nor its last character. *)
Definition has_suffix (name : pystr) : option nat :=
  match rfind_dot name with
  | Some i =>
    if (0 <? i)%nat && (i <? length name - 1)%nat then Some i else None
  | None => None
  end.

Definition path_suffix (name : pystr) : pystr :=
  match has_suffix name with
  | Some i => skipn i name
  | None => []
  end.

Definition path_stem (name : pystr) : pystr :=
  match has_suffix name with
  | Some i => firstn i name
  | None => name
  end.

(** [load_parquets], on the names [src_dir.iterdir()] yields, in the
    order it yields them. *)
Definition load_parquets (listing : list pystr) : list pystr :=
  py_sorted (filter (fun p => str_eqb (path_suffix p) (lit ".parquet"))
                    listing).

(** [f"{z:04d}"]: the sign, then zeros up to a width of four, then the
    digits. *)
Definition format_04d (z : Z) : pystr :=
  let sign := if z <? 0 then [c_minus] else [] in
  let digits := str_of_Z (Z.abs z) in
  sign ++ repeat c_zero (4 - length sign - length digits) ++ digits.

(** The names of [out_path] in [dst_dir] and of [ckpt_path] in
    [dst_dir / "checkpoints"]. *)
Definition out_name (stem : pystr) (world_rank : Z) : pystr :=
  stem ++ lit "__rank" ++ format_04d world_rank ++ lit ".parquet".

Definition ckpt_name (stem : pystr) (world_rank : Z) : pystr :=
  stem ++ lit "__rank" ++ format_04d world_rank ++ lit ".ckpt.json".

(** The destination directory: its output files and its checkpoint
    files, by name. *)
Record dst_files : Type := mkDst {
  outputs : pystr -> option (list dict);
  checkpoints : pystr -> option pystr
}.

(** The two files of a rank for the batch [pq], as [process_file_row_sharded]
    finds them and as it leaves them. *)
Definition store_of (d : dst_files) (pq : pystr) (world_rank : Z) : store :=
  mkStore (outputs d (out_name (path_stem pq) world_rank))
          (checkpoints d (ckpt_name (path_stem pq) world_rank)).

Definition put_store (d : dst_files) (pq : pystr) (world_rank : Z)
           (s : store) : dst_files :=
  mkDst (fun n => if str_eqb n (out_name (path_stem pq) world_rank)
                  then out_file s else outputs d n)
        (fun n => if str_eqb n (ckpt_name (path_stem pq) world_rank)
                  then ckpt_file s else checkpoints d n).

(** [for pq in files: process_file_row_sharded(pq, dst_dir, ...)]; an
    exception ends the loop. [read_parquet] gives the frame of a batch. *)
Fixpoint main_loop (b : builtins) (cfg : config) (srv : server)
         (read_parquet : pystr -> frame) (files : list pystr)
         (d : dst_files) (w : io) : res (dst_files * io) :=
  match files with
  | [] => Ok (d, w)
  | pq :: rest =>
    match process_file_row_sharded b cfg srv (read_parquet pq)
                                   (store_of d pq (world_rank cfg)) w with
    | Raise e => Raise e
    | Ok st =>
      main_loop b cfg srv read_parquet rest
                (put_store d pq (world_rank cfg) (st_store st)) (st_io st)
    end
  end.

(** [main], after the command line is read. *)
Definition main (b : builtins) (cfg : config) (srv : server)
           (read_parquet : pystr -> frame) (listing : list pystr)
           (d : dst_files) (w : io) : res (dst_files * io) :=
  main_loop b cfg srv read_parquet (load_parquets listing) d w.

(** ** Notions the statements below are written with *)

(** The indices [0 .. N-1] in order. *)
Definition row_indices (N : Z) : list Z := map Z.of_nat (seq 0 (Z.to_nat N)).

(** The body of an answer carries the error message of a server that is
    still loading its model: a JSON object whose [error.message] is a
    string containing "Loading model". *)
Definition loading_model_body (text : pystr) : Prop :=
  exists data error m,
    json_loads text = Some (JObj data)
    /\ dict_get (lit "error") data = Some (JObj error)
    /\ dict_get (lit "message") error = Some (JStr m)
    /\ str_contains (lit "Loading model") m = true.

(** The two transient conditions: the post fails at the connection level,
    or the server answers 503 with that message. *)
Definition transient (r : post_result) : Prop :=
  match r with
  | PostRaises _ => True
  | PostReturns status_code text => status_code = 503 /\ loading_model_body text
  end.

(** The server answers 200 with a body whose
    [choices[0].message.content] is [content]. *)
Definition succeeds_with (r : post_result) (content : json) : Prop :=
  exists text data,
    r = PostReturns 200 text
    /\ json_loads text = Some data
    /\ response_content data = Some content.

(** A checkpoint file whose contents are unparseable or corrupt: no JSON
    text, a JSON value that is no object, an object without the offset, or
    an object whose offset is [null], a list or an object. *)
Definition corrupt_ckpt (key text : pystr) : Prop :=
  json_loads text = None
  \/ (exists v, json_loads text = Some v /\ forall d, v <> JObj d)
  \/ (exists d, json_loads text = Some (JObj d) /\ dict_get key d = None)
  \/ (exists d v, json_loads text = Some (JObj d) /\ dict_get key d = Some v
                  /\ (v = JNull \/ (exists l, v = JArr l) \/ exists m, v = JObj m)).

(** The records merged into the output file so far, and with them the
    records still in the buffer. *)
Definition stored_rows (s : store) : list dict :=
  match out_file s with Some l => l | None => [] end.

Definition recorded (st : pstate) : list dict :=
  stored_rows (st_store st) ++ st_buffer st.

(** The fields [rec.update] adds when the output validates. *)
Definition structured_keys : list pystr :=
  [lit "math_keywords"; lit "math_sentence"; lit "katex";
   lit "equiv_form_1"; lit "equiv_form_2"; lit "output_json"].

(** The [global_row] of each record of a list. *)
Definition global_rows (l : list dict) : list Z :=
  flat_map (fun rec => match dict_get (lit "global_row") rec with
                       | Some (JInt z) => [z]
                       | _ => []
                       end) l.

(** The text holds an opening brace, later a closing brace, and after
    that closing brace whitespace only. *)
Definition has_final_object (s : pystr) : Prop :=
  exists pre body ws,
    s = pre ++ c_lbrace :: body ++ c_rbrace :: ws
    /\ Forall (fun c => is_space c = true) ws.

(** A required key is missing, or a key outside the declared properties
    is present, at some object level of the instance. *)
Inductive key_violation : schema -> json -> Prop :=
| KV_missing req ap props d k :
    In k req -> dict_get k d = None ->
    key_violation (SObject req ap props) (JObj d)
| KV_extra req props d k :
    In k (dict_keys d) -> schema_has k props = false ->
    key_violation (SObject req false props) (JObj d)
| KV_inside req ap props d k s v :
    In (k, s) props -> dict_get k d = Some v -> key_violation s v ->
    key_violation (SObject req ap props) (JObj d).

(** Every key the schema requires is present, level by level. *)
Definition has_required_keys (obj : json) : Prop :=
  exists input analysis equivalents e1 e2,
    getitem_key obj (lit "input") = Some input
    /\ getitem_key obj (lit "analysis") = Some analysis
    /\ getitem_key obj (lit "equivalents") = Some equivalents
    /\ (exists v, getitem_key input (lit "latex_raw") = Some v)
    /\ (exists v, getitem_key analysis (lit "math_keywords") = Some v)
    /\ (exists v, getitem_key analysis (lit "math_sentence") = Some v)
    /\ (exists v, getitem_key analysis (lit "katex") = Some v)
    /\ getitem_key equivalents (lit "equiv_form_1") = Some e1
    /\ getitem_key equivalents (lit "equiv_form_2") = Some e2
    /\ (forall e, e = e1 \/ e = e2 ->
        (exists v, getitem_key e (lit "name_of_trafo") = Some v)
        /\ (exists v, getitem_key e (lit "assumptions") = Some v)
        /\ (exists v, getitem_key e (lit "latex") = Some v)).

(** The checkpoints of the loop: after [count] records, [count / 20]
    flushes are done, the values persisted are 1, 2, ..., [count / 20] in
    this order, and the buffer holds the [count mod 20] records not yet
    flushed. *)
Definition loop_invariant (st : pstate) : Prop :=
  0 <= st_count st
  /\ st_flushes st = Z.to_nat (st_count st / flush_every)
  /\ st_ckpt_log st
     = map Z.of_nat (seq 1 (Z.to_nat (st_count st / flush_every)))
  /\ py_len (st_buffer st) = st_count st mod flush_every.

(** A decimal numeral that starts with a digit other than 0. *)
Definition nonzero_head (u : Decimal.uint) : Prop :=
  match u with
  | Decimal.Nil | Decimal.D0 _ => False
  | _ => True
  end.

(** What follows the numeral does not go on with a digit. *)
Definition not_digit_head (rest : pystr) : Prop :=
  match rest with
  | c :: _ => is_digit c = false
  | [] => True
  end.

(** A call that succeeds consumes input, and succeeds alike under any
    bound that is at least the number of characters it consumes. *)
Definition enough {A : Type} (run : nat -> pystr -> option (A * pystr))
           (g : nat) : Prop :=
  forall s v r,
    run g s = Some (v, r) ->
    (length r < length s)%nat
    /\ forall f, (length s - length r <= f)%nat -> run f s = Some (v, r).

(** The flush that is due once [rec] is buffered, if one is due, is
    accepted: the count does not reach a multiple of 20, or [to_parquet]
    writes the frame of the old file, the buffer and [rec]. *)
Definition flush_accepted (b : builtins) (st : pstate) (rec : dict) : Prop :=
  (st_count st + 1) mod flush_every <> 0
  \/ to_parquet b (recorded st ++ [rec]) = None.

(** [to_parquet] writes every frame. *)
Definition writes_all (b : builtins) : Prop :=
  forall df, to_parquet b df = None.

(** ** Sample inputs *)

(** The answer of a llama-server that is still loading its model. *)
Definition loading_body : pystr :=
  litq "{'error': {'code': 503, 'message': 'Loading model', 'type': 'unavailable_error'}}".

(** A chat completion whose content is [content]. *)
Definition completion_body (content : pystr) : pystr :=
  dumps (JObj [(lit "choices",
                JArr [JObj [(lit "index", JInt 0);
                            (lit "message",
                             JObj [(lit "role", JStr (lit "assistant"));
                                   (lit "content", JStr content)])]])]).

(** A server that refuses the first connection, is loading on the second
    post and answers from the third on. *)
Definition warming_server : server :=
  fun n _ _ =>
    match n with
    | O => PostRaises (lit "Connection refused")
    | S O => PostReturns 503 loading_body
    | _ => PostReturns 200 (completion_body (lit "ready"))
    end.

(** A server that is never reachable. *)
Definition dead_server : server :=
  fun _ _ _ => PostRaises (lit "Connection refused").

(** A server that answers 503 with a number where the message goes. *)
Definition odd_server : server :=
  fun _ _ _ => PostReturns 503 (litq "{'error': {'message': 5}}").

(** A frame with a string cell that holds a surrogate code point, which
    UTF-8 cannot encode. *)
Definition has_surrogate (s : pystr) : bool :=
  existsb (fun c => is_high_surrogate c || is_low_surrogate c) s.

Definition unencodable (df : list dict) : bool :=
  existsb (existsb (fun kv => match snd kv with
                              | JStr s => has_surrogate s
                              | _ => false
                              end)) df.

(** The interpreter and the libraries of the examples: [int] of a string
    of ASCII digits, no conversion of a [float], and a [to_parquet] that
    raises [UnicodeEncodeError] on such a frame and writes every other
    one. *)
Definition sample_builtins : builtins :=
  mkBuiltins
    (fun s => match s, scan_digits s with
              | _ :: _, (u, []) => Some (Z.of_uint u)
              | _, _ => None
              end)
    (fun _ => None)
    (fun df => if unencodable df then Some UnicodeEncodeError else None).

(** A checkpoint cut short while it was written. *)
Definition truncated_ckpt : pystr := litq "{'row_offset': 1".

(** A rank alone in its world, with the default port, generation length
    and context size of the command line. *)
Definition sample_cfg : config := mkConfig 0 1 0 18080 500 1024.

(** The same rank with a context size of 600, a budget of 2400
    characters for a prompt. *)
Definition tight_cfg : config := mkConfig 0 1 0 18080 500 600.

Definition sample_row (k : Z) (latex : pystr) : Row :=
  [(lit "paper_id", CellStr (lit "2401.00001"));
   (lit "equation_id", CellInt k);
   (lit "content_resolved", CellStr latex)].

Definition sample_columns : list pystr :=
  [lit "paper_id"; lit "equation_id"; lit "content_resolved"].

(** A frame of [n] rows with the same short expression. *)
Definition sample_frame (n : nat) : frame :=
  mkFrame sample_columns
          (map (fun k => sample_row (Z.of_nat k) (lit "x^2")) (seq 0 n)).

(** A frame of two rows, the second with an expression of 100
    characters. *)
Definition long_row_frame : frame :=
  mkFrame sample_columns
          [sample_row 0 (lit "x^2"); sample_row 1 (repeat 120%N 100)].

(** A server that always answers, with prose and no JSON object. *)
Definition chatty_server : server :=
  fun _ _ _ => PostReturns 200 (completion_body (lit "I cannot answer.")).

Definition empty_store : store := mkStore None None.
Definition fresh_io : io := mkIo 0 0.

(** An instance of the schema, as a model writes it. *)
Definition valid_output : pystr :=
  litq "{'input': {'latex_raw': 'x^2'}, 'analysis': {'math_keywords': ['power', 'monomial'], 'math_sentence': 'The square of x.', 'katex': 'x^2'}, 'equivalents': {'equiv_form_1': {'name_of_trafo': 'write as product', 'assumptions': [], 'latex': 'x x'}, 'equiv_form_2': {'name_of_trafo': 'exp-log', 'assumptions': ['x > 0'], 'latex': 'e^{2 ln x}'}}}".

(** The same instance after a sentence that mentions a set. *)
Definition chatty_valid_output : pystr :=
  lit "For x in {1, 2}: " ++ valid_output.

(** A server that knows no such route. *)
Definition lost_server : server :=
  fun _ _ _ => PostReturns 404 (lit "Not Found").

(** An object without the [analysis] and [equivalents] members. *)
Definition partial_output : pystr :=
  litq "Here you are: {'input': {'latex_raw': 'x^2'}}".

(** ** Notions of the statements on the row loop *)

(** The state with the effects of one more call of [llama_server_infer]. *)
Definition with_io (st : pstate) (w : io) : pstate :=
  mkState (st_store st) (st_buffer st) (st_count st) w
          (st_ckpt_log st) (st_flushes st).

(** The six fields of the record of row [i] when the server gave
    [content], written out. *)
Definition row_base (row : Row) (i : Z) (content : json) : dict :=
  [(lit "paper_id", cell_json (row_get row (lit "paper_id")));
   (lit "equation_id", cell_json (row_get row (lit "equation_id")));
   (lit "latex_raw", JStr (row_latex_raw row));
   (lit "latex_clean", JStr (katex_hygiene (row_latex_raw row)));
   (lit "llm_raw_output", content);
   (lit "global_row", JInt i)].

(** The six structured fields of a parsed object, written out: the
    keywords and the two equivalent forms as JSON text, the sentence and
    the KaTeX string as they are, and the whole object as JSON text. *)
Definition structured_of (obj : json) (fields : dict) : Prop :=
  exists analysis equivs kw sentence katex e1 e2,
    getitem_key obj (lit "analysis") = Some analysis
    /\ getitem_key obj (lit "equivalents") = Some equivs
    /\ getitem_key analysis (lit "math_keywords") = Some kw
    /\ getitem_key analysis (lit "math_sentence") = Some sentence
    /\ getitem_key analysis (lit "katex") = Some katex
    /\ getitem_key equivs (lit "equiv_form_1") = Some e1
    /\ getitem_key equivs (lit "equiv_form_2") = Some e2
    /\ fields = [(lit "math_keywords", JStr (dumps kw));
                 (lit "math_sentence", sentence);
                 (lit "katex", katex);
                 (lit "equiv_form_1", JStr (dumps e1));
                 (lit "equiv_form_2", JStr (dumps e2));
                 (lit "output_json", JStr (dumps obj))].

(** [l1] is made of elements of [l2], in the order of [l2]. *)
Inductive subseq {A : Type} : list A -> list A -> Prop :=
| subseq_nil : subseq [] []
| subseq_skip x l1 l2 : subseq l1 l2 -> subseq l1 (x :: l2)
| subseq_take x l1 l2 : subseq l1 l2 -> subseq (x :: l1) (x :: l2).

(** Some post to the address of the rank, with the chat request that
    carries the prompt of [row], was answered 200 with [content]. *)
Definition answered (cfg : config) (srv : server) (row : Row)
           (content : json) : Prop :=
  exists k,
    succeeds_with
      (srv k
           (lit "http://127.0.0.1:"
            ++ str_of_Z (SERVER_BASE_PORT cfg + local_rank cfg)
            ++ lit "/v1/chat/completions")
           (JObj [(lit "model", JStr (lit "gpt-oss-120b"));
                  (lit "messages",
                   JArr [JObj [(lit "role", JStr (lit "user"));
                               (lit "content", JStr (row_prompt row))]]);
                  (lit "max_tokens", JInt (MAX_GENERATION_TOKENS cfg));
                  (lit "temperature", JFloat (lit "0.0"));
                  (lit "top_p", JFloat (lit "1.0"));
                  (lit "n", JInt 1)]))
      content.

(** [rec] is the record of row [i] of the frame: the prompt of the row
    fits the budget, the server answered it with some [content], and the
    record is the six base fields, followed by the six structured fields
    when [content] parses and validates. *)
Definition record_of (cfg : config) (srv : server) (df : list Row) (i : Z)
           (rec : dict) : Prop :=
  exists row content,
    iloc df i = Some row
    /\ py_len (row_prompt row) <= ctx cfg * 4
    /\ answered cfg srv row content
    /\ ((try_parse content = None /\ rec = row_base row i content)
        \/ exists obj fields,
            try_parse content = Some obj
            /\ structured_of obj fields
            /\ rec = row_base row i content ++ fields).

(** The expression of every row is a string or is missing: no cell on
    which [str(... or "")] raises. *)
Definition text_rows (df : list Row) : Prop :=
  Forall (fun row =>
            match row_get_default row (lit "content_resolved") (CellStr []) with
            | CellStr _ | CellNone => True
            | _ => False
            end) df.

(** The opening of a label. *)
Definition label_open : pystr := lit "\label{".

(** [a <= b] on [str]: [b] is not below [a]. *)
Definition str_le (a b : pystr) : Prop := str_ltb b a = false.

(** Every checkpoint file of the directory that can be read holds an
    offset that is not negative. *)
Definition ckpts_nonneg (b : builtins) (d : dst_files) : Prop :=
  forall n, 0 <= read_rank_ckpt b (mkStore None (checkpoints d n)).

(** The keys of every object of the value are distinct. *)
Inductive distinct_keys : json -> Prop :=
| DK_null : distinct_keys JNull
| DK_bool b : distinct_keys (JBool b)
| DK_int z : distinct_keys (JInt z)
| DK_float l : distinct_keys (JFloat l)
| DK_str s : distinct_keys (JStr s)
| DK_arr l : Forall distinct_keys l -> distinct_keys (JArr l)
| DK_obj d :
    NoDup (dict_keys d) -> Forall (fun kv => distinct_keys (snd kv)) d ->
    distinct_keys (JObj d).

(** A value made of strings, lists and objects only, the keys of every
    object distinct. *)
Inductive textual : json -> Prop :=
| T_str s : textual (JStr s)
| T_arr l : Forall textual l -> textual (JArr l)
| T_obj d :
    NoDup (dict_keys d) -> Forall (fun kv => textual (snd kv)) d ->
    textual (JObj d).

(** The text starts with a quote, a bracket or a brace. *)
Definition opens (s : pystr) : Prop :=
  exists c t, s = c :: t
              /\ (c = c_dquote \/ c = c_lbracket \/ c = c_lbrace).

(** The decoder reads the text of the value back, whatever follows it,
    under every bound that is at least the length of that text. *)
Definition reads_back (j : json) : Prop :=
  forall f rest,
    (length (dumps j) <= f)%nat ->
    scan_once f (dumps j ++ rest) = Some (j, rest).

(** The text of one member of an object. *)
Definition member_text (p : pystr * json) : pystr :=
  encode_basestring (fst p) ++ lit ": " ++ dumps (snd p).

(** A string of at least [min] characters; a list of strings, of at most
    [max] items when a maximum is given. *)
Definition is_text (min : Z) (v : json) : Prop :=
  exists s, v = JStr s /\ min <= py_len s.

Definition is_text_list (max : option Z) (v : json) : Prop :=
  exists l, v = JArr (map JStr l)
            /\ match max with Some n => py_len l <= n | None => True end.

(** An object that has the members named, each once and no other, in
    any order, the value of each as stated. *)
Definition object_of (fields : list (pystr * (json -> Prop))) (v : json)
  : Prop :=
  exists d,
    v = JObj d
    /\ Permutation (dict_keys d) (map fst fields)
    /\ Forall (fun fp => exists x, dict_get (fst fp) d = Some x /\ snd fp x)
              fields.

(** The shape of an answer the pipeline accepts. *)
Definition equiv_form_shape : json -> Prop :=
  object_of [(lit "name_of_trafo", is_text 1);
             (lit "assumptions", is_text_list None);
             (lit "latex", is_text 1)].

Definition output_shape : json -> Prop :=
  object_of
    [(lit "input", object_of [(lit "latex_raw", is_text 1)]);
     (lit "analysis",
      object_of [(lit "math_keywords", is_text_list (Some 10));
                 (lit "math_sentence", is_text 1);
                 (lit "katex", is_text 1)]);
     (lit "equivalents",
      object_of [(lit "equiv_form_1", equiv_form_shape);
                 (lit "equiv_form_2", equiv_form_shape)])].

(** The value has distinct keys and the validator accepts it. *)
Definition accepted (sc : schema) (v : json) : Prop :=
  distinct_keys v /\ is_valid sc v = true.

(** The server of the rank answers every post with a 200 that carries a
    content; and the prompt of every row of the frame fits the budget. *)
Definition healthy (cfg : config) (srv : server) : Prop :=
  forall n payload,
    exists content,
      succeeds_with
        (srv n (server_url (SERVER_BASE_PORT cfg) (local_rank cfg)) payload)
        content.

Definition fits (cfg : config) (df : list Row) : Prop :=
  Forall (fun row => py_len (row_prompt row) <= ctx cfg * 4) df.

(** ** More sample inputs *)

(** A server that answers every post with an instance of the schema. *)
Definition helpful_server : server :=
  fun _ _ _ => PostReturns 200 (completion_body valid_output).

(** A server that answers its posts in turn with prose and with 404. *)
Definition moody_server : server :=
  fun n _ _ =>
    if Nat.even n
    then PostReturns 200 (completion_body (lit "I cannot answer."))
    else PostReturns 404 (lit "Not Found").

(** A server whose answers carry one character, a high surrogate
    without its low surrogate, written as JSON writes it. *)
Definition surrogate_server : server :=
  fun _ _ _ =>
    PostReturns 200
      (litq "{'choices': [{'message': {'role': 'assistant', 'content': '\ud800'}}]}").

(** The interpreter and the libraries of the examples, with a
    [to_parquet] that writes every frame. *)
Definition lenient_builtins : builtins :=
  mkBuiltins (int_of_str sample_builtins) (int_of_float sample_builtins)
             (fun _ => None).

(** ** The bound of the decoder *)

Lemma lstrip_by_length f s : (length (lstrip_by f s) <= length s)%nat.
Proof.
  induction s as [|c s IH]; simpl; [lia|]. destruct (f c); simpl; lia.
Qed.

Lemma skip_ws_length s : (length (skip_ws s) <= length s)%nat.
Proof. apply lstrip_by_length. Qed.

Lemma strip_prefix_length p s r :
  strip_prefix p s = Some r -> length s = (length p + length r)%nat.
Proof.
  revert s. induction p as [|x p IH]; intros s; simpl.
  - now intros [= ->].
  - destruct s as [|y s]; [discriminate|].
    destruct (x =? y)%N; [|discriminate].
    intros H. simpl. now rewrite (IH _ H).
Qed.

Lemma cons_char_some c o s r :
  cons_char c o = Some (s, r) -> exists s', o = Some (s', r) /\ s = c :: s'.
Proof.
  destruct o as [[s' r']|]; simpl; [|discriminate]. intros [= <- <-]. eauto.
Qed.

Lemma scanstring_shorter : forall n s str r,
  (length s <= n)%nat -> scanstring s = Some (str, r) ->
  (length r < length s)%nat.
Proof.
  induction n as [|n IH]; intros s str r Hn.
  - destruct s; [discriminate|simpl in Hn; lia].
  - destruct s as [|c s]; [discriminate|]. simpl in Hn.
    assert (Hrec : forall t str' c', (length t <= n)%nat ->
                     cons_char c' (scanstring t) = Some (str', r) ->
                     (length r < length t)%nat).
    { intros t str' c' Ht Hc. apply cons_char_some in Hc.
      destruct Hc as (s' & Hs' & _). exact (IH _ _ _ Ht Hs'). }
    cbn [scanstring].
    destruct (c =? c_dquote)%N; [intros [= <- <-]; simpl; lia|].
    destruct (c =? c_backslash)%N.
    + destruct s as [|e r1]; [discriminate|]. simpl in Hn.
      destruct (e =? 117)%N.
      * destruct r1 as [|h1 [|h2 [|h3 [|h4 r2]]]]; try discriminate.
        simpl in Hn.
        destruct (hex4 h1 h2 h3 h4) as [uni|]; [|discriminate].
        assert (Hplain : cons_char uni (scanstring r2) = Some (str, r) ->
                         (length r < length (c :: e :: h1 :: h2 :: h3 :: h4 :: r2))%nat).
        { intros Hc. apply Hrec in Hc; [simpl; lia|lia]. }
        destruct r2 as [|b [|u [|g1 [|g2 [|g3 [|g4 r3]]]]]]; try exact Hplain.
        destruct (is_high_surrogate uni && (b =? c_backslash)%N && (u =? 117)%N);
          [|exact Hplain].
        destruct (hex4 g1 g2 g3 g4) as [uni2|]; [|discriminate].
        destruct (is_low_surrogate uni2); [|exact Hplain].
        intros Hc. apply Hrec in Hc; simpl in *; lia.
      * repeat match goal with
               | |- context [if ?b then _ else _] => destruct b
               end; try discriminate;
          intros Hc; apply Hrec in Hc; simpl in *; lia.
    + destruct (c <=? 31)%N; [discriminate|].
      intros Hc. apply Hrec in Hc; simpl; lia.
Qed.

Lemma span_digits_length s ds r :
  span_digits s = (ds, r) -> length s = (length ds + length r)%nat.
Proof.
  revert ds r. induction s as [|c s IH]; intros ds r; simpl.
  - now intros [= <- <-].
  - destruct (is_digit c).
    + destruct (span_digits s) as [ds' r'] eqn:E. intros [= <- <-].
      simpl. now rewrite (IH _ _ eq_refl).
    + now intros [= <- <-].
Qed.

Lemma scan_frac_length s fr r :
  scan_frac s = (fr, r) -> (length r <= length s)%nat.
Proof.
  unfold scan_frac. destruct s as [|p s1]; [now intros [= <- <-]|].
  destruct (p =? c_dot)%N; [|now intros [= <- <-]].
  destruct s1 as [|d s2]; [now intros [= <- <-]|].
  destruct (is_digit d); [|now intros [= <- <-]].
  destruct (span_digits (d :: s2)) as [ds r'] eqn:E. intros [= <- <-].
  apply span_digits_length in E. simpl in *. lia.
Qed.

(** Case analysis on the innermost [match] of the goal. *)
Ltac break_match :=
  match goal with
  | |- context [match ?x with _ => _ end] =>
    lazymatch x with
    | context [match _ with _ => _ end] => fail
    | _ => first [ is_var x; destruct x | destruct x eqn:? ]
    end
  end.

Lemma span_digits_digit c s ip r :
  is_digit c = true -> span_digits (c :: s) = (ip, r) ->
  (length r < length (c :: s))%nat.
Proof.
  intros Hd. simpl. rewrite Hd.
  destruct (span_digits s) as [ds r'] eqn:E. intros [= <- <-].
  apply span_digits_length in E. simpl. lia.
Qed.

Ltac length_facts :=
  repeat match goal with
         | Hd : is_digit ?c = true, H : span_digits (?c :: _) = _ |- _ =>
           apply (span_digits_digit _ _ _ _ Hd) in H
         | H : span_digits _ = _ |- _ => apply span_digits_length in H
         | H : scan_frac _ = _ |- _ => apply scan_frac_length in H
         | H : strip_prefix _ _ = Some _ |- _ => apply strip_prefix_length in H
         end.

Lemma scan_exp_length s ex r :
  scan_exp s = (ex, r) -> (length r <= length s)%nat.
Proof.
  unfold scan_exp. repeat break_match; intros [= <- <-];
    length_facts; simpl in *; lia.
Qed.

Lemma match_number_shorter s v r :
  match_number s = Some (v, r) -> (length r < length s)%nat.
Proof.
  unfold match_number. repeat break_match; try discriminate;
    intros [= <- <-];
    repeat match goal with
           | H : (_, _) = (_, _) |- _ => injection H as <- <-
           | H : scan_exp _ = _ |- _ => apply scan_exp_length in H
           end;
    length_facts; simpl in *; lia.
Qed.

Lemma scan_atom_shorter s v r :
  scan_atom s = Some (v, r) -> (length r < length s)%nat.
Proof.
  unfold scan_atom. repeat break_match;
    try (intros H; exact (match_number_shorter _ _ _ H));
    intros [= <- <-]; length_facts; simpl in *; lia.
Qed.

Lemma scan_once_S f s :
  scan_once (S f) s =
  match s with
  | [] => None
  | c :: r =>
    if (c =? c_dquote)%N then
      match scanstring r with
      | Some (str, r') => Some (JStr str, r')
      | None => None
      end
    else if (c =? c_lbrace)%N then
      match skip_ws r with
      | c' :: r' =>
        if (c' =? c_rbrace)%N then Some (JObj [], r')
        else object_loop f [] (c' :: r')
      | [] => None
      end
    else if (c =? c_lbracket)%N then
      match skip_ws r with
      | c' :: r' =>
        if (c' =? c_rbracket)%N then Some (JArr [], r')
        else array_loop f [] (c' :: r')
      | [] => None
      end
    else scan_atom s
  end.
Proof. reflexivity. Qed.

Lemma object_loop_S f acc s :
  object_loop (S f) acc s =
  match s with
  | [] => None
  | q :: r =>
    if (q =? c_dquote)%N then
      match scanstring r with
      | None => None
      | Some (key, r1) =>
        match skip_ws r1 with
        | [] => None
        | c2 :: r2 =>
          if (c2 =? c_colon)%N then
            match scan_once f (skip_ws r2) with
            | None => None
            | Some (v, r3) =>
              match skip_ws r3 with
              | [] => None
              | c4 :: r4 =>
                if (c4 =? c_rbrace)%N then Some (JObj (dict_set key v acc), r4)
                else if (c4 =? c_comma)%N
                then object_loop f (dict_set key v acc) (skip_ws r4)
                else None
              end
            end
          else None
        end
      end
    else None
  end.
Proof. reflexivity. Qed.

Lemma array_loop_S f acc s :
  array_loop (S f) acc s =
  match scan_once f s with
  | None => None
  | Some (v, r1) =>
    match skip_ws r1 with
    | [] => None
    | c :: r2 =>
      if (c =? c_rbracket)%N then Some (JArr (acc ++ [v]), r2)
      else if (c =? c_comma)%N then array_loop f (acc ++ [v]) (skip_ws r2)
      else None
    end
  end.
Proof. reflexivity. Qed.

Lemma decoder_enough g :
  enough scan_once g
  /\ (forall acc, enough (fun f => object_loop f acc) g)
  /\ (forall acc, enough (fun f => array_loop f acc) g).
Proof.
  induction g as [|g (IHscan & IHobj & IHarr)].
  - repeat split; discriminate.
  - assert (Hscan : enough scan_once (S g)).
    { intros s v r H. rewrite scan_once_S in H.
      destruct s as [|c r0]; [discriminate|].
      destruct (c =? c_dquote)%N eqn:E1.
      { destruct (scanstring r0) as [[str r']|] eqn:Es; [|discriminate].
        injection H as <- <-.
        pose proof (scanstring_shorter _ _ _ _ (le_n _) Es) as Hlen.
        split; [cbn [length] in *; lia|]. intros f Hf.
        destruct f as [|f0]; [cbn [length] in *; lia|].
        now rewrite scan_once_S, E1, Es. }
      destruct (c =? c_lbrace)%N eqn:E2.
      { pose proof (skip_ws_length r0) as Hws.
        destruct (skip_ws r0) as [|c' r'] eqn:Ew; [discriminate|].
        destruct (c' =? c_rbrace)%N eqn:E3.
        - injection H as <- <-. split; [cbn [length] in *; lia|]. intros f Hf.
          destruct f as [|f0]; [cbn [length] in *; lia|].
          now rewrite scan_once_S, E1, E2, Ew, E3.
        - destruct (IHobj _ _ _ _ H) as [Hlen Hsuf].
          split; [cbn [length] in *; lia|]. intros f Hf.
          destruct f as [|f0]; [cbn [length] in *; lia|].
          rewrite scan_once_S, E1, E2, Ew, E3. apply Hsuf. cbn [length] in *. lia. }
      destruct (c =? c_lbracket)%N eqn:E3.
      { pose proof (skip_ws_length r0) as Hws.
        destruct (skip_ws r0) as [|c' r'] eqn:Ew; [discriminate|].
        destruct (c' =? c_rbracket)%N eqn:E4.
        - injection H as <- <-. split; [cbn [length] in *; lia|]. intros f Hf.
          destruct f as [|f0]; [cbn [length] in *; lia|].
          now rewrite scan_once_S, E1, E2, E3, Ew, E4.
        - destruct (IHarr _ _ _ _ H) as [Hlen Hsuf].
          split; [cbn [length] in *; lia|]. intros f Hf.
          destruct f as [|f0]; [cbn [length] in *; lia|].
          rewrite scan_once_S, E1, E2, E3, Ew, E4. apply Hsuf.
          cbn [length] in *. lia. }
      pose proof (scan_atom_shorter _ _ _ H) as Hlen.
      split; [exact Hlen|]. intros f Hf.
      destruct f as [|f0]; [lia|].
      now rewrite scan_once_S, E1, E2, E3. }
    split; [exact Hscan|]. split.
    + intros acc s v r H. cbv beta in *. rewrite object_loop_S in H.
      destruct s as [|q r0]; [discriminate|].
      destruct (q =? c_dquote)%N eqn:E1; [|discriminate].
      destruct (scanstring r0) as [[key r1]|] eqn:Es; [|discriminate].
      pose proof (scanstring_shorter _ _ _ _ (le_n _) Es) as Hr1.
      pose proof (skip_ws_length r1) as Hw1.
      destruct (skip_ws r1) as [|c2 r2] eqn:Ew1; [discriminate|].
      destruct (c2 =? c_colon)%N eqn:E2; [|discriminate].
      pose proof (skip_ws_length r2) as Hw2.
      destruct (scan_once g (skip_ws r2)) as [[v0 r3]|] eqn:Ev; [|discriminate].
      destruct (IHscan _ _ _ Ev) as [Hr3 Hsuf3].
      pose proof (skip_ws_length r3) as Hw3.
      destruct (skip_ws r3) as [|c4 r4] eqn:Ew3; [discriminate|].
      destruct (c4 =? c_rbrace)%N eqn:E4.
      * injection H as <- <-. split; [cbn [length] in *; lia|]. intros f Hf.
        destruct f as [|f0]; [cbn [length] in *; lia|].
        rewrite object_loop_S, E1, Es, Ew1, E2.
        rewrite (Hsuf3 f0) by (cbn [length] in *; lia).
        now rewrite Ew3, E4.
      * destruct (c4 =? c_comma)%N eqn:E5; [|discriminate].
        pose proof (skip_ws_length r4) as Hw4.
        destruct (IHobj _ _ _ _ H) as [Hr Hsuf].
        split; [cbn [length] in *; lia|]. intros f Hf.
        destruct f as [|f0]; [cbn [length] in *; lia|].
        rewrite object_loop_S, E1, Es, Ew1, E2.
        rewrite (Hsuf3 f0) by (cbn [length] in *; lia).
        rewrite Ew3, E4, E5. apply Hsuf. cbn [length] in *. lia.
    + intros acc s v r H. cbv beta in *. rewrite array_loop_S in H.
      destruct (scan_once g s) as [[v0 r1]|] eqn:Ev; [|discriminate].
      destruct (IHscan _ _ _ Ev) as [Hr1 Hsuf1].
      pose proof (skip_ws_length r1) as Hw1.
      destruct (skip_ws r1) as [|c r2] eqn:Ew1; [discriminate|].
      destruct (c =? c_rbracket)%N eqn:E1.
      * injection H as <- <-. split; [cbn [length] in *; lia|]. intros f Hf.
        destruct f as [|f0]; [cbn [length] in *; lia|].
        rewrite array_loop_S.
        rewrite (Hsuf1 f0) by (cbn [length] in *; lia).
        now rewrite Ew1, E1.
      * destruct (c =? c_comma)%N eqn:E2; [|discriminate].
        pose proof (skip_ws_length r2) as Hw2.
        destruct (IHarr _ _ _ _ H) as [Hr Hsuf].
        split; [cbn [length] in *; lia|]. intros f Hf.
        destruct f as [|f0]; [cbn [length] in *; lia|].
        rewrite array_loop_S.
        rewrite (Hsuf1 f0) by (cbn [length] in *; lia).
        rewrite Ew1, E1, E2. apply Hsuf. cbn [length] in *. lia.
Qed.

(** The bound that [json_loads] gives its scanner is enough: every
    bound above the length of the text leads to the same result, so the
    scanner of the model never stops for lack of it. This says nothing
    of the recursion limit of the interpreter, which the model leaves
    out. *)
Lemma json_loads_bound s f :
  (length s < f)%nat ->
  match scan_once f (skip_ws s) with
  | Some (v, r) => match skip_ws r with [] => Some v | _ :: _ => None end
  | None => None
  end = json_loads s.
Proof.
  intros Hf. unfold json_loads.
  pose proof (skip_ws_length s) as Hws.
  destruct (scan_once f (skip_ws s)) as [[v r]|] eqn:E1.
  - destruct (proj1 (decoder_enough f) _ _ _ E1) as [_ Hsuf].
    now rewrite (Hsuf (S (length s))) by lia.
  - destruct (scan_once (S (length s)) (skip_ws s)) as [[v r]|] eqn:E2;
      [|reflexivity].
    destruct (proj1 (decoder_enough _) _ _ _ E2) as [_ Hsuf].
    rewrite (Hsuf f) in E1 by lia. discriminate.
Qed.

(** *** Facts about [range] *)

Lemma range_len_nonneg start stop step : 0 <= range_len start stop step.
Proof.
  unfold range_len.
  destruct (0 <? step) eqn:Hs.
  - apply Z.ltb_lt in Hs.
    destruct (start <? stop) eqn:Hlt; [|lia].
    apply Z.ltb_lt in Hlt.
    assert (0 <= (stop - start - 1) / step) by (apply Z.div_pos; lia).
    lia.
  - apply Z.ltb_ge in Hs.
    destruct (stop <? start) eqn:Hlt; [|lia].
    apply Z.ltb_lt in Hlt.
    destruct (Z.eq_dec step 0) as [->|Hne].
    + simpl. rewrite Z.div_0_r. lia.
    + assert (0 <= (start - stop - 1) / (- step)) by (apply Z.div_pos; lia).
      lia.
Qed.

Lemma range_items_In start stop step i :
  0 < step ->
  In i (range_items start stop step) <->
  start <= i < stop /\ (i - start) mod step = 0.
Proof.
  intros Hstep. unfold range_items. rewrite in_map_iff.
  unfold range_len. destruct (0 <? step) eqn:Hs; [|apply Z.ltb_ge in Hs; lia].
  split.
  - intros (k & <- & Hk). apply in_seq in Hk.
    destruct (start <? stop) eqn:Hlt; [|simpl in Hk; lia].
    apply Z.ltb_lt in Hlt.
    assert (Hq : 0 <= (stop - start - 1) / step) by (apply Z.div_pos; lia).
    assert (Hk' : Z.of_nat k <= (stop - start - 1) / step) by lia.
    assert (Hm : step * ((stop - start - 1) / step) <= stop - start - 1)
      by (apply Z.mul_div_le; lia).
    split.
    + nia.
    + replace (start + Z.of_nat k * step - start) with (Z.of_nat k * step) by ring.
      apply Z_mod_mult.
  - intros [[Hlo Hhi] Hmod].
    assert (Hlt : (start <? stop) = true) by (apply Z.ltb_lt; lia).
    rewrite Hlt.
    exists (Z.to_nat ((i - start) / step)).
    assert (Hq : 0 <= (i - start) / step) by (apply Z.div_pos; lia).
    assert (Hi : i - start = step * ((i - start) / step)).
    { pose proof (Z_div_mod_eq_full (i - start) step). lia. }
    split.
    + rewrite Z2Nat.id by lia. lia.
    + apply in_seq. split; [lia|]. simpl.
      assert ((i - start) / step <= (stop - start - 1) / step)
        by (apply Z.div_le_mono; lia).
      assert (0 <= (stop - start - 1) / step) by (apply Z.div_pos; lia).
      lia.
Qed.

Lemma range_items_NoDup start stop step :
  step <> 0 -> NoDup (range_items start stop step).
Proof.
  intros Hstep. unfold range_items.
  apply Injective_map_NoDup_in; [|apply seq_NoDup].
  intros a b _ _ Heq. nia.
Qed.

Lemma range_items_mod start stop step i :
  0 < step -> 0 <= start < step ->
  In i (range_items start stop step) -> i mod step = start.
Proof.
  intros Hstep Hstart Hin.
  apply range_items_In in Hin; [|assumption].
  destruct Hin as [_ Hmod].
  pose proof (Z_div_mod_eq_full (i - start) step) as Hdiv.
  rewrite Hmod in Hdiv.
  symmetry. apply (Z.mod_unique_pos i step ((i - start) / step) start); lia.
Qed.

Lemma my_rows_fresh g W N :
  W <> 0 -> my_rows g 0 W N = Some (range_items g N W).
Proof.
  intros HW. unfold my_rows, py_range.
  destruct (W =? 0) eqn:E; [apply Z.eqb_eq in E; contradiction|].
  rewrite Z.mul_0_l, Z.add_0_r. reflexivity.
Qed.

Lemma NoDup_concat_map {A B : Type} (f : A -> list B) (gs : list A) :
  NoDup gs ->
  (forall g, In g gs -> NoDup (f g)) ->
  (forall g g' x, In g gs -> In g' gs -> In x (f g) -> In x (f g') -> g = g') ->
  NoDup (concat (map f gs)).
Proof.
  induction gs as [|g gs IH]; intros Hnd Hin Hdisj; simpl.
  - constructor.
  - inversion Hnd as [|? ? Hnotin Hnd']; subst.
    apply NoDup_app.
    + apply Hin. now left.
    + apply IH; auto.
      * intros g0 Hg0. apply Hin. now right.
      * intros g1 g2 x H1 H2. apply Hdisj; now right.
    + intros x Hx Hc. apply in_concat in Hc. destruct Hc as (l & Hl & Hxl).
      apply in_map_iff in Hl. destruct Hl as (g' & <- & Hg').
      assert (g = g') by (apply (Hdisj g g' x); auto; [now left|now right]).
      subst. contradiction.
Qed.

Lemma Forall2_map_right {A B : Type} (P : A -> B -> Prop) (f : A -> B) l :
  (forall a, In a l -> P a (f a)) -> Forall2 P l (map f l).
Proof.
  induction l as [|a l IH]; intros H; simpl; constructor.
  - apply H. now left.
  - apply IH. intros a' Ha'. apply H. now right.
Qed.

(** [C3] Coverage. For a batch of [N >= 0] rows and [W >= 1] ranks, the
    shards computed by ranks [0 .. W-1] with resume offset 0 exist, and
    put end to end they are a permutation of the indices [0 .. N-1]: every
    index is owned by exactly one rank, exactly once. *)
Theorem coverage_exactly_once (N W : Z) :
  0 <= N -> 1 <= W ->
  exists shards : list (list Z),
    Forall2 (fun g l => my_rows (Z.of_nat g) 0 W N = Some l)
            (seq 0 (Z.to_nat W)) shards
    /\ Permutation (concat shards) (row_indices N).
Proof.
  intros HN HW.
  exists (map (fun g => range_items (Z.of_nat g) N W) (seq 0 (Z.to_nat W))).
  split.
  - apply Forall2_map_right. intros g _. apply my_rows_fresh. lia.
  - apply NoDup_Permutation.
    + apply NoDup_concat_map.
      * apply seq_NoDup.
      * intros g _. apply range_items_NoDup. lia.
      * intros g g' x Hg Hg' Hx Hx'.
        apply in_seq in Hg, Hg'.
        apply range_items_mod in Hx; [|lia|lia].
        apply range_items_mod in Hx'; [|lia|lia].
        lia.
    + unfold row_indices. apply Injective_map_NoDup_in; [|apply seq_NoDup].
      intros a b _ _ Hab. lia.
    + intros x. unfold row_indices. rewrite in_concat, in_map_iff. split.
      * intros (l & Hl & Hx). apply in_map_iff in Hl.
        destruct Hl as (g & <- & Hg). apply in_seq in Hg.
        apply range_items_In in Hx; [|lia].
        exists (Z.to_nat x). split; [lia|]. apply in_seq. lia.
      * intros (k & <- & Hk). apply in_seq in Hk.
        pose proof (Z.mod_pos_bound (Z.of_nat k) W ltac:(lia)) as Hb.
        exists (range_items (Z.of_nat k mod W) N W). split.
        -- apply in_map_iff. exists (Z.to_nat (Z.of_nat k mod W)). split.
           ++ rewrite Z2Nat.id by lia. reflexivity.
           ++ apply in_seq. lia.
        -- apply range_items_In; [lia|]. split.
           ++ pose proof (Z.mod_le (Z.of_nat k) W ltac:(lia) ltac:(lia)). lia.
           ++ rewrite Zminus_mod_idemp_r, Z.sub_diag. apply Zmod_0_l.
Qed.

Lemma coverage_exactly_once_witness :
  exists shards : list (list Z),
    Forall2 (fun g l => my_rows (Z.of_nat g) 0 3 7 = Some l)
            (seq 0 (Z.to_nat 3)) shards
    /\ Permutation (concat shards) (row_indices 7).
Proof. apply (coverage_exactly_once 7 3); lia. Defined.

(** [C2] The scenario on the code: a batch of 7 rows on 3 ranks shards as
    [0,3,6], [1,4] and [2,5]; recomputing the rows of rank 0 with resume
    offset 1 gives [3,6], so row 3 is assigned again although the specification
    expects [6] alone. *)
Theorem scenario_seven_rows_three_ranks :
  my_rows 0 0 3 7 = Some [0; 3; 6]
  /\ my_rows 1 0 3 7 = Some [1; 4]
  /\ my_rows 2 0 3 7 = Some [2; 5]
  /\ my_rows 0 1 3 7 = Some [3; 6].
Proof. repeat split; reflexivity. Qed.

(** *** Resuming from an offset *)

Lemma range_len_shift g s W N :
  0 < W -> 0 <= s ->
  range_len (g + s * W) N W = Z.max 0 (range_len g N W - s).
Proof.
  intros HW Hs. unfold range_len.
  destruct (0 <? W) eqn:E; [|apply Z.ltb_ge in E; lia].
  destruct (g + s * W <? N) eqn:E1; destruct (g <? N) eqn:E2;
    try apply Z.ltb_lt in E1; try apply Z.ltb_ge in E1;
    try apply Z.ltb_lt in E2; try apply Z.ltb_ge in E2; try nia.
  - replace (N - (g + s * W) - 1) with (N - g - 1 + (- s) * W) by ring.
    rewrite Z.div_add by lia.
    assert (0 <= (N - g - 1 + - s * W) / W) by (apply Z.div_pos; nia).
    rewrite Z.div_add in H by lia. lia.
  - assert ((N - g - 1) / W < s) by (apply Z.div_lt_upper_bound; nia).
    lia.
Qed.

Lemma map_seq_shift {A : Type} (f : nat -> A) n len : forall a,
  map f (seq (a + n) len) = map (fun k => f (k + n)%nat) (seq a len).
Proof.
  induction len as [|len IH]; intros a; simpl; [reflexivity|].
  f_equal. apply (IH (S a)).
Qed.

Lemma range_items_shift g s W N :
  0 < W -> 0 <= s ->
  range_items (g + s * W) N W = skipn (Z.to_nat s) (range_items g N W).
Proof.
  intros HW Hs. unfold range_items.
  rewrite range_len_shift by assumption.
  rewrite skipn_map, skipn_seq.
  pose proof (range_len_nonneg g N W) as Hlen.
  replace (Z.to_nat (Z.max 0 (range_len g N W - s)))
    with (Z.to_nat (range_len g N W) - Z.to_nat s)%nat by lia.
  rewrite (map_seq_shift _ (Z.to_nat s) _ 0%nat).
  apply map_ext. intros k. lia.
Qed.

(** With a resume offset [s >= 0] a rank gets its shard without the first
    [s] rows of it. *)
Lemma my_rows_resume g s W N :
  0 < W -> 0 <= s ->
  my_rows g s W N = Some (skipn (Z.to_nat s) (range_items g N W)).
Proof.
  intros HW Hs. unfold my_rows, py_range.
  destruct (W =? 0) eqn:E; [apply Z.eqb_eq in E; lia|].
  now rewrite range_items_shift.
Qed.

(** Resuming with the length of the whole shard leaves nothing to do. *)
Lemma my_rows_after_full_run g W N :
  0 < W ->
  my_rows g (py_len (range_items g N W)) W N = Some [].
Proof.
  intros HW. rewrite my_rows_resume; [|assumption|unfold py_len; lia].
  unfold py_len. rewrite Nat2Z.id. now rewrite skipn_all.
Qed.

Lemma my_rows_in_frame g s W N l i :
  0 < W -> 0 <= g -> 0 <= s ->
  my_rows g s W N = Some l -> In i l -> 0 <= i < N.
Proof.
  intros HW Hg Hs. unfold my_rows, py_range.
  destruct (W =? 0); [discriminate|]. intros [= <-] Hi.
  apply range_items_In in Hi; [|assumption]. nia.
Qed.

(** ** Retries of [llama_server_infer] *)

Lemma loading_model_body_in text :
  loading_model_body text ->
  py_in (lit "Loading model") (loading_msg text) = Ok true.
Proof.
  intros (data & error & m & Hl & He & Hm & Hc).
  unfold loading_msg. rewrite Hl, He, Hm. simpl. now rewrite Hc.
Qed.

Section InferFacts.

Variable srv : server.
Variable url : pystr.
Variable payload : json.

Lemma infer_loop_transient n attempt w :
  transient (srv (posts w) url payload) ->
  attempt <> max_attempts ->
  infer_loop srv url payload (S n) attempt w
  = infer_loop srv url payload n (attempt + 1) (io_sleep (io_post w)).
Proof.
  intros Ht Hne. simpl.
  apply Z.eqb_neq in Hne.
  destruct (srv (posts w) url payload) as [e|status_code text].
  - now rewrite Hne.
  - destruct Ht as [-> Hbody]. simpl.
    rewrite (loading_model_body_in _ Hbody). now rewrite Hne.
Qed.

Lemma infer_loop_success n attempt w content :
  succeeds_with (srv (posts w) url payload) content ->
  infer_loop srv url payload (S n) attempt w = (Ok content, io_post w).
Proof.
  intros (text & data & Hr & Hl & Hc). simpl.
  rewrite Hr. simpl. now rewrite Hl, Hc.
Qed.

Lemma infer_loop_last_transient n w :
  transient (srv (posts w) url payload) ->
  exists e,
    infer_loop srv url payload (S n) max_attempts w
    = (Raise (RuntimeError e), io_post w)
    /\ ((exists cause, e = HttpRetriesExhausted url max_attempts cause)
        \/ e = LoadingModelStuck url max_attempts).
Proof.
  intros Ht. simpl.
  destruct (srv (posts w) url payload) as [cause|status_code text].
  - eexists. split; [reflexivity|]. left. now exists cause.
  - destruct Ht as [-> Hbody]. simpl.
    rewrite (loading_model_body_in _ Hbody).
    eexists. split; [reflexivity|]. now right.
Qed.

(** [k] transient attempts, then a success, with room for both. *)
Lemma infer_loop_retries k : forall n attempt w content,
  (k < n)%nat ->
  attempt + Z.of_nat n = max_attempts + 1 ->
  (forall i, (i < k)%nat -> transient (srv (posts w + i)%nat url payload)) ->
  succeeds_with (srv (posts w + k)%nat url payload) content ->
  infer_loop srv url payload n attempt w
  = (Ok content, mkIo (posts w + k + 1) (sleeps w + k)).
Proof.
  induction k as [|k IH]; intros n attempt w content Hk Hn Htr Hok.
  - destruct n as [|n]; [lia|].
    rewrite Nat.add_0_r in Hok.
    rewrite (infer_loop_success _ _ _ _ Hok).
    unfold io_post. f_equal. f_equal; lia.
  - destruct n as [|n]; [lia|].
    rewrite infer_loop_transient.
    + rewrite (IH n (attempt + 1) (io_sleep (io_post w)) content).
      * simpl. f_equal. f_equal; lia.
      * lia.
      * lia.
      * intros i Hi. simpl.
        replace (S (posts w + i)) with (posts w + S i)%nat by lia.
        apply Htr. lia.
      * simpl. replace (S (posts w + k)) with (posts w + S k)%nat by lia.
        exact Hok.
    + specialize (Htr O ltac:(lia)). now rewrite Nat.add_0_r in Htr.
    + lia.
Qed.

(** Transient conditions on every attempt that is left. *)
Lemma infer_loop_exhausted n : forall attempt w,
  attempt + Z.of_nat (S n) = max_attempts + 1 ->
  (forall i, (i <= n)%nat -> transient (srv (posts w + i)%nat url payload)) ->
  exists e,
    infer_loop srv url payload (S n) attempt w
    = (Raise (RuntimeError e), mkIo (posts w + n + 1) (sleeps w + n))
    /\ ((exists cause, e = HttpRetriesExhausted url max_attempts cause)
        \/ e = LoadingModelStuck url max_attempts).
Proof.
  induction n as [|n IH]; intros attempt w Hn Htr.
  - assert (attempt = max_attempts) as -> by lia.
    destruct (infer_loop_last_transient O w) as (e & He & Hkind).
    { specialize (Htr O ltac:(lia)). now rewrite Nat.add_0_r in Htr. }
    exists e. split; [|exact Hkind].
    rewrite He. unfold io_post. f_equal. f_equal; lia.
  - rewrite infer_loop_transient.
    + destruct (IH (attempt + 1) (io_sleep (io_post w))) as (e & He & Hkind).
      * lia.
      * intros i Hi. simpl.
        replace (S (posts w + i)) with (posts w + S i)%nat by lia.
        apply Htr. lia.
      * exists e. split; [|exact Hkind].
        rewrite He. simpl. f_equal. f_equal; lia.
    + specialize (Htr O ltac:(lia)). now rewrite Nat.add_0_r in Htr.
    + lia.
Qed.

End InferFacts.

(** [C5] Retry bound. On any prompt: if the first [k < 60] posts of the
    call meet a transient condition and the next one succeeds, the call
    returns the content of that answer after [k + 1] posts and [k] sleeps;
    if all 60 posts meet a transient condition, the call raises a
    [RuntimeError] that names the url and the 60 attempts, after 60 posts
    and 59 sleeps. *)
Theorem retry_bound (srv : server) (SERVER_BASE_PORT local_rank : Z)
        (prompt : pystr) (max_tokens : Z) (w : io) :
  let url := server_url SERVER_BASE_PORT local_rank in
  let payload := request_payload prompt max_tokens in
  (forall k content,
      (k < 60)%nat ->
      (forall i, (i < k)%nat -> transient (srv (posts w + i)%nat url payload)) ->
      succeeds_with (srv (posts w + k)%nat url payload) content ->
      llama_server_infer srv SERVER_BASE_PORT local_rank prompt max_tokens w
      = (Ok content, mkIo (posts w + k + 1) (sleeps w + k)))
  /\ ((forall i, (i < 60)%nat -> transient (srv (posts w + i)%nat url payload)) ->
      exists e,
        llama_server_infer srv SERVER_BASE_PORT local_rank prompt max_tokens w
        = (Raise (RuntimeError e), mkIo (posts w + 60) (sleeps w + 59))
        /\ ((exists cause, e = HttpRetriesExhausted url 60 cause)
            \/ e = LoadingModelStuck url 60)).
Proof.
  cbv zeta. split.
  - intros k content Hk Htr Hok. unfold llama_server_infer.
    apply infer_loop_retries; auto.
  - intros Htr. unfold llama_server_infer.
    change (Z.to_nat max_attempts) with 60%nat.
    destruct (infer_loop_exhausted srv (server_url SERVER_BASE_PORT local_rank)
                (request_payload prompt max_tokens) 59 1 w)
      as (e & He & Hkind).
    + reflexivity.
    + intros i Hi. apply Htr. lia.
    + exists e. split; [|exact Hkind].
      rewrite He. f_equal. f_equal; lia.
Qed.

Lemma loading_body_is_loading : loading_model_body loading_body.
Proof.
  pose (error := [(lit "code", JInt 503);
                   (lit "message", JStr (lit "Loading model"));
                   (lit "type", JStr (lit "unavailable_error"))]).
  exists [(lit "error", JObj error)], error, (lit "Loading model").
  repeat split; vm_compute; reflexivity.
Qed.

Lemma retry_bound_witness :
  llama_server_infer warming_server 18080 3 (lit "x") 500 (mkIo 0 0)
  = (Ok (JStr (lit "ready")), mkIo 3 2)
  /\ exists e,
       llama_server_infer dead_server 18080 3 (lit "x") 500 (mkIo 0 0)
       = (Raise (RuntimeError e), mkIo 60 59)
       /\ ((exists cause,
              e = HttpRetriesExhausted (server_url 18080 3) 60 cause)
           \/ e = LoadingModelStuck (server_url 18080 3) 60).
Proof.
  split.
  - apply (proj1 (retry_bound warming_server 18080 3 (lit "x") 500 (mkIo 0 0))
                 2%nat (JStr (lit "ready"))).
    + lia.
    + intros i Hi. destruct i as [|[|i]]; simpl.
      * exact I.
      * split; [reflexivity|exact loading_body_is_loading].
      * lia.
    + exists (completion_body (lit "ready")).
      eexists. repeat split; vm_compute; reflexivity.
  - apply (proj2 (retry_bound dead_server 18080 3 (lit "x") 500 (mkIo 0 0))).
    intros i Hi. exact I.
Defined.

(** What one answer does to the loop, when a 503 body that is a JSON
    object with an [error.message] has a string there. *)
Lemma answer_classification (srv : server) (url : pystr) (payload : json)
      (n : nat) (attempt : Z) (w : io) (status_code : Z) (text : pystr) :
  srv (posts w) url payload = PostReturns status_code text ->
  (forall data content,
      status_code = 200 -> json_loads text = Some data ->
      response_content data = Some content ->
      infer_loop srv url payload (S n) attempt w = (Ok content, io_post w))
  /\ (status_code = 503 -> loading_model_body text -> attempt <> max_attempts ->
      infer_loop srv url payload (S n) attempt w
      = infer_loop srv url payload n (attempt + 1) (io_sleep (io_post w)))
  /\ (status_code <> 200 ->
      (status_code = 503 ->
       exists m, loading_msg text = JStr m
                 /\ str_contains (lit "Loading model") m = false) ->
      infer_loop srv url payload (S n) attempt w
      = (Raise (RuntimeError
                  (HttpStatusError status_code
                     match json_loads text with
                     | Some err => inl err
                     | None => inr text
                     end)), io_post w)).
Proof.
  intros Hr. repeat split.
  - intros data content -> Hl Hc.
    apply infer_loop_success. exists text, data. auto.
  - intros -> Hbody Hne.
    apply infer_loop_transient; [|assumption].
    rewrite Hr. split; [reflexivity|assumption].
  - intros Hne Hmsg. simpl. rewrite Hr.
    destruct (status_code =? 503) eqn:E503.
    + apply Z.eqb_eq in E503. destruct (Hmsg E503) as (m & -> & Hc).
      simpl. rewrite Hc.
      apply Z.eqb_neq in Hne. now rewrite Hne.
    + apply Z.eqb_neq in Hne. now rewrite Hne.
Qed.

(** [C6] A 503 answer whose [error.message] is a number: the test
    ["Loading model" in msg] raises [TypeError] outside the [try], so the
    call ends at once with an error that carries neither the status nor
    the body of the answer, where the specification expects the fatal error with
    the diagnostic payload. *)
Theorem odd_503_raises_type_error (prompt : pystr) (max_tokens : Z) (w : io) :
  llama_server_infer odd_server 18080 0 prompt max_tokens w
  = (Raise TypeError, io_post w).
Proof. reflexivity. Qed.

(** ** [parse_strict_json] *)

(** [C7] A text that ends in a valid instance of the schema, after a
    sentence with braces of its own: the search starts at the first
    opening brace of the text, [json.loads] is given the sentence from
    there on together with the instance and raises, where the specification
    expects the instance to be returned. The instance alone is
    accepted. *)
Theorem earlier_brace_defeats_parse :
  (exists obj, parse_strict_json valid_output = Ok obj
               /\ is_valid PURE_MATH_JSON_SCHEMA obj = true)
  /\ search_final_object chatty_valid_output
     = Some (lit "{1, 2}: " ++ valid_output)
  /\ parse_strict_json chatty_valid_output = Raise JSONDecodeError.
Proof.
  split; [|split].
  - eexists. split; vm_compute; reflexivity.
  - vm_compute. reflexivity.
  - vm_compute. reflexivity.
Qed.

(** *** The search for the final object *)

Lemma lstrip_by_split f s :
  exists ws, s = ws ++ lstrip_by f s /\ Forall (fun c => f c = true) ws.
Proof.
  induction s as [|c s IH]; simpl.
  - exists []. split; [reflexivity|constructor].
  - destruct (f c) eqn:E.
    + destruct IH as (ws & Hs & Hws). exists (c :: ws). split.
      * simpl. now rewrite <- Hs.
      * now constructor.
    + exists []. split; [reflexivity|constructor].
Qed.

Lemma lstrip_by_app f ws s :
  Forall (fun c => f c = true) ws -> lstrip_by f (ws ++ s) = lstrip_by f s.
Proof.
  induction 1 as [|c ws Hc _ IH]; simpl; [reflexivity|]. now rewrite Hc.
Qed.

Lemma from_first_lbrace_split s m :
  from_first_lbrace s = Some m ->
  exists pre t, s = pre ++ m /\ m = c_lbrace :: t
                /\ Forall (fun c => c <> c_lbrace) pre.
Proof.
  induction s as [|c s IH]; simpl; [discriminate|].
  destruct (c =? c_lbrace)%N eqn:E.
  - intros [= <-]. apply N.eqb_eq in E. subst c.
    exists [], s. repeat split. constructor.
  - intros Hm. destruct (IH Hm) as (pre & t & -> & -> & Hpre).
    exists (c :: pre), t. repeat split.
    constructor; [|assumption]. now apply N.eqb_neq.
Qed.

Lemma from_first_lbrace_plain pre m :
  Forall (fun c => c <> c_lbrace) pre ->
  from_first_lbrace (pre ++ m) = from_first_lbrace m.
Proof.
  induction 1 as [|c pre Hc _ IH]; simpl; [reflexivity|].
  apply N.eqb_neq in Hc. now rewrite Hc.
Qed.

Lemma from_first_lbrace_some pre t :
  exists t', from_first_lbrace (pre ++ c_lbrace :: t) = Some (c_lbrace :: t')
             /\ exists mid, t' = mid ++ t.
Proof.
  induction pre as [|c pre IH]; simpl.
  - exists t. split; [reflexivity|]. now exists [].
  - destruct (c =? c_lbrace)%N eqn:E.
    + apply N.eqb_eq in E. subst c. exists (pre ++ c_lbrace :: t). split.
      * reflexivity.
      * exists (pre ++ [c_lbrace]). now rewrite <- app_assoc.
    + exact IH.
Qed.

Lemma ends_with_rbrace_app mid body ws :
  Forall (fun c => is_space c = true) ws ->
  ends_with_rbrace (mid ++ body ++ c_rbrace :: ws) = true.
Proof.
  intros Hws. unfold ends_with_rbrace.
  rewrite app_assoc, rev_app_distr. simpl rev. rewrite <- app_assoc.
  rewrite lstrip_by_app.
  - reflexivity.
  - apply Forall_rev. exact Hws.
Qed.

Lemma ends_with_rbrace_split t :
  ends_with_rbrace t = true ->
  exists body ws, t = body ++ c_rbrace :: ws
                  /\ Forall (fun c => is_space c = true) ws.
Proof.
  unfold ends_with_rbrace. intros H.
  destruct (lstrip_by_split is_space (rev t)) as (ws & Hrev & Hws).
  destruct (lstrip_by is_space (rev t)) as [|c r]; [discriminate|].
  apply N.eqb_eq in H. subst c.
  exists (rev r), (rev ws). split.
  - rewrite <- (rev_involutive t), Hrev, rev_app_distr. simpl.
    now rewrite <- app_assoc.
  - apply Forall_rev. exact Hws.
Qed.

(** The search finds a match exactly on the texts that hold a final
    object. *)
Lemma search_final_object_spec s :
  has_final_object s <-> exists m, search_final_object s = Some m.
Proof.
  unfold search_final_object. split.
  - intros (pre & body & ws & -> & Hws).
    destruct (from_first_lbrace_some pre (body ++ c_rbrace :: ws))
      as (t' & -> & mid & ->).
    rewrite ends_with_rbrace_app by assumption. eauto.
  - intros (m & Hm).
    destruct (from_first_lbrace s) as [[|c t]|] eqn:E; try discriminate.
    destruct (ends_with_rbrace t) eqn:Ee; [|discriminate].
    destruct (from_first_lbrace_split _ _ E) as (pre & t0 & -> & [= -> <-] & _).
    destruct (ends_with_rbrace_split _ Ee) as (body & ws & -> & Hws).
    exists pre, body, ws. now split.
Qed.

(** A text without final object: the error is the one of the search. *)
Lemma no_object_no_json_found s :
  ~ has_final_object s -> parse_strict_json s = Raise no_json_found.
Proof.
  intros Hno. unfold parse_strict_json.
  destruct (search_final_object s) as [m|] eqn:E; [|reflexivity].
  exfalso. apply Hno. apply search_final_object_spec. eauto.
Qed.

(** *** Keys missing and keys in excess *)

Lemma dict_has_get k d : dict_has k d = true <-> exists v, dict_get k d = Some v.
Proof.
  unfold dict_has. destruct (dict_get k d); split; eauto; try discriminate.
  now intros (v & ?).
Qed.

Lemma key_violation_invalid sc j : key_violation sc j -> is_valid sc j = false.
Proof.
  induction 1 as [req ap props d k Hk Hget
                 | req props d k Hk Hhas
                 | req ap props d k s v Hin Hget _ IH]; simpl.
  - replace (forallb (fun k0 => dict_has k0 d) req) with false; [reflexivity|].
    symmetry. apply not_true_is_false. intros Hall.
    rewrite forallb_forall in Hall. specialize (Hall k Hk).
    apply dict_has_get in Hall. destruct Hall as (v & Hv). congruence.
  - replace (forallb (fun k0 => schema_has k0 props) (dict_keys d)) with false.
    + now rewrite andb_false_r.
    + symmetry. apply not_true_is_false. intros Hall.
      rewrite forallb_forall in Hall. specialize (Hall k Hk). congruence.
  - match goal with
    | |- _ && forallb ?f props = false => replace (forallb f props) with false
    end.
    + now rewrite andb_false_r.
    + symmetry. apply not_true_is_false. intros Hall.
      rewrite forallb_forall in Hall. specialize (Hall (k, s) Hin).
      simpl in Hall. rewrite Hget in Hall. congruence.
Qed.

(** An object is found and decoded, and a key is missing or in excess at
    some level: the error is the one of the validator. *)
Lemma key_violation_rejected s m obj :
  search_final_object s = Some m ->
  json_loads m = Some obj ->
  key_violation PURE_MATH_JSON_SCHEMA obj ->
  parse_strict_json s = Raise ValidationError.
Proof.
  intros Hs Hl Hv. unfold parse_strict_json, validate.
  now rewrite Hs, Hl, (key_violation_invalid _ _ Hv).
Qed.

(** *** Accepted texts *)

(** A valid instance written after a prefix without opening brace, and
    followed by whitespace at most, is returned as decoded. *)
Lemma parse_after_plain_prefix pre t obj :
  Forall (fun c => c <> c_lbrace) pre ->
  ends_with_rbrace t = true ->
  json_loads (c_lbrace :: t) = Some obj ->
  is_valid PURE_MATH_JSON_SCHEMA obj = true ->
  parse_strict_json (pre ++ c_lbrace :: t) = Ok obj.
Proof.
  intros Hpre Hend Hl Hv. unfold parse_strict_json, search_final_object.
  rewrite from_first_lbrace_plain by assumption.
  change (from_first_lbrace (c_lbrace :: t)) with (Some (c_lbrace :: t)).
  cbv beta iota. rewrite Hend, Hl. unfold validate. now rewrite Hv.
Qed.

Lemma is_valid_object_inv req ap props d :
  is_valid (SObject req ap props) (JObj d) = true ->
  (forall k, In k req -> exists v, dict_get k d = Some v)
  /\ (forall k s v, In (k, s) props -> dict_get k d = Some v ->
                    is_valid s v = true).
Proof.
  simpl. intros H.
  apply andb_prop in H. destruct H as [H Hprops].
  apply andb_prop in H. destruct H as [Hreq _].
  rewrite forallb_forall in Hreq, Hprops. split.
  - intros k Hk. apply dict_has_get. now apply Hreq.
  - intros k s v Hin Hget. specialize (Hprops (k, s) Hin).
    simpl in Hprops. now rewrite Hget in Hprops.
Qed.

Lemma is_valid_object_shape req ap props j :
  is_valid (SObject req ap props) j = true -> exists d, j = JObj d.
Proof. destruct j; try discriminate. eauto. Qed.

(** What [parse_strict_json] returns validates, and holds every required
    key. *)
Lemma parse_ok_valid s obj :
  parse_strict_json s = Ok obj -> is_valid PURE_MATH_JSON_SCHEMA obj = true.
Proof.
  unfold parse_strict_json, validate.
  destruct (search_final_object s); [|discriminate].
  destruct (json_loads p); [|discriminate].
  destruct (is_valid PURE_MATH_JSON_SCHEMA j) eqn:E; [|discriminate].
  now intros [= <-].
Qed.

Lemma valid_equiv_form e :
  is_valid equiv_form_schema e = true ->
  (exists v, getitem_key e (lit "name_of_trafo") = Some v)
  /\ (exists v, getitem_key e (lit "assumptions") = Some v)
  /\ (exists v, getitem_key e (lit "latex") = Some v).
Proof.
  intros H. destruct (is_valid_object_shape _ _ _ _ H) as (d & ->).
  apply is_valid_object_inv in H. destruct H as [Hreq _]. simpl.
  repeat split; apply Hreq; simpl; tauto.
Qed.

Lemma valid_has_required_keys obj :
  is_valid PURE_MATH_JSON_SCHEMA obj = true -> has_required_keys obj.
Proof.
  intros H. destruct (is_valid_object_shape _ _ _ _ H) as (d & ->).
  apply is_valid_object_inv in H. destruct H as [Hreq Hprops].
  destruct (Hreq (lit "input")) as (input & Hinput); [simpl; tauto|].
  destruct (Hreq (lit "analysis")) as (analysis & Hanalysis); [simpl; tauto|].
  destruct (Hreq (lit "equivalents")) as (equivs & Hequivs); [simpl; tauto|].
  pose proof (Hprops _ _ _ (or_introl eq_refl) Hinput) as Vinput.
  pose proof (Hprops _ _ _ (or_intror (or_introl eq_refl)) Hanalysis) as Vana.
  pose proof (Hprops _ _ _ (or_intror (or_intror (or_introl eq_refl))) Hequivs)
    as Vequivs.
  destruct (is_valid_object_shape _ _ _ _ Vinput) as (di & ->).
  destruct (is_valid_object_shape _ _ _ _ Vana) as (da & ->).
  destruct (is_valid_object_shape _ _ _ _ Vequivs) as (de & ->).
  apply is_valid_object_inv in Vinput, Vana, Vequivs.
  destruct Vinput as [Rinput _], Vana as [Rana _], Vequivs as [Requivs Pequivs].
  destruct (Requivs (lit "equiv_form_1")) as (e1 & He1); [simpl; tauto|].
  destruct (Requivs (lit "equiv_form_2")) as (e2 & He2); [simpl; tauto|].
  pose proof (Pequivs _ _ _ (or_introl eq_refl) He1) as Ve1.
  pose proof (Pequivs _ _ _ (or_intror (or_introl eq_refl)) He2) as Ve2.
  exists (JObj di), (JObj da), (JObj de), e1, e2. simpl.
  repeat split; try assumption;
    try (apply Rinput; simpl; tauto); try (apply Rana; simpl; tauto).
  all: destruct H as [-> | ->];
    first [ apply (valid_equiv_form _ Ve1) | apply (valid_equiv_form _ Ve2) ].
Qed.

Lemma getitem_of_key j k v : getitem_key j k = Some v -> getitem j k = Ok v.
Proof. destruct j; simpl; try discriminate. now intros ->. Qed.

(** On an object that holds every required key, [rec.update] gets its six
    fields without a [KeyError]. *)
Lemma structured_fields_ok obj :
  has_required_keys obj -> exists fields, structured_fields obj = Ok fields.
Proof.
  intros (input & analysis & equivs & e1 & e2 & _ & Ha & He & _
          & (kw & Hkw) & (ms & Hms) & (kx & Hkx) & He1 & He2 & _).
  unfold structured_fields.
  rewrite (getitem_of_key _ _ _ Ha), (getitem_of_key _ _ _ He),
          (getitem_of_key _ _ _ Hkw), (getitem_of_key _ _ _ Hms),
          (getitem_of_key _ _ _ Hkx), (getitem_of_key _ _ _ He1),
          (getitem_of_key _ _ _ He2).
  eauto.
Qed.

Lemma try_parse_valid content obj :
  try_parse content = Some obj -> is_valid PURE_MATH_JSON_SCHEMA obj = true.
Proof.
  unfold try_parse. destruct content; try discriminate.
  destruct (parse_strict_json s) eqn:E; [|discriminate].
  intros [= <-]. exact (parse_ok_valid _ _ E).
Qed.

(** ** Decimal numerals *)

Lemma nzhead_head d :
  Decimal.nzhead d = Decimal.Nil \/ nonzero_head (Decimal.nzhead d).
Proof. induction d; simpl; auto. Qed.

Lemma pos_to_uint_head p : nonzero_head (Pos.to_uint p).
Proof.
  assert (H : Decimal.unorm (Pos.to_uint p) = Pos.to_uint p).
  { rewrite <- DecimalPos.Unsigned.to_of, DecimalPos.Unsigned.of_to.
    reflexivity. }
  pose proof (DecimalPos.Unsigned.to_uint_nonzero p) as Hnz.
  unfold Decimal.unorm in H.
  destruct (nzhead_head (Pos.to_uint p)) as [Hnil|Hhead].
  - rewrite Hnil in H. congruence.
  - destruct (Decimal.nzhead (Pos.to_uint p)); simpl in Hhead;
      try contradiction; rewrite <- H; exact I.
Qed.

Lemma span_digits_non_digit rest :
  not_digit_head rest -> span_digits rest = ([], rest).
Proof. destruct rest as [|c r]; simpl; [reflexivity|]. now intros ->. Qed.

Lemma span_digits_uint u rest :
  not_digit_head rest ->
  span_digits (uint_chars u ++ rest) = (uint_chars u, rest).
Proof.
  intros Hrest.
  induction u; simpl;
    [now apply span_digits_non_digit | rewrite IHu; reflexivity ..].
Qed.

Lemma scan_digits_uint u : scan_digits (uint_chars u) = (u, []).
Proof. induction u; simpl; [reflexivity | rewrite IHu; reflexivity ..]. Qed.

(** A numeral without leading zero, before a closing brace, is read back
    as a whole. *)
Lemma match_number_uint (neg : bool) u r :
  nonzero_head u ->
  match_number ((if neg then [c_minus] else []) ++ uint_chars u ++ c_rbrace :: r)
  = Some (JInt (Z.of_int (if neg then Decimal.Neg u else Decimal.Pos u)),
          c_rbrace :: r).
Proof.
  intros Hu.
  assert (Hspan : span_digits (uint_chars u ++ c_rbrace :: r)
                  = (uint_chars u, c_rbrace :: r))
    by (apply span_digits_uint; reflexivity).
  pose proof (scan_digits_uint u) as Hscan.
  destruct u; simpl in Hu; try contradiction; clear Hu;
    destruct neg; unfold match_number;
    cbn [app uint_chars N.eqb Pos.eqb c_minus c_zero is_digit c_nine
         N.leb N.compare Pos.compare Pos.compare_cont andb];
    cbn [app uint_chars] in Hspan; rewrite Hspan;
    cbn [scan_frac scan_exp c_rbrace c_dot N.eqb Pos.eqb andb orb];
    cbn [uint_chars] in Hscan; rewrite Hscan; reflexivity.
Qed.

Lemma scan_atom_int z r :
  scan_atom (str_of_Z z ++ c_rbrace :: r) = Some (JInt z, c_rbrace :: r).
Proof.
  rewrite <- (DecimalZ.of_to z) at 2.
  unfold str_of_Z. destruct z as [|p|p]; simpl Z.to_int.
  - reflexivity.
  - pose proof (pos_to_uint_head p) as Hh.
    rewrite <- (match_number_uint false _ r Hh).
    destruct (Pos.to_uint p); simpl in Hh; try contradiction; reflexivity.
  - pose proof (pos_to_uint_head p) as Hh.
    rewrite <- (match_number_uint true _ r Hh).
    destruct (Pos.to_uint p); simpl in Hh; try contradiction; reflexivity.
Qed.

(** ** Reading a checkpoint back *)

Lemma str_of_Z_head z :
  exists c cs, str_of_Z z = c :: cs
               /\ is_json_ws c = false
               /\ (c =? c_dquote)%N = false
               /\ (c =? c_lbrace)%N = false
               /\ (c =? c_lbracket)%N = false.
Proof.
  unfold str_of_Z. destruct z as [|p|p]; simpl Z.to_int.
  - do 2 eexists. split; [reflexivity|]. repeat split.
  - pose proof (pos_to_uint_head p) as Hh.
    destruct (Pos.to_uint p); simpl in Hh; try contradiction;
      do 2 eexists; (split; [reflexivity|]); repeat split.
  - do 2 eexists. split; [reflexivity|]. repeat split.
Qed.

Lemma skip_ws_int z r : skip_ws (str_of_Z z ++ r) = str_of_Z z ++ r.
Proof.
  destruct (str_of_Z_head z) as (c & cs & Hz & Hws & _).
  rewrite Hz. unfold skip_ws. simpl. now rewrite Hws.
Qed.

Lemma scan_once_int f z r :
  scan_once (S f) (str_of_Z z ++ c_rbrace :: r) = Some (JInt z, c_rbrace :: r).
Proof.
  rewrite <- (scan_atom_int z r).
  destruct (str_of_Z_head z) as (c & cs & Hz & _ & H1 & H2 & H3).
  rewrite Hz. simpl. now rewrite H1, H2, H3.
Qed.

(** The text [{"key": z}] decodes to the one-member object it encodes;
    [head] is that text up to the number. *)
Ltac ckpt_round_trip head z :=
  match goal with
  | |- json_loads ?text = _ =>
    change text with (head ++ str_of_Z z ++ [c_rbrace]); unfold json_loads;
    let g := fresh "g" in
    let fuel := fresh "fuel" in
    let T := fresh "T" in
    assert (exists g, S (length (head ++ str_of_Z z ++ [c_rbrace])) = S (S (S g)))
      as (g & ->) by (simpl length; eexists; reflexivity);
    remember (S g) as fuel;
    remember (str_of_Z z ++ [c_rbrace]) as T;
    simpl;
    change (skip_ws (32%N :: T)) with (skip_ws T);
    subst fuel T; rewrite skip_ws_int, scan_once_int; reflexivity
  end.

Lemma json_loads_row_offset z :
  json_loads (ckpt_text (lit "row_offset") z)
  = Some (JObj [(lit "row_offset", JInt z)]).
Proof. ckpt_round_trip (litq "{'row_offset': ") z. Qed.

Lemma json_loads_row_index z :
  json_loads (ckpt_text (lit "row_index") z)
  = Some (JObj [(lit "row_index", JInt z)]).
Proof. ckpt_round_trip (litq "{'row_index': ") z. Qed.

Lemma ckpt_offset_row_offset b z :
  ckpt_offset b (lit "row_offset") (ckpt_text (lit "row_offset") z) = Some z.
Proof. unfold ckpt_offset. now rewrite json_loads_row_offset. Qed.

Lemma ckpt_offset_row_index b z :
  ckpt_offset b (lit "row_index") (ckpt_text (lit "row_index") z) = Some z.
Proof. unfold ckpt_offset. now rewrite json_loads_row_index. Qed.

Lemma ckpt_offset_corrupt b key text :
  corrupt_ckpt key text ->
  match ckpt_offset b key text with Some z => z | None => 0 end = 0.
Proof.
  unfold ckpt_offset.
  intros [Hl | [(v & Hl & Hv) | [(d & Hl & Hg) | (d & v & Hl & Hg & Hv)]]];
    rewrite Hl.
  - reflexivity.
  - destruct v; try reflexivity. now destruct (Hv members).
  - now rewrite Hg.
  - rewrite Hg. destruct Hv as [-> | [(l & ->) | (m & ->)]]; reflexivity.
Qed.

(** [C9] Checkpoint read recovery. The resume offset read at the start of
    [process_file_row_sharded] and [read_checkpoint] of [helpers.py] are 0
    when the checkpoint file is absent and 0 when its contents are
    unparseable or corrupt; on the file the matching write left, each
    returns the offset that was written. *)
Theorem checkpoint_read_recovery (b : builtins) :
  (forall out, read_rank_ckpt b (mkStore out None) = 0)
  /\ read_checkpoint b None = 0
  /\ (forall out text,
         corrupt_ckpt (lit "row_offset") text ->
         read_rank_ckpt b (mkStore out (Some text)) = 0)
  /\ (forall text,
         corrupt_ckpt (lit "row_index") text ->
         read_checkpoint b (Some text) = 0)
  /\ (forall s offset, read_rank_ckpt b (_write_rank_ckpt offset s) = offset)
  /\ (forall idx, read_checkpoint b (write_checkpoint idx) = idx).
Proof.
  repeat split.
  - intros out text Hc. unfold read_rank_ckpt. cbn [ckpt_file].
    exact (ckpt_offset_corrupt b _ _ Hc).
  - intros text Hc. unfold read_checkpoint.
    exact (ckpt_offset_corrupt b _ _ Hc).
  - intros s offset. unfold read_rank_ckpt, _write_rank_ckpt.
    cbn [ckpt_file]. now rewrite ckpt_offset_row_offset.
  - intros idx. unfold read_checkpoint, write_checkpoint.
    now rewrite ckpt_offset_row_index.
Qed.

Lemma checkpoint_read_recovery_witness :
  read_rank_ckpt sample_builtins (mkStore None (Some truncated_ckpt)) = 0
  /\ read_checkpoint sample_builtins (Some (lit "[]")) = 0
  /\ read_rank_ckpt sample_builtins (_write_rank_ckpt 7 (mkStore None None)) = 7.
Proof.
  destruct (checkpoint_read_recovery sample_builtins)
    as (_ & _ & Hcorrupt & Hcorrupt' & Hback & _).
  split; [|split].
  - apply Hcorrupt. left. reflexivity.
  - apply Hcorrupt'. right. left. exists (JArr []). split; [reflexivity|].
    intros d. discriminate.
  - apply Hback.
Defined.

(** ** One iteration of the row loop *)

Lemma flush_ok b records s s' :
  _flush b records s = Ok s' ->
  stored_rows s' = stored_rows s ++ records /\ ckpt_file s' = ckpt_file s.
Proof.
  unfold _flush, stored_rows. destruct records as [|r l].
  - intros [= <-]. now rewrite app_nil_r.
  - cbv zeta. destruct (to_parquet b _); [discriminate|]. intros [= <-].
    cbn [out_file ckpt_file]. destruct (out_file s); auto.
Qed.

Lemma flush_raise b records s e :
  _flush b records s = Raise e ->
  records <> [] /\ to_parquet b (stored_rows s ++ records) = Some e.
Proof.
  unfold _flush, stored_rows. destruct records as [|r l]; [discriminate|].
  cbv zeta. intros H. split; [discriminate|].
  destruct (out_file s); cbn [app];
    destruct (to_parquet b _) eqn:E; congruence.
Qed.

Lemma flush_accepted_ok b records s :
  to_parquet b (stored_rows s ++ records) = None ->
  exists s', _flush b records s = Ok s'.
Proof.
  intros H. destruct (_flush b records s) as [s'|e] eqn:E; [eauto|].
  apply flush_raise in E. destruct E as (_ & E). congruence.
Qed.

Section BufferFacts.

Variable b : builtins.

(** The state once [rec] is appended and counted, before the flush. *)
Lemma buffer_record_no_flush rec st :
  (st_count st + 1) mod flush_every <> 0 ->
  buffer_record b rec st
  = Ok (mkState (st_store st) (st_buffer st ++ [rec]) (st_count st + 1)
                (st_io st) (st_ckpt_log st) (st_flushes st)).
Proof.
  intros H. unfold buffer_record. cbv zeta. cbn [st_count].
  apply Z.eqb_neq in H. now rewrite H.
Qed.

Lemma buffer_record_ok rec st st' :
  buffer_record b rec st = Ok st' ->
  recorded st' = recorded st ++ [rec]
  /\ st_count st' = st_count st + 1
  /\ st_io st' = st_io st.
Proof.
  unfold buffer_record. cbv zeta. cbn [st_count].
  destruct ((st_count st + 1) mod flush_every =? 0).
  - unfold do_flush. cbn [st_buffer st_store].
    destruct (_flush b (st_buffer st ++ [rec]) (st_store st)) as [s'|e] eqn:E;
      [|discriminate].
    intros [= <-]. apply flush_ok in E. destruct E as (E & _).
    unfold recorded, do_write_ckpt, _write_rank_ckpt.
    cbn [st_count st_buffer st_store st_io]. unfold stored_rows in *.
    cbn [out_file]. rewrite E, app_nil_r, app_assoc. auto.
  - intros [= <-]. unfold recorded.
    cbn [st_count st_buffer st_store st_io]. rewrite app_assoc. auto.
Qed.

(** What [buffer_record] raises is what the flush raises. *)
Lemma buffer_record_raise rec st e :
  buffer_record b rec st = Raise e ->
  (st_count st + 1) mod flush_every = 0
  /\ to_parquet b (recorded st ++ [rec]) = Some e.
Proof.
  unfold buffer_record. cbv zeta. cbn [st_count].
  destruct (Z.eqb_spec ((st_count st + 1) mod flush_every) 0) as [Hm|Hm];
    [|discriminate].
  unfold do_flush. cbn [st_buffer st_store].
  destruct (_flush b (st_buffer st ++ [rec]) (st_store st)) as [s'|e'] eqn:E;
    [discriminate|].
  intros [= <-]. apply flush_raise in E. destruct E as (_ & E).
  split; [exact Hm|]. unfold recorded. now rewrite <- app_assoc.
Qed.

Lemma buffer_record_accepted rec st :
  flush_accepted b st rec -> exists st', buffer_record b rec st = Ok st'.
Proof.
  intros Hacc. destruct (buffer_record b rec st) as [st'|e] eqn:E; [eauto|].
  apply buffer_record_raise in E. destruct E as (Hm & He).
  destruct Hacc as [Hacc|Hacc]; congruence.
Qed.

End BufferFacts.

Section RowFacts.

Variable b : builtins.
Variable cfg : config.
Variable srv : server.
Variable df : list Row.

(** [C8] Validation failure is not fatal by itself. For a row whose
    prompt is within the budget and whose inference call returns
    [content]: when parsing or validating [content] fails, the record of
    the row is buffered, with its [paper_id], [equation_id], raw and
    cleaned expression, [content] under [llm_raw_output] and the row
    index, and with none of the structured fields, and the count grows
    by one. When the flush that is then due, if one is due, is accepted,
    the iteration ends normally and the loop goes on with the remaining
    rows. The only exception that can leave the iteration is the one of
    that flush, at a count that is a multiple of 20. *)
Theorem validation_failure_not_fatal
        (st : pstate) (i : Z) (row : Row) (content : json) (w : io) :
  iloc df i = Some row ->
  (py_len (row_prompt row) >? max_prompt_chars cfg) = false ->
  llama_server_infer srv (SERVER_BASE_PORT cfg) (local_rank cfg)
                     (row_prompt row) (MAX_GENERATION_TOKENS cfg) (st_io st)
  = (Ok content, w) ->
  try_parse content = None ->
  let rec := [(lit "paper_id", cell_json (row_get row (lit "paper_id")));
              (lit "equation_id", cell_json (row_get row (lit "equation_id")));
              (lit "latex_raw", JStr (row_latex_raw row));
              (lit "latex_clean", JStr (katex_hygiene (row_latex_raw row)));
              (lit "llm_raw_output", content);
              (lit "global_row", JInt i)] in
  (forall k, In k structured_keys -> dict_get k rec = None)
  /\ (flush_accepted b st rec ->
      exists st',
        process_row b cfg srv df st i = Ok st'
        /\ recorded st' = recorded st ++ [rec]
        /\ st_count st' = st_count st + 1
        /\ st_io st' = w
        /\ forall rest,
            run_rows b cfg srv df st (i :: rest)
            = run_rows b cfg srv df st' rest)
  /\ (forall e,
         process_row b cfg srv df st i = Raise e ->
         (st_count st + 1) mod flush_every = 0
         /\ to_parquet b (recorded st ++ [rec]) = Some e).
Proof.
  intros Hrow Hlen Hinfer Hparse rec.
  assert (Hstep : process_row b cfg srv df st i
                  = buffer_record
                      b rec (mkState (st_store st) (st_buffer st) (st_count st)
                                     w (st_ckpt_log st) (st_flushes st))).
  { unfold process_row. rewrite Hrow. cbv zeta.
    fold (row_prompt row). rewrite Hlen, Hinfer, Hparse. reflexivity. }
  split; [|split].
  - intros k Hk. simpl in Hk.
    repeat (destruct Hk as [<- | Hk]; [reflexivity|]). contradiction.
  - intros Hacc.
    destruct (buffer_record_accepted
                b rec (mkState (st_store st) (st_buffer st) (st_count st)
                               w (st_ckpt_log st) (st_flushes st)) Hacc)
      as (st' & Hbuf).
    destruct (buffer_record_ok _ _ _ _ Hbuf) as (Hrec & Hcount & Hio).
    exists st'. rewrite Hstep. repeat split; try assumption.
    intros rest. cbn [run_rows]. now rewrite Hstep, Hbuf.
  - intros e He. rewrite Hstep in He.
    apply buffer_record_raise in He. exact He.
Qed.

(** [C10] Oversized prompts are dropped. A row whose prompt is longer
    than [ctx * 4] characters leaves the whole state as it was: no post
    is made, nothing is buffered or written, and the count that drives
    flushes and checkpoints does not move; the loop goes on with the
    remaining rows. *)
Theorem oversized_prompt_skipped (st : pstate) (i : Z) (row : Row) :
  iloc df i = Some row ->
  py_len (row_prompt row) > ctx cfg * 4 ->
  process_row b cfg srv df st i = Ok st
  /\ forall rest,
      run_rows b cfg srv df st (i :: rest) = run_rows b cfg srv df st rest.
Proof.
  intros Hrow Hlen.
  assert (Hstep : process_row b cfg srv df st i = Ok st).
  { unfold process_row. rewrite Hrow. cbv zeta. fold (row_prompt row).
    unfold max_prompt_chars.
    destruct (py_len (row_prompt row) >? ctx cfg * 4) eqn:E; [reflexivity|].
    rewrite Z.gtb_ltb in E. apply Z.ltb_ge in E. lia. }
  split; [exact Hstep|].
  intros rest. simpl. now rewrite Hstep.
Qed.

End RowFacts.

Lemma validation_failure_not_fatal_witness :
  exists st',
    process_row sample_builtins sample_cfg chatty_server
                [sample_row 7 (lit " x^2 \label{eq:7},")]
                (initial_state empty_store fresh_io) 0
    = Ok st'
    /\ recorded st'
       = [[(lit "paper_id", JStr (lit "2401.00001"));
           (lit "equation_id", JInt 7);
           (lit "latex_raw", JStr (lit " x^2 \label{eq:7},"));
           (lit "latex_clean", JStr (lit "x^2 "));
           (lit "llm_raw_output", JStr (lit "I cannot answer."));
           (lit "global_row", JInt 0)]]
    /\ st_count st' = 1
    /\ st_io st' = mkIo 1 0.
Proof.
  destruct (validation_failure_not_fatal
              sample_builtins sample_cfg chatty_server
              [sample_row 7 (lit " x^2 \label{eq:7},")]
              (initial_state empty_store fresh_io) 0
              (sample_row 7 (lit " x^2 \label{eq:7},"))
              (JStr (lit "I cannot answer."))
              (mkIo 1 0))
    as (_ & Hok & _).
  - reflexivity.
  - vm_compute. reflexivity.
  - vm_compute. reflexivity.
  - vm_compute. reflexivity.
  - destruct Hok as (st' & Hstep & Hrec & Hcount & Hio & _).
    + left. vm_compute. discriminate.
    + exists st'. split; [exact Hstep|]. split; [exact Hrec|].
      split; [exact Hcount|exact Hio].
Defined.

(** The twentieth of twenty rows whose answers are one lone surrogate:
    the inference call succeeds, the answer does not parse, the record is
    buffered, and the flush that is due raises out of the loop, so the
    batch stops on a row whose validation failed. *)
Lemma validation_failure_stops_batch :
  exists st row content w,
    run_rows sample_builtins sample_cfg surrogate_server
             (rows (sample_frame 20)) (initial_state empty_store fresh_io)
             (range_items 0 19 1) = Ok st
    /\ st_count st = 19
    /\ iloc (rows (sample_frame 20)) 19 = Some row
    /\ (py_len (row_prompt row) >? max_prompt_chars sample_cfg) = false
    /\ llama_server_infer surrogate_server (SERVER_BASE_PORT sample_cfg)
                          (local_rank sample_cfg) (row_prompt row)
                          (MAX_GENERATION_TOKENS sample_cfg) (st_io st)
       = (Ok content, w)
    /\ content = JStr [55296%N]
    /\ try_parse content = None
    /\ process_row sample_builtins sample_cfg surrogate_server
                   (rows (sample_frame 20)) st 19
       = Raise UnicodeEncodeError
    /\ process_file_row_sharded sample_builtins sample_cfg surrogate_server
                                (sample_frame 20) empty_store fresh_io
       = Raise UnicodeEncodeError.
Proof.
  do 4 eexists.
  split; [vm_compute; reflexivity|].
  split; [reflexivity|].
  split; [vm_compute; reflexivity|].
  split; [vm_compute; reflexivity|].
  split; [vm_compute; reflexivity|].
  split; [reflexivity|].
  split; [vm_compute; reflexivity|].
  split; vm_compute; reflexivity.
Qed.

Lemma oversized_prompt_skipped_witness :
  process_row sample_builtins tight_cfg chatty_server (rows long_row_frame)
              (initial_state empty_store fresh_io) 1
  = Ok (initial_state empty_store fresh_io).
Proof.
  apply (oversized_prompt_skipped
           sample_builtins tight_cfg chatty_server (rows long_row_frame)
           (initial_state empty_store fresh_io) 1
           (sample_row 1 (repeat 120%N 100))).
  - reflexivity.
  - vm_compute. reflexivity.
Defined.

(** A run in which every post succeeds and which ends normally, yet whose
    output file holds row 0 alone: row 1 was assigned and skipped for the
    length of its prompt, with one post made in all. *)
Example successful_run_omits_row :
  match process_file_row_sharded sample_builtins tight_cfg chatty_server
                                 long_row_frame empty_store fresh_io with
  | Ok st =>
    my_rows 0 0 1 2 = Some [0; 1]
    /\ global_rows (stored_rows (st_store st)) = [0]
    /\ posts (st_io st) = 1%nat
  | Raise _ => False
  end.
Proof. vm_compute. repeat split. Qed.

(** ** Runs that a restart follows *)

(** [C1] One rank, 40 rows. The run is stopped after its first flush: rows
    0 to 19 are in the output file and the checkpoint holds 1, the number
    of flushes done. The restart reads that offset and is assigned rows 1
    to 39, so rows 1 to 19 are processed again and end up twice in the
    output file, where the specification expects no flushed row to come back. *)
Theorem resume_reprocesses_flushed_rows :
  match run_rows sample_builtins sample_cfg chatty_server
                 (filter_frame (sample_frame 40))
                 (initial_state empty_store fresh_io)
                 (firstn 20 (range_items 0 40 1)) with
  | Ok st =>
    global_rows (stored_rows (st_store st)) = range_items 0 20 1
    /\ st_buffer st = []
    /\ st_flushes st = 1%nat
    /\ read_rank_ckpt sample_builtins (st_store st) = 1
    /\ my_rows 0 (read_rank_ckpt sample_builtins (st_store st)) 1 40
       = Some (range_items 1 40 1)
    /\ match process_file_row_sharded sample_builtins sample_cfg chatty_server
                                      (sample_frame 40) (st_store st) (st_io st) with
       | Ok st2 =>
         global_rows (stored_rows (st_store st2))
         = range_items 0 20 1 ++ range_items 1 40 1
       | Raise _ => False
       end
  | Raise _ => False
  end.
Proof. vm_compute. repeat split. Qed.

(** [C4] One rank, 5 rows, all processed. The only flush is the final
    one, and the value persisted with it is 5, the number of assigned
    rows, where one flush cycle is complete. Running again over the files
    that run left persists 0: the value written goes down from 5 to 0
    within the lifetime of the batch. *)
Theorem final_checkpoint_counts_rows :
  match process_file_row_sharded sample_builtins sample_cfg chatty_server
                                 (sample_frame 5) empty_store fresh_io with
  | Ok st =>
    st_flushes st = 1%nat
    /\ st_ckpt_log st = [5]
    /\ ckpt_file (st_store st) = Some (ckpt_text (lit "row_offset") 5)
    /\ match process_file_row_sharded sample_builtins sample_cfg chatty_server
                                      (sample_frame 5) (st_store st) (st_io st) with
       | Ok st2 => st_flushes st2 = O /\ st_ckpt_log st2 = [0]
       | Raise _ => False
       end
  | Raise _ => False
  end.
Proof. vm_compute. repeat split. Qed.

(** ** What a run can raise, and what its checkpoints hold *)

Section RunFacts.

Variable b : builtins.
Variable cfg : config.
Variable srv : server.
Variable df : list Row.

(** The only exceptions that leave an iteration are the [IndexError] of
    [df.iloc] and what the flush raises. *)
Lemma process_row_raise st i e :
  process_row b cfg srv df st i = Raise e ->
  (iloc df i = None /\ e = IndexError)
  \/ exists rec, (st_count st + 1) mod flush_every = 0
                 /\ to_parquet b (recorded st ++ [rec]) = Some e.
Proof.
  unfold process_row. destruct (iloc df i) as [row|].
  - cbv zeta.
    destruct (py_len _ >? max_prompt_chars cfg); [discriminate|].
    destruct (llama_server_infer _ _ _ _ _ _) as [[content|e'] w];
      [|discriminate].
    destruct (try_parse content) as [obj|] eqn:Hparse.
    + destruct (parsed_truthy (Some obj)).
      * destruct (structured_fields_ok
                    obj (valid_has_required_keys _ (try_parse_valid _ _ Hparse)))
          as (fields & ->).
        intros H. apply buffer_record_raise in H. right. eauto.
      * intros H. apply buffer_record_raise in H. right. eauto.
    + cbn [parsed_truthy]. intros H. apply buffer_record_raise in H.
      right. eauto.
  - intros [= <-]. now left.
Qed.

Lemma iloc_in_range i : 0 <= i < py_len df -> exists row, iloc df i = Some row.
Proof.
  intros Hi. unfold iloc.
  destruct ((0 <=? i) && (i <? py_len df)) eqn:E.
  - destruct (nth_error df (Z.to_nat i)) eqn:En; [eauto|].
    apply nth_error_None in En. unfold py_len in Hi. lia.
  - apply andb_false_iff in E. destruct E as [E|E].
    + apply Z.leb_gt in E. lia.
    + apply Z.ltb_ge in E. lia.
Qed.

(** Over indices of the frame, with a [to_parquet] that writes every
    frame, the loop runs to its end. *)
Lemma run_rows_ok indices : forall st,
  writes_all b ->
  Forall (fun i => 0 <= i < py_len df) indices ->
  exists st', run_rows b cfg srv df st indices = Ok st'.
Proof.
  induction indices as [|i rest IH]; intros st Hw Hall; simpl.
  - eauto.
  - inversion Hall as [|? ? Hi Hrest]; subst.
    destruct (process_row b cfg srv df st i) as [st1|e] eqn:E.
    + apply IH; assumption.
    + apply process_row_raise in E. destruct E as [[E _]|(rec & _ & E)].
      * destruct (iloc_in_range i Hi) as (row & Hrow). congruence.
      * rewrite Hw in E. discriminate.
Qed.

Lemma loop_invariant_initial s w : loop_invariant (initial_state s w).
Proof. repeat split. simpl. lia. Qed.

Lemma buffer_record_invariant rec st st' :
  loop_invariant st -> buffer_record b rec st = Ok st' -> loop_invariant st'.
Proof.
  intros (Hc & Hf & Hlog & Hb). unfold loop_invariant, buffer_record.
  cbv zeta. cbn [st_count st_buffer st_store st_io st_ckpt_log st_flushes].
  unfold flush_every in *.
  assert (Hlen : py_len (st_buffer st ++ [rec]) = py_len (st_buffer st) + 1).
  { unfold py_len. rewrite length_app. simpl. lia. }
  destruct ((st_count st + 1) mod 20 =? 0) eqn:E.
  - apply Z.eqb_eq in E.
    assert (Hq : (st_count st + 1) / 20 = st_count st / 20 + 1)
      by (Z.div_mod_to_equations; lia).
    assert (Hq0 : 0 <= st_count st / 20) by (Z.div_mod_to_equations; lia).
    unfold do_flush.
    cbn [st_count st_buffer st_store st_io st_ckpt_log st_flushes].
    destruct (_flush b (st_buffer st ++ [rec]) (st_store st)) as [s'|e];
      [|discriminate].
    intros [= <-]. unfold do_write_ckpt.
    cbn [st_count st_buffer st_store st_io st_ckpt_log st_flushes].
    split; [lia|]. split; [|split].
    + destruct (st_buffer st ++ [rec]) eqn:Eb.
      * now destruct (st_buffer st).
      * rewrite Hf, Hq. lia.
    + rewrite Hlog, Hq.
      replace (Z.to_nat (st_count st / 20 + 1))
        with (Z.to_nat (st_count st / 20) + 1)%nat by lia.
      rewrite seq_app, map_app. simpl. f_equal. f_equal. lia.
    + rewrite E. reflexivity.
  - apply Z.eqb_neq in E.
    assert (Hq : (st_count st + 1) / 20 = st_count st / 20)
      by (Z.div_mod_to_equations; lia).
    intros [= <-].
    cbn [st_count st_buffer st_store st_io st_ckpt_log st_flushes].
    split; [lia|]. rewrite Hq. split; [exact Hf|]. split; [exact Hlog|].
    rewrite Hlen, Hb. clear - E. Z.div_mod_to_equations. lia.
Qed.

Lemma process_row_invariant st i st' :
  loop_invariant st -> process_row b cfg srv df st i = Ok st' ->
  loop_invariant st'.
Proof.
  intros Hinv. unfold process_row. destruct (iloc df i) as [row|]; [|discriminate].
  cbv zeta.
  destruct (py_len _ >? max_prompt_chars cfg); [now intros [= <-]|].
  destruct (llama_server_infer _ _ _ _ _ _) as [[content|e'] w].
  - destruct (parsed_truthy (try_parse content)).
    + destruct (structured_fields _); [|discriminate].
      apply buffer_record_invariant. exact Hinv.
    + apply buffer_record_invariant. exact Hinv.
  - intros [= <-]. exact Hinv.
Qed.

Lemma run_rows_invariant indices : forall st st',
  loop_invariant st -> run_rows b cfg srv df st indices = Ok st' ->
  loop_invariant st'.
Proof.
  induction indices as [|i rest IH]; intros st st' Hinv; simpl.
  - now intros [= <-].
  - destruct (process_row b cfg srv df st i) as [st1|e] eqn:E; [|discriminate].
    apply IH. exact (process_row_invariant _ _ _ Hinv E).
Qed.

End RunFacts.

(** The final flush and the final write: the state they leave. *)
Lemma final_flush_ok b st st1 :
  do_flush b st = Ok st1 ->
  stored_rows (st_store st1) = recorded st
  /\ ckpt_file (st_store st1) = ckpt_file (st_store st)
  /\ st_count st1 = st_count st
  /\ st_io st1 = st_io st
  /\ st_ckpt_log st1 = st_ckpt_log st.
Proof.
  unfold do_flush.
  destruct (_flush b (st_buffer st) (st_store st)) as [s'|e] eqn:E;
    [|discriminate].
  intros [= <-]. apply flush_ok in E. destruct E as (E1 & E2).
  cbn [st_store st_count st_io st_ckpt_log]. unfold recorded. auto.
Qed.

(** A call that ends normally: the loop, the final flush, the final
    write. *)
Lemma process_file_run b cfg srv f s w st :
  process_file_row_sharded b cfg srv f s w = Ok st ->
  exists rows_ st1 st2,
    my_rows (world_rank cfg) (read_rank_ckpt b s) (world_size cfg)
            (py_len (filter_frame f)) = Some rows_
    /\ run_rows b cfg srv (filter_frame f) (initial_state s w) rows_ = Ok st1
    /\ do_flush b st1 = Ok st2
    /\ st = do_write_ckpt (py_len rows_) st2.
Proof.
  unfold process_file_row_sharded. cbv zeta.
  destruct (my_rows _ _ _ _) as [rows_|] eqn:E1; [|discriminate].
  destruct (run_rows _ _ _ _ _ _) as [st1|] eqn:E2; [|discriminate].
  destruct (do_flush b st1) as [st2|] eqn:E3; [|discriminate].
  intros H. injection H as <-. exists rows_, st1, st2. auto.
Qed.

(** With a rank and a world size as MPI gives them, a resume offset
    that is not negative and a [to_parquet] that writes every frame,
    [process_file_row_sharded] ends normally: the loop runs over the
    assigned rows, and the final write persists the number of assigned
    rows after the values of the loop. *)
Lemma process_file_ok b cfg srv f s w :
  0 <= world_rank cfg -> 0 < world_size cfg -> 0 <= read_rank_ckpt b s ->
  writes_all b ->
  exists rows_ st1 st2,
    my_rows (world_rank cfg) (read_rank_ckpt b s) (world_size cfg)
            (py_len (filter_frame f)) = Some rows_
    /\ run_rows b cfg srv (filter_frame f) (initial_state s w) rows_ = Ok st1
    /\ loop_invariant st1
    /\ do_flush b st1 = Ok st2
    /\ process_file_row_sharded b cfg srv f s w
       = Ok (do_write_ckpt (py_len rows_) st2)
    /\ st_ckpt_log (do_write_ckpt (py_len rows_) st2)
       = map Z.of_nat (seq 1 (st_flushes st1)) ++ [py_len rows_].
Proof.
  intros Hg HW Hs Hw. unfold process_file_row_sharded.
  destruct (my_rows _ _ _ _) as [rows_|] eqn:Hrows.
  - destruct (run_rows_ok b cfg srv (filter_frame f) rows_ (initial_state s w))
      as (st1 & Hrun); [exact Hw| |].
    { apply Forall_forall. intros i Hi.
      exact (my_rows_in_frame _ _ _ _ _ _ HW Hg Hs Hrows Hi). }
    pose proof (run_rows_invariant _ _ _ _ _ _ _
                  (loop_invariant_initial s w) Hrun) as Hinv.
    destruct (do_flush b st1) as [st2|e] eqn:Hfl.
    + exists rows_, st1, st2. cbv zeta. rewrite Hrun, Hfl.
      repeat split; try apply Hinv.
      apply final_flush_ok in Hfl.
      destruct Hfl as (_ & _ & _ & _ & Hlog).
      cbn [do_write_ckpt st_ckpt_log]. rewrite Hlog.
      destruct Hinv as (_ & -> & -> & _). reflexivity.
    + unfold do_flush in Hfl.
      destruct (_flush b (st_buffer st1) (st_store st1)) as [s'|e'] eqn:E;
        [discriminate|].
      apply flush_raise in E. destruct E as (_ & E).
      rewrite Hw in E. discriminate.
  - unfold my_rows, py_range in Hrows.
    destruct (world_size cfg =? 0) eqn:E; [|discriminate].
    apply Z.eqb_eq in E. lia.
Qed.

(** ** Further properties of the pipeline *)

(** With a resume offset [s >= 0], a rank is assigned its shard without
    the first [s] rows of it: the offset counts rows of the shard. *)
Theorem resume_skips_offset_rows (g s W N : Z) :
  0 < W -> 0 <= s ->
  exists shard,
    my_rows g 0 W N = Some shard
    /\ my_rows g s W N = Some (skipn (Z.to_nat s) shard).
Proof.
  intros HW Hs. exists (range_items g N W). split.
  - apply my_rows_fresh. lia.
  - now apply my_rows_resume.
Qed.

Lemma resume_skips_offset_rows_witness :
  exists shard,
    my_rows 0 0 3 7 = Some shard
    /\ my_rows 0 1 3 7 = Some (skipn (Z.to_nat 1) shard).
Proof. apply (resume_skips_offset_rows 0 1 3 7); lia. Defined.

(** A run that starts without checkpoint and ends normally leaves a
    checkpoint with which the same rank is assigned no row at all. *)
Theorem finished_batch_resumes_empty
        (b : builtins) (cfg : config) (srv : server) (f : frame)
        (s : store) (w : io) (st : pstate) :
  0 < world_size cfg ->
  read_rank_ckpt b s = 0 ->
  process_file_row_sharded b cfg srv f s w = Ok st ->
  my_rows (world_rank cfg) (read_rank_ckpt b (st_store st)) (world_size cfg)
          (py_len (filter_frame f)) = Some [].
Proof.
  intros HW Hs0. unfold process_file_row_sharded. rewrite Hs0.
  rewrite my_rows_fresh by lia.
  destruct (run_rows _ _ _ _ _ _) as [st1|e]; [|discriminate].
  destruct (do_flush b st1) as [st2|e]; [|discriminate].
  intros [= <-]. unfold read_rank_ckpt, do_write_ckpt, _write_rank_ckpt.
  cbn [st_store ckpt_file]. rewrite ckpt_offset_row_offset.
  now apply my_rows_after_full_run.
Qed.

Lemma finished_batch_resumes_empty_witness :
  exists st,
    process_file_row_sharded sample_builtins sample_cfg chatty_server
                             (sample_frame 5) empty_store fresh_io = Ok st
    /\ my_rows 0 (read_rank_ckpt sample_builtins (st_store st)) 1 5 = Some [].
Proof.
  destruct (process_file_row_sharded sample_builtins sample_cfg chatty_server
                                     (sample_frame 5) empty_store fresh_io)
    as [st|e] eqn:E; [|vm_compute in E; discriminate].
  exists st. split; [reflexivity|].
  apply (finished_batch_resumes_empty
           sample_builtins sample_cfg chatty_server (sample_frame 5)
           empty_store fresh_io st); [reflexivity|reflexivity|exact E].
Defined.

(** Inside the loop the checkpoint counts flushes: from a fresh start, the
    values persisted so far are 1, 2, ... up to the number of flushes
    done, which is [count / 20], and the buffer holds the other
    [count mod 20] records. *)
Theorem loop_checkpoints_count_flushes
        (b : builtins) (cfg : config) (srv : server) (df : list Row)
        (s : store) (w : io) (indices : list Z) (st : pstate) :
  run_rows b cfg srv df (initial_state s w) indices = Ok st ->
  st_ckpt_log st = map Z.of_nat (seq 1 (st_flushes st))
  /\ st_flushes st = Z.to_nat (st_count st / flush_every)
  /\ py_len (st_buffer st) = st_count st mod flush_every.
Proof.
  intros Hrun.
  destruct (run_rows_invariant _ _ _ _ _ _ _ (loop_invariant_initial s w) Hrun)
    as (_ & Hf & Hlog & Hb).
  rewrite Hf. auto.
Qed.

Lemma loop_checkpoints_count_flushes_witness :
  exists st,
    run_rows sample_builtins sample_cfg chatty_server (rows (sample_frame 45))
             (initial_state empty_store fresh_io) (range_items 0 45 1) = Ok st
    /\ st_ckpt_log st = map Z.of_nat (seq 1 (st_flushes st))
    /\ st_flushes st = Z.to_nat (st_count st / flush_every)
    /\ py_len (st_buffer st) = st_count st mod flush_every.
Proof.
  destruct (run_rows sample_builtins sample_cfg chatty_server
                     (rows (sample_frame 45))
                     (initial_state empty_store fresh_io) (range_items 0 45 1))
    as [st|e] eqn:E; [|vm_compute in E; discriminate].
  exists st. split; [reflexivity|].
  exact (loop_checkpoints_count_flushes _ _ _ _ _ _ _ _ E).
Defined.

Lemma answer_classification_witness :
  infer_loop lost_server (server_url 18080 0) (request_payload (lit "x") 500)
             60 1 fresh_io
  = (Raise (RuntimeError (HttpStatusError 404 (inr (lit "Not Found")))),
     io_post fresh_io).
Proof.
  apply (proj2 (proj2 (answer_classification
                         lost_server (server_url 18080 0)
                         (request_payload (lit "x") 500) 59 1 fresh_io
                         404 (lit "Not Found") eq_refl))).
  - discriminate.
  - discriminate.
Defined.

Lemma no_object_no_json_found_witness :
  parse_strict_json (lit "I cannot answer.") = Raise no_json_found.
Proof.
  apply no_object_no_json_found.
  intros (pre & body & ws & H & _).
  assert (Hin : In c_lbrace (lit "I cannot answer.")).
  { rewrite H. apply in_or_app. right. left. reflexivity. }
  vm_compute in Hin.
  repeat (destruct Hin as [Hin|Hin]; [discriminate|]). exact Hin.
Defined.

Lemma key_violation_rejected_witness :
  parse_strict_json partial_output = Raise ValidationError.
Proof.
  apply (key_violation_rejected
           partial_output (litq "{'input': {'latex_raw': 'x^2'}}")
           (JObj [(lit "input", JObj [(lit "latex_raw", JStr (lit "x^2"))])])).
  - vm_compute. reflexivity.
  - vm_compute. reflexivity.
  - unfold PURE_MATH_JSON_SCHEMA.
    apply KV_missing with (k := lit "analysis").
    + simpl. tauto.
    + reflexivity.
Defined.

Lemma parse_after_plain_prefix_witness :
  exists obj,
    parse_strict_json (lit "Answer: " ++ c_lbrace :: tl valid_output) = Ok obj.
Proof.
  eexists. apply parse_after_plain_prefix.
  - repeat (constructor; [discriminate|]). constructor.
  - vm_compute. reflexivity.
  - vm_compute. reflexivity.
  - vm_compute. reflexivity.
Defined.

(** ** What a call of [llama_server_infer] costs and where its result comes from *)

Section InferEffects.

Variable srv : server.
Variable url : pystr.
Variable payload : json.

(** From attempt [61 - n] on: the loop makes [p] posts with [1 <= p <= n]
    and sleeps [p - 1] times; it never reaches the error after the loop;
    and what it returns is the content of the answer to its last post, a
    200. *)
Lemma infer_loop_effects n : forall attempt w,
  (1 <= n)%nat ->
  attempt + Z.of_nat n = max_attempts + 1 ->
  exists p,
    (1 <= p <= n)%nat
    /\ snd (infer_loop srv url payload n attempt w)
       = mkIo (posts w + p) (sleeps w + p - 1)
    /\ fst (infer_loop srv url payload n attempt w)
       <> Raise (RuntimeError RetriesExhausted)
    /\ forall content,
        fst (infer_loop srv url payload n attempt w) = Ok content ->
        succeeds_with (srv (posts w + p - 1)%nat url payload) content.
Proof.
  induction n as [|n IH]; intros attempt w Hn Hsum; [lia|].
  assert (Hstop : forall r : res json,
             r <> Raise (RuntimeError RetriesExhausted) ->
             (forall content, r = Ok content ->
                              succeeds_with (srv (posts w) url payload) content) ->
             exists p,
               (1 <= p <= S n)%nat
               /\ snd (r, io_post w) = mkIo (posts w + p) (sleeps w + p - 1)
               /\ fst (r, io_post w) <> Raise (RuntimeError RetriesExhausted)
               /\ forall content,
                   fst (r, io_post w) = Ok content ->
                   succeeds_with (srv (posts w + p - 1)%nat url payload) content).
  { intros r Hr Hok. exists 1%nat. split; [lia|]. split; [|split].
    - unfold io_post. simpl. f_equal; lia.
    - exact Hr.
    - intros content Hc. replace (posts w + 1 - 1)%nat with (posts w) by lia.
      now apply Hok. }
  assert (Hnext : attempt <> max_attempts ->
             exists p,
               (1 <= p <= S n)%nat
               /\ snd (infer_loop srv url payload n (attempt + 1)
                                  (io_sleep (io_post w)))
                  = mkIo (posts w + p) (sleeps w + p - 1)
               /\ fst (infer_loop srv url payload n (attempt + 1)
                                  (io_sleep (io_post w)))
                  <> Raise (RuntimeError RetriesExhausted)
               /\ forall content,
                   fst (infer_loop srv url payload n (attempt + 1)
                                   (io_sleep (io_post w))) = Ok content ->
                   succeeds_with (srv (posts w + p - 1)%nat url payload) content).
  { intros Hne.
    destruct (IH (attempt + 1) (io_sleep (io_post w)))
      as (p & Hp & Hio & Hnot & Hok); [unfold max_attempts in *; lia|lia|].
    exists (S p). split; [lia|]. split; [|split].
    - rewrite Hio. simpl. f_equal; lia.
    - exact Hnot.
    - intros content Hc. specialize (Hok content Hc). simpl in Hok.
      replace (posts w + S p - 1)%nat with (S (posts w) + p - 1)%nat by lia.
      exact Hok. }
  cbn [infer_loop].
  destruct (srv (posts w) url payload) as [e|status_code text] eqn:Epost.
  - destruct (attempt =? max_attempts) eqn:E.
    + apply Hstop; [discriminate|discriminate].
    + apply Hnext. now apply Z.eqb_neq.
  - destruct (if status_code =? 503
              then py_in (lit "Loading model") (loading_msg text)
              else Ok false) as [[|]|e] eqn:Ecls.
    + destruct (attempt =? max_attempts) eqn:E.
      * apply Hstop; [discriminate|discriminate].
      * apply Hnext. now apply Z.eqb_neq.
    + destruct (negb (status_code =? 200)) eqn:E200.
      * apply Hstop; [discriminate|discriminate].
      * apply negb_false_iff, Z.eqb_eq in E200. subst status_code.
        destruct (json_loads text) as [data|] eqn:El.
        -- destruct (response_content data) as [content|] eqn:Ec.
           ++ apply Hstop; [discriminate|].
              intros c [= <-]. exists text, data. auto.
           ++ apply Hstop; [discriminate|discriminate].
        -- apply Hstop; [discriminate|discriminate].
    + apply Hstop.
      * destruct (status_code =? 503); [|discriminate].
        destruct (loading_msg text); simpl in Ecls; congruence.
      * discriminate.
Qed.

End InferEffects.

(** ** The row loop, iteration by iteration *)

Lemma llama_server_infer_effects srv port lr prompt mt w :
  exists p,
    (1 <= p <= 60)%nat
    /\ snd (llama_server_infer srv port lr prompt mt w)
       = mkIo (posts w + p) (sleeps w + p - 1)
    /\ fst (llama_server_infer srv port lr prompt mt w)
       <> Raise (RuntimeError RetriesExhausted)
    /\ forall content,
        fst (llama_server_infer srv port lr prompt mt w) = Ok content ->
        succeeds_with (srv (posts w + p - 1)%nat (server_url port lr)
                           (request_payload prompt mt)) content.
Proof.
  unfold llama_server_infer.
  apply infer_loop_effects; unfold max_attempts; simpl; lia.
Qed.

Lemma getitem_key_of j k v : getitem j k = Ok v -> getitem_key j k = Some v.
Proof.
  destruct j as [| | | | | |d]; try discriminate. cbn [getitem getitem_key].
  destruct (dict_get k d); [|discriminate]. now intros [= ->].
Qed.

Lemma structured_fields_spec obj fields :
  structured_fields obj = Ok fields -> structured_of obj fields.
Proof.
  unfold structured_fields, structured_of. intros Hf.
  repeat match type of Hf with
         | match ?x with Ok _ => _ | Raise _ => _ end = _ =>
           let E := fresh "E" in destruct x eqn:E; [|discriminate]
         end.
  injection Hf as <-.
  repeat match goal with
         | H : getitem _ _ = Ok _ |- _ => apply getitem_key_of in H
         end.
  do 7 eexists. repeat split; eassumption.
Qed.

Lemma update_structured_fields base obj fields :
  map fst base = [lit "paper_id"; lit "equation_id"; lit "latex_raw";
                  lit "latex_clean"; lit "llm_raw_output"; lit "global_row"] ->
  structured_fields obj = Ok fields ->
  dict_update base fields = base ++ fields
  /\ map fst fields = structured_keys.
Proof.
  intros Hb Hf. unfold structured_fields in Hf.
  repeat match type of Hf with
         | match ?x with Ok _ => _ | Raise _ => _ end = _ =>
           destruct x; [|discriminate]
         end.
  injection Hf as <-.
  destruct base as [|[k1 v1] [|[k2 v2] [|[k3 v3] [|[k4 v4] [|[k5 v5]
                   [|[k6 v6] [|]]]]]]]; try discriminate.
  cbn [map fst] in Hb. injection Hb as -> -> -> -> -> ->.
  split; reflexivity.
Qed.

Section LoopFacts.

Variable b : builtins.
Variable cfg : config.
Variable srv : server.
Variable df : list Row.

(** An iteration whose inference call returned [content]: the record
    that is buffered. *)
Lemma process_row_answered st i row content w :
  iloc df i = Some row ->
  py_len (row_prompt row) <= ctx cfg * 4 ->
  llama_server_infer srv (SERVER_BASE_PORT cfg) (local_rank cfg)
                     (row_prompt row) (MAX_GENERATION_TOKENS cfg) (st_io st)
  = (Ok content, w) ->
  exists rec,
    process_row b cfg srv df st i = buffer_record b rec (with_io st w)
    /\ ((try_parse content = None /\ rec = row_base row i content)
        \/ exists obj fields,
            try_parse content = Some obj
            /\ structured_of obj fields
            /\ rec = row_base row i content ++ fields).
Proof.
  intros Hrow Hfit Hinf.
  unfold process_row. rewrite Hrow. cbv zeta. fold (row_prompt row).
  unfold max_prompt_chars.
  destruct (Z.gtb_spec (py_len (row_prompt row)) (ctx cfg * 4)); [lia|].
  rewrite Hinf.
  change (base_record (row_get row (lit "paper_id"))
                      (row_get row (lit "equation_id")) (row_latex_raw row)
                      (katex_hygiene (row_latex_raw row)) content i)
    with (row_base row i content).
  fold (with_io st w).
  destruct (try_parse content) as [obj|] eqn:Eparse.
  - pose proof (try_parse_valid _ _ Eparse) as Hvalid.
    pose proof (valid_has_required_keys _ Hvalid) as Hkeys.
    destruct (structured_fields_ok _ Hkeys) as (fields & Hfields).
    assert (Htruthy : parsed_truthy (Some obj) = true).
    { destruct Hkeys as (input & _ & _ & _ & _ & Hin & _).
      destruct obj as [| | | | | |[|? ?]]; try discriminate.
      reflexivity. }
    rewrite Htruthy, Hfields.
    destruct (update_structured_fields
                (row_base row i content) obj fields eq_refl Hfields)
      as (-> & _).
    eexists. split; [reflexivity|].
    right. exists obj, fields. split; [reflexivity|].
    split; [now apply structured_fields_spec|reflexivity].
  - cbn [parsed_truthy]. eexists. split; [reflexivity|]. left. auto.
Qed.

(** What one iteration that ends normally does, case by case. *)
Lemma process_row_cases st i st' :
  process_row b cfg srv df st i = Ok st' ->
  exists row,
    iloc df i = Some row
    /\ ((py_len (row_prompt row) > ctx cfg * 4 /\ st' = st)
        \/ (py_len (row_prompt row) <= ctx cfg * 4
            /\ exists p,
                (1 <= p <= 60)%nat
                /\ let w := mkIo (posts (st_io st) + p)
                                 (sleeps (st_io st) + p - 1) in
                   (st' = with_io st w
                    \/ exists rec,
                        record_of cfg srv df i rec
                        /\ buffer_record b rec (with_io st w) = Ok st'))).
Proof.
  intros H. destruct (iloc df i) as [row|] eqn:Erow.
  2:{ unfold process_row in H. rewrite Erow in H. discriminate. }
  exists row. split; [reflexivity|].
  destruct (Z.gtb_spec (py_len (row_prompt row)) (ctx cfg * 4)) as [Hgt|Hfit].
  - left. split; [lia|].
    unfold process_row in H. rewrite Erow in H. cbv zeta in H.
    fold (row_prompt row) in H. unfold max_prompt_chars in H.
    destruct (Z.gtb_spec (py_len (row_prompt row)) (ctx cfg * 4)); [|lia].
    now injection H as <-.
  - right. split; [exact Hfit|].
    destruct (llama_server_infer_effects srv (SERVER_BASE_PORT cfg)
                (local_rank cfg) (row_prompt row) (MAX_GENERATION_TOKENS cfg)
                (st_io st)) as (p & Hp & Hio & _ & Hok).
    exists p. split; [exact Hp|]. cbv zeta.
    destruct (llama_server_infer srv (SERVER_BASE_PORT cfg) (local_rank cfg)
                (row_prompt row) (MAX_GENERATION_TOKENS cfg) (st_io st))
      as [r w] eqn:Einf.
    cbn [fst snd] in Hio, Hok. subst w.
    destruct r as [content|e].
    + right.
      destruct (process_row_answered st i row content _ Erow Hfit Einf)
        as (rec & Hstep & Hrec).
      exists rec. split; [|now rewrite <- Hstep].
      exists row, content. repeat split; try assumption.
      eexists. apply (Hok content eq_refl).
    + left. unfold process_row in H. rewrite Erow in H. cbv zeta in H.
      fold (row_prompt row) in H. unfold max_prompt_chars in H.
      destruct (Z.gtb_spec (py_len (row_prompt row)) (ctx cfg * 4)); [lia|].
      rewrite Einf in H. now injection H as <-.
Qed.

End LoopFacts.

Section LoopRecords.

Variable b : builtins.
Variable cfg : config.
Variable srv : server.
Variable df : list Row.

Lemma record_of_global_row i rec :
  record_of cfg srv df i rec ->
  dict_get (lit "global_row") rec = Some (JInt i)
  /\ (py_len rec = 6 \/ py_len rec = 12).
Proof.
  intros (row & content & _ & _ & _ & [[_ ->]|(obj & fields & _ & Hf & ->)]).
  - split; [reflexivity|left; reflexivity].
  - destruct Hf as (? & ? & ? & ? & ? & ? & ? & _ & _ & _ & _ & _ & _ & _ & ->).
    split; [reflexivity|right; reflexivity].
Qed.

Lemma records_global_rows idx new :
  Forall2 (record_of cfg srv df) idx new -> global_rows new = idx.
Proof.
  induction 1 as [|i rec idx new Hrec _ IH]; [reflexivity|].
  unfold global_rows in *. cbn [flat_map].
  destruct (record_of_global_row _ _ Hrec) as (-> & _).
  cbn [app]. now rewrite IH.
Qed.

Lemma subseq_refl_nil {A : Type} (l : list A) : subseq [] l.
Proof. induction l; constructor; assumption. Qed.

Lemma subseq_In {A : Type} (l1 l2 : list A) x :
  subseq l1 l2 -> In x l1 -> In x l2.
Proof.
  induction 1 as [|y l1 l2 _ IH|y l1 l2 _ IH]; intros Hin.
  - exact Hin.
  - right. now apply IH.
  - destruct Hin as [->|Hin]; [now left|right; now apply IH].
Qed.

Lemma subseq_NoDup {A : Type} (l1 l2 : list A) :
  subseq l1 l2 -> NoDup l2 -> NoDup l1.
Proof.
  induction 1 as [|y l1 l2 Hs IH|y l1 l2 Hs IH]; intros Hnd.
  - constructor.
  - inversion Hnd; subst. now apply IH.
  - inversion Hnd as [|? ? Hy Hl]; subst. constructor; [|now apply IH].
    intros Hin. apply Hy. now apply (subseq_In _ _ _ Hs).
Qed.

(** The records a run of the loop adds are records of some of the rows
    it was given, in their order; each row costs at most 60 posts and 59
    sleeps. *)
Lemma run_rows_records indices : forall st st',
  run_rows b cfg srv df st indices = Ok st' ->
  exists idx new,
    subseq idx indices
    /\ Forall2 (record_of cfg srv df) idx new
    /\ recorded st' = recorded st ++ new
    /\ st_count st' = st_count st + py_len new
    /\ (posts (st_io st') <= posts (st_io st) + 60 * length indices)%nat
    /\ (sleeps (st_io st') <= sleeps (st_io st) + 59 * length indices)%nat
    /\ (posts (st_io st) + length new <= posts (st_io st'))%nat.
Proof.
  induction indices as [|i rest IH]; intros st st' H.
  - injection H as <-. exists [], []. rewrite app_nil_r.
    repeat split; try constructor; cbn; lia.
  - cbn [run_rows] in H.
    destruct (process_row b cfg srv df st i) as [st1|e] eqn:Erow;
      [|discriminate].
    destruct (IH _ _ H) as (idx & new & Hsub & Hrecs & Hrec & Hcnt & Hp & Hs & Hn).
    destruct (process_row_cases _ _ _ _ _ _ _ Erow)
      as (row & Hrow & [[_ ->]|(_ & p & Hpr & Hcase)]).
    + exists idx, new. repeat split; try assumption;
        [now constructor|cbn [length]; lia|cbn [length]; lia].
    + cbv zeta in Hcase. destruct Hcase as [->|(rec & Hof & Hbuf)].
      * exists idx, new. cbn [with_io st_io posts sleeps st_count] in *.
        unfold recorded in *. cbn [with_io st_store st_buffer] in *.
        repeat split; try assumption;
          [now constructor|cbn [length]; lia|cbn [length]; lia|lia].
      * destruct (buffer_record_ok _ _ _ _ Hbuf) as (Hb1 & Hb2 & Hb3).
        exists (i :: idx), (rec :: new).
        rewrite Hb3 in *. rewrite Hb1 in Hrec. rewrite Hb2 in Hcnt.
        cbn [with_io st_io posts sleeps st_count] in *.
        unfold recorded in *. cbn [with_io st_store st_buffer] in *.
        repeat split.
        -- now constructor.
        -- now constructor.
        -- rewrite Hrec, <- !app_assoc. reflexivity.
        -- rewrite Hcnt. unfold py_len. cbn [length]. lia.
        -- cbn [length]. lia.
        -- cbn [length]. lia.
        -- cbn [length]. lia.
Qed.

End LoopRecords.

(** ** The prompt and the cleaning of an expression *)

(** The prompt is the template, 2322 characters with the schema, around
    the expression. *)
Lemma build_prompt_length s : py_len (build_prompt s) = 2322 + py_len s.
Proof.
  unfold build_prompt, py_len. rewrite !length_app.
  assert (H1 : length template_head = 957%nat) by (vm_compute; reflexivity).
  assert (H2 : length (dumps (schema_json PURE_MATH_JSON_SCHEMA)) = 1308%nat)
    by (vm_compute; reflexivity).
  assert (H3 : length template_mid = 56%nat) by (vm_compute; reflexivity).
  assert (H4 : length template_tail = 1%nat) by (vm_compute; reflexivity).
  rewrite H1, H2, H3, H4. lia.
Qed.

Lemma lstrip_by_head f s :
  match lstrip_by f s with
  | c :: _ => f c = false
  | [] => True
  end.
Proof.
  induction s as [|c s IH]; [exact I|].
  cbn [lstrip_by]. destruct (f c) eqn:E; [exact IH|exact E].
Qed.

Lemma rstrip_by_last f s t c : rstrip_by f s = t ++ [c] -> f c = false.
Proof.
  unfold rstrip_by. intros H.
  apply (f_equal (@rev N)) in H. rewrite rev_involutive, rev_app_distr in H.
  cbn [rev app] in H.
  pose proof (lstrip_by_head f (rev s)) as Hh. rewrite H in Hh. exact Hh.
Qed.

Lemma rstrip_by_split f s :
  exists t, s = rstrip_by f s ++ t /\ Forall (fun c => f c = true) t.
Proof.
  unfold rstrip_by.
  destruct (lstrip_by_split f (rev s)) as (ws & Hs & Hws).
  exists (rev ws). split.
  - rewrite <- rev_app_distr, <- Hs. now rewrite rev_involutive.
  - apply Forall_rev. exact Hws.
Qed.

Lemma rstrip_by_head f s c t :
  rstrip_by f s = c :: t -> exists t', s = c :: t'.
Proof.
  intros H. destruct (rstrip_by_split f s) as (u & Hs & _).
  rewrite H in Hs. now exists (t ++ u).
Qed.

Lemma rstrip_by_length f s : (length (rstrip_by f s) <= length s)%nat.
Proof.
  destruct (rstrip_by_split f s) as (t & Hs & _).
  rewrite Hs at 2. rewrite length_app. lia.
Qed.

Lemma sub_labels_length s : forall skip,
  (length (sub_labels skip s) <= length s)%nat.
Proof.
  induction s as [|c r IH]; intros skip; [destruct skip; cbn; lia|].
  cbn [sub_labels]. destruct skip as [|k].
  - destruct (label_match_len (c :: r)) as [[|k]|].
    + cbn [length]. specialize (IH O). lia.
    + cbn [length]. specialize (IH k). lia.
    + cbn [length]. specialize (IH O). lia.
  - cbn [length]. specialize (IH k). lia.
Qed.

(** *** Labels *)

Lemma str_contains_cons sub c s :
  str_contains sub (c :: s) = false ->
  strip_prefix sub (c :: s) = None /\ str_contains sub s = false.
Proof.
  cbn [str_contains]. destruct (strip_prefix sub (c :: s)); [discriminate|].
  auto.
Qed.

Lemma sub_labels_plain s :
  str_contains label_open s = false -> sub_labels O s = s.
Proof.
  induction s as [|c r IH]; [reflexivity|]. intros H.
  apply str_contains_cons in H. destruct H as (Hp & Hr).
  cbn [sub_labels]. unfold label_match_len. fold label_open.
  rewrite Hp. now rewrite IH.
Qed.

Lemma sub_labels_skip a : forall b,
  sub_labels (length a) (a ++ b) = sub_labels O b.
Proof.
  induction a as [|c a IH]; intros b; [reflexivity|].
  cbn [length app sub_labels]. apply IH.
Qed.

Lemma index_rbrace_name name post :
  Forall (fun c => c <> c_rbrace) name ->
  index_rbrace (name ++ c_rbrace :: post) = Some (length name).
Proof.
  induction 1 as [|c name Hc _ IH]; [reflexivity|].
  cbn [app index_rbrace length].
  apply N.eqb_neq in Hc. rewrite Hc, IH. reflexivity.
Qed.

(** No match of the pattern starts inside a text that does not hold
    [\label{], whatever follows it after a backslash. *)
Lemma strip_prefix_overlap p x :
  p <> [] ->
  strip_prefix label_open p = None ->
  strip_prefix label_open (p ++ c_backslash :: x) = None.
Proof.
  intros Hne H. revert H. unfold label_open.
  destruct p as [|c1 [|c2 [|c3 [|c4 [|c5 [|c6 [|c7 p]]]]]]];
    [congruence|..]; cbn;
    repeat match goal with
           | |- context [if ?b then _ else _] => destruct b
           end; intros; try reflexivity; try discriminate.
Qed.

Lemma sub_labels_cut pre name post :
  str_contains label_open pre = false ->
  Forall (fun c => c <> c_rbrace) name ->
  sub_labels O (pre ++ label_open ++ name ++ c_rbrace :: post)
  = pre ++ sub_labels O post.
Proof.
  intros Hpre Hname. induction pre as [|c pre IH].
  - cbn [app]. unfold label_open at 1.
    change (lit "\label{" ++ name ++ c_rbrace :: post)
      with (c_backslash :: lit "label{" ++ name ++ c_rbrace :: post).
    cbn [sub_labels].
    assert (Hm : label_match_len
                   (c_backslash :: lit "label{" ++ name ++ c_rbrace :: post)
                 = Some (S (length (lit "label{" ++ name ++ [c_rbrace])))).
    { unfold label_match_len.
      change (strip_prefix (lit "\label{")
                (c_backslash :: lit "label{" ++ name ++ c_rbrace :: post))
        with (Some (name ++ c_rbrace :: post)).
      cbv beta iota.
      rewrite (index_rbrace_name _ _ Hname).
      rewrite length_app, length_app. cbn [length]. f_equal; lia. }
    rewrite Hm.
    replace (lit "label{" ++ name ++ c_rbrace :: post)
      with ((lit "label{" ++ name ++ [c_rbrace]) ++ post)
      by (rewrite <- !app_assoc; reflexivity).
    apply sub_labels_skip.
  - apply str_contains_cons in Hpre. destruct Hpre as (Hp & Hr).
    cbn [app sub_labels].
    assert (Hm : label_match_len
                   (c :: pre ++ label_open ++ name ++ c_rbrace :: post)
                 = None).
    { unfold label_match_len. fold label_open.
      change (c :: pre ++ label_open ++ name ++ c_rbrace :: post)
        with ((c :: pre) ++ c_backslash :: lit "label{" ++ name
                         ++ c_rbrace :: post).
      rewrite strip_prefix_overlap; [reflexivity|discriminate|exact Hp]. }
    rewrite Hm. now rewrite IH.
Qed.

(** ** The order of the batches *)

Lemma str_ltb_irrefl a : str_ltb a a = false.
Proof.
  induction a as [|x a IH]; [reflexivity|].
  cbn [str_ltb]. rewrite N.ltb_irrefl. exact IH.
Qed.

Lemma str_ltb_trans a : forall b c,
  str_ltb a b = true -> str_ltb b c = true -> str_ltb a c = true.
Proof.
  induction a as [|x a IH]; intros [|y b] [|z c]; cbn [str_ltb];
    try discriminate; try reflexivity.
  destruct (N.ltb_spec x y), (N.ltb_spec y x), (N.ltb_spec y z),
    (N.ltb_spec z y), (N.ltb_spec x z), (N.ltb_spec z x);
    try discriminate; try reflexivity; try lia.
  apply IH.
Qed.

Lemma str_ltb_total a : forall b,
  str_ltb a b = false -> str_ltb b a = false -> a = b.
Proof.
  induction a as [|x a IH]; intros [|y b]; cbn [str_ltb];
    try discriminate; try reflexivity.
  destruct (N.ltb_spec x y), (N.ltb_spec y x); try discriminate; try lia.
  intros H1 H2. assert (x = y) by lia. subst. f_equal. now apply IH.
Qed.

Lemma str_ltb_asym a b : str_ltb a b = true -> str_ltb b a = false.
Proof.
  intros H. destruct (str_ltb b a) eqn:E; [|reflexivity].
  pose proof (str_ltb_trans _ _ _ H E) as Hc.
  rewrite str_ltb_irrefl in Hc. discriminate.
Qed.

Lemma str_le_trans a b c : str_le a b -> str_le b c -> str_le a c.
Proof.
  unfold str_le. intros Hab Hbc.
  destruct (str_ltb c a) eqn:Hca; [|reflexivity].
  destruct (str_ltb a b) eqn:E.
  - pose proof (str_ltb_trans _ _ _ Hca E). congruence.
  - pose proof (str_ltb_total _ _ E Hab). subst. congruence.
Qed.

Lemma sorted_insert_perm x l : Permutation (sorted_insert x l) (x :: l).
Proof.
  induction l as [|y l IH]; [reflexivity|].
  cbn [sorted_insert]. destruct (str_ltb y x); [|reflexivity].
  rewrite IH. apply perm_swap.
Qed.

Lemma py_sorted_perm l : Permutation (py_sorted l) l.
Proof.
  induction l as [|x l IH]; [reflexivity|].
  cbn [py_sorted fold_right]. fold (py_sorted l).
  rewrite sorted_insert_perm. now constructor.
Qed.

Lemma sorted_insert_sorted x l :
  StronglySorted str_le l -> StronglySorted str_le (sorted_insert x l).
Proof.
  induction 1 as [|y l Hs IH Hy]; cbn [sorted_insert].
  - repeat constructor.
  - destruct (str_ltb y x) eqn:E.
    + constructor; [exact IH|].
      apply Forall_forall. intros z Hz.
      apply (Permutation_in _ (sorted_insert_perm x l)) in Hz.
      destruct Hz as [<-|Hz].
      * now apply str_ltb_asym.
      * rewrite Forall_forall in Hy. now apply Hy.
    + constructor; [now constructor|].
      constructor; [exact E|].
      apply Forall_forall. intros z Hz. rewrite Forall_forall in Hy.
      apply str_le_trans with y; [exact E|now apply Hy].
Qed.

Lemma py_sorted_sorted l : StronglySorted str_le (py_sorted l).
Proof.
  induction l as [|x l IH]; [constructor|].
  cbn [py_sorted fold_right]. now apply sorted_insert_sorted.
Qed.

(** Two sorted lists with the same elements are the same list. *)
Lemma sorted_perm_eq l1 : forall l2,
  StronglySorted str_le l1 -> StronglySorted str_le l2 ->
  Permutation l1 l2 -> l1 = l2.
Proof.
  induction l1 as [|x l1 IH]; intros [|y l2] H1 H2 HP.
  - reflexivity.
  - apply Permutation_nil in HP. discriminate.
  - symmetry in HP. apply Permutation_nil in HP. discriminate.
  - inversion H1 as [|? ? Hs1 Hx]; subst.
    inversion H2 as [|? ? Hs2 Hy]; subst.
    rewrite Forall_forall in Hx, Hy.
    assert (Hxy : x = y).
    { assert (Hle1 : str_le x y).
      { assert (Hin : In y (x :: l1))
          by (apply (Permutation_in _ (Permutation_sym HP)); now left).
        destruct Hin as [->|Hin]; [apply str_ltb_irrefl|now apply Hx]. }
      assert (Hle2 : str_le y x).
      { assert (Hin : In x (y :: l2))
          by (apply (Permutation_in _ HP); now left).
        destruct Hin as [->|Hin]; [apply str_ltb_irrefl|now apply Hy]. }
      symmetry. now apply str_ltb_total. }
    subst y. f_equal. apply IH; try assumption.
    now apply Permutation_cons_inv with x.
Qed.

Lemma filter_perm {A : Type} (f : A -> bool) l l' :
  Permutation l l' -> Permutation (filter f l) (filter f l').
Proof.
  induction 1 as [|x l l' _ IH|x y l|l l' l'' _ IH1 _ IH2]; cbn [filter].
  - constructor.
  - destruct (f x); [now constructor|exact IH].
  - destruct (f x), (f y); try reflexivity. apply perm_swap.
  - now transitivity (filter f l').
Qed.

Lemma load_parquets_perm l l' :
  Permutation l l' -> load_parquets l = load_parquets l'.
Proof.
  intros HP. unfold load_parquets.
  apply sorted_perm_eq; try apply py_sorted_sorted.
  rewrite !py_sorted_perm. now apply filter_perm.
Qed.

(** ** Suffix and stem *)

Lemma str_eqb_eq a : forall b, str_eqb a b = true <-> a = b.
Proof.
  induction a as [|x a IH]; intros [|y b]; cbn [str_eqb];
    try (split; [discriminate|discriminate]); [split; reflexivity|].
  rewrite andb_true_iff, N.eqb_eq, IH. split.
  - intros [-> ->]. reflexivity.
  - intros [= -> ->]. auto.
Qed.

Lemma rfind_dot_bound name i : rfind_dot name = Some i -> (i < length name)%nat.
Proof.
  revert i. induction name as [|c r IH]; intros i; cbn [rfind_dot length];
    [discriminate|].
  destruct (rfind_dot r) as [j|].
  - intros [= <-]. specialize (IH j eq_refl). lia.
  - destruct (c =? c_dot)%N; [|discriminate]. intros [= <-]. lia.
Qed.

Lemma rfind_dot_none_app a :
  Forall (fun c => c <> c_dot) a -> rfind_dot a = None.
Proof.
  induction 1 as [|c a Hc _ IH]; [reflexivity|].
  cbn [rfind_dot]. rewrite IH. apply N.eqb_neq in Hc. now rewrite Hc.
Qed.

Lemma rfind_dot_last a b :
  Forall (fun c => c <> c_dot) b ->
  rfind_dot (a ++ c_dot :: b) = Some (length a).
Proof.
  intros Hb. induction a as [|c a IH]; cbn [app rfind_dot length].
  - now rewrite rfind_dot_none_app.
  - now rewrite IH.
Qed.

Lemma has_suffix_parquet stem :
  stem <> [] ->
  has_suffix (stem ++ lit ".parquet") = Some (length stem).
Proof.
  intros Hne. unfold has_suffix.
  change (lit ".parquet") with (c_dot :: lit "parquet").
  rewrite rfind_dot_last by (repeat constructor; discriminate).
  rewrite length_app.
  assert (Hc : ((0 <? length stem)%nat
                && (length stem
                    <? length stem + length (c_dot :: lit "parquet") - 1)%nat)
               = true).
  { apply andb_true_iff; split; apply Nat.ltb_lt.
    - destruct stem; [congruence|cbn [length]; lia].
    - change (length (c_dot :: lit "parquet")) with 8%nat. lia. }
  rewrite Hc. reflexivity.
Qed.

Lemma path_suffix_parquet name :
  path_suffix name = lit ".parquet"
  <-> exists stem, stem <> [] /\ name = stem ++ lit ".parquet".
Proof.
  split.
  - unfold path_suffix. destruct (has_suffix name) as [i|] eqn:E;
      [|discriminate].
    intros H. exists (firstn i name). split.
    + unfold has_suffix in E. destruct (rfind_dot name) as [j|] eqn:Ej;
        [|discriminate].
      destruct ((0 <? j)%nat && (j <? length name - 1)%nat) eqn:Ec;
        [|discriminate].
      injection E as <-. apply andb_true_iff in Ec. destruct Ec as (Ec & _).
      apply Nat.ltb_lt in Ec.
      destruct name as [|c name]; [discriminate|].
      destruct j; [lia|]. discriminate.
    + rewrite <- H. symmetry. apply firstn_skipn.
  - intros (stem & Hne & ->). unfold path_suffix.
    rewrite has_suffix_parquet by assumption.
    rewrite skipn_app, skipn_all, Nat.sub_diag. reflexivity.
Qed.

Lemma path_stem_parquet stem :
  stem <> [] -> path_stem (stem ++ lit ".parquet") = stem.
Proof.
  intros Hne. unfold path_stem. rewrite has_suffix_parquet by assumption.
  rewrite firstn_app, firstn_all, Nat.sub_diag. cbn [firstn].
  apply app_nil_r.
Qed.

(** ** The names of the files of a rank *)

Lemma span_unique (P : N -> bool) p1 : forall p2 c1 c2 t1 t2,
  Forall (fun c => P c = true) p1 -> Forall (fun c => P c = true) p2 ->
  P c1 = false -> P c2 = false ->
  p1 ++ c1 :: t1 = p2 ++ c2 :: t2 ->
  p1 = p2 /\ c1 = c2 /\ t1 = t2.
Proof.
  induction p1 as [|x p1 IH]; intros [|y p2] c1 c2 t1 t2 H1 H2 Hc1 Hc2 H;
    cbn [app] in H; injection H as -> H.
  - auto.
  - apply Forall_inv in H2. congruence.
  - apply Forall_inv in H1. congruence.
  - apply Forall_inv_tail in H1, H2.
    destruct (IH _ _ _ _ _ H1 H2 Hc1 Hc2 H) as (-> & -> & ->). auto.
Qed.

Lemma uint_chars_digits u : Forall (fun c => is_digit c = true) (uint_chars u).
Proof. induction u; cbn [uint_chars]; constructor; auto. Qed.

Lemma format_04d_nonneg z :
  0 <= z ->
  exists k u, format_04d z = repeat c_zero k ++ uint_chars u
              /\ Z.of_uint u = z.
Proof.
  intros Hz. unfold format_04d.
  destruct (Z.ltb_spec z 0); [lia|]. cbn [app length].
  rewrite Z.abs_eq by lia. unfold str_of_Z.
  pose proof (DecimalZ.of_to z) as Hof.
  destruct (Z.to_int z) as [u|u] eqn:E.
  - eexists _, u. split; [reflexivity|].
    rewrite <- Hof. reflexivity.
  - exfalso. destruct z; cbn in E; try discriminate. lia.
Qed.

Lemma scan_digits_zeros k u :
  Z.of_uint (fst (scan_digits (repeat c_zero k ++ uint_chars u)))
  = Z.of_uint u.
Proof.
  induction k as [|k IH]; cbn [repeat app].
  - now rewrite scan_digits_uint.
  - change (scan_digits (c_zero :: repeat c_zero k ++ uint_chars u))
      with (let '(v, r) := scan_digits (repeat c_zero k ++ uint_chars u) in
            (Decimal.D0 v, r)).
    destruct (scan_digits (repeat c_zero k ++ uint_chars u)) as [v r].
    exact IH.
Qed.

Lemma format_04d_inj z1 z2 :
  0 <= z1 -> 0 <= z2 -> format_04d z1 = format_04d z2 -> z1 = z2.
Proof.
  intros H1 H2 H.
  destruct (format_04d_nonneg z1 H1) as (k1 & u1 & E1 & <-).
  destruct (format_04d_nonneg z2 H2) as (k2 & u2 & E2 & <-).
  rewrite <- (scan_digits_zeros k1 u1), <- (scan_digits_zeros k2 u2).
  now rewrite <- E1, <- E2, H.
Qed.

Lemma format_04d_digits z :
  0 <= z -> Forall (fun c => is_digit c = true) (format_04d z).
Proof.
  intros Hz. destruct (format_04d_nonneg z Hz) as (k & u & -> & _).
  apply Forall_app. split; [|apply uint_chars_digits].
  apply Forall_forall. intros c Hc. apply repeat_spec in Hc. now subst.
Qed.

(** The stem and the rank can be read off a name. *)
Lemma rank_name_inj s1 s2 r1 r2 tail :
  0 <= r1 -> 0 <= r2 ->
  s1 ++ lit "__rank" ++ format_04d r1 ++ tail
  = s2 ++ lit "__rank" ++ format_04d r2 ++ tail ->
  s1 = s2 /\ r1 = r2.
Proof.
  intros H1 H2 H.
  replace (s1 ++ lit "__rank" ++ format_04d r1 ++ tail)
    with ((s1 ++ lit "__ran" ++ 107%N :: format_04d r1) ++ tail) in H
    by (rewrite <- !app_assoc; reflexivity).
  replace (s2 ++ lit "__rank" ++ format_04d r2 ++ tail)
    with ((s2 ++ lit "__ran" ++ 107%N :: format_04d r2) ++ tail) in H
    by (rewrite <- !app_assoc; reflexivity).
  apply app_inv_tail in H.
  apply (f_equal (@rev N)) in H.
  rewrite !rev_app_distr in H. cbn [rev] in H.
  rewrite <- !app_assoc in H. cbn [app] in H.
  apply span_unique with (P := is_digit) in H;
    try reflexivity; try (apply Forall_rev; now apply format_04d_digits).
  destruct H as (Hf & _ & Hs).
  apply (f_equal (@rev N)) in Hf. rewrite !rev_involutive in Hf.
  apply format_04d_inj in Hf; try assumption.
  apply app_inv_head in Hs.
  apply (f_equal (@rev N)) in Hs. rewrite !rev_involutive in Hs.
  auto.
Qed.

Lemma out_name_inj s1 s2 r1 r2 :
  0 <= r1 -> 0 <= r2 -> out_name s1 r1 = out_name s2 r2 -> s1 = s2 /\ r1 = r2.
Proof. intros H1 H2. unfold out_name. now apply rank_name_inj. Qed.

Lemma ckpt_name_inj s1 s2 r1 r2 :
  0 <= r1 -> 0 <= r2 -> ckpt_name s1 r1 = ckpt_name s2 r2 -> s1 = s2 /\ r1 = r2.
Proof. intros H1 H2. unfold ckpt_name. now apply rank_name_inj. Qed.

(** ** The main loop *)

Lemma read_rank_ckpt_written b offset s :
  read_rank_ckpt b (_write_rank_ckpt offset s) = offset.
Proof.
  unfold read_rank_ckpt, _write_rank_ckpt. cbn [ckpt_file].
  now rewrite ckpt_offset_row_offset.
Qed.

Lemma read_rank_ckpt_out b out out' c :
  read_rank_ckpt b (mkStore out c) = read_rank_ckpt b (mkStore out' c).
Proof. reflexivity. Qed.

Section MainLoop.

Variable b : builtins.
Variable cfg : config.
Variable srv : server.
Variable read_parquet : pystr -> frame.

(** A file that is not a file of this rank for one of the batches stays
    as it is. *)
Lemma main_loop_frame files : forall d w d' w',
  main_loop b cfg srv read_parquet files d w = Ok (d', w') ->
  (forall n,
      (forall pq, In pq files -> n <> out_name (path_stem pq) (world_rank cfg)) ->
      outputs d' n = outputs d n)
  /\ (forall n,
      (forall pq, In pq files -> n <> ckpt_name (path_stem pq) (world_rank cfg)) ->
      checkpoints d' n = checkpoints d n).
Proof.
  induction files as [|pq rest IH]; intros d w d' w' H.
  - injection H as <- <-. auto.
  - cbn [main_loop] in H.
    destruct (process_file_row_sharded _ _ _ _ _ _) as [st|]; [|discriminate].
    apply IH in H. destruct H as (Ho & Hc). split; intros n Hn.
    + rewrite Ho by (intros pq' Hin; apply Hn; now right).
      cbn [put_store outputs].
      destruct (str_eqb n (out_name (path_stem pq) (world_rank cfg))) eqn:E;
        [|reflexivity].
      apply str_eqb_eq in E. exfalso. apply (Hn pq); [now left|exact E].
    + rewrite Hc by (intros pq' Hin; apply Hn; now right).
      cbn [put_store checkpoints].
      destruct (str_eqb n (ckpt_name (path_stem pq) (world_rank cfg))) eqn:E;
        [|reflexivity].
      apply str_eqb_eq in E. exfalso. apply (Hn pq); [now left|exact E].
Qed.

(** With a rank and a world size as MPI gives them, checkpoints that
    hold no negative offset and a [to_parquet] that writes every frame,
    the loop ends normally and leaves such checkpoints. *)
Lemma main_loop_ok files : forall d w,
  0 <= world_rank cfg -> 0 < world_size cfg ->
  writes_all b ->
  ckpts_nonneg b d ->
  exists d' w',
    main_loop b cfg srv read_parquet files d w = Ok (d', w')
    /\ ckpts_nonneg b d'.
Proof.
  induction files as [|pq rest IH]; intros d w Hr HW Hw Hd.
  - exists d, w. auto.
  - cbn [main_loop].
    destruct (process_file_ok b cfg srv (read_parquet pq)
                (store_of d pq (world_rank cfg)) w Hr HW)
      as (rows_ & st1 & st2 & _ & _ & _ & _ & -> & _); [|exact Hw|].
    { unfold store_of.
      rewrite (read_rank_ckpt_out b _ None). apply Hd. }
    apply IH; try assumption.
    intros n. cbn [put_store checkpoints].
    destruct (str_eqb n (ckpt_name (path_stem pq) (world_rank cfg))).
    + cbn [do_write_ckpt st_store].
      rewrite (read_rank_ckpt_out b _ (out_file (st_store st2))).
      change (mkStore (out_file (st_store st2))
                (ckpt_file (_write_rank_ckpt (py_len rows_) (st_store st2))))
        with (_write_rank_ckpt (py_len rows_) (st_store st2)).
      rewrite read_rank_ckpt_written. unfold py_len. lia.
    + apply Hd.
Qed.

End MainLoop.

(** ** Decoding what [dumps] wrote *)

Lemma json_induction (P : json -> Prop) :
  P JNull -> (forall b, P (JBool b)) -> (forall z, P (JInt z)) ->
  (forall l, P (JFloat l)) -> (forall s, P (JStr s)) ->
  (forall l, Forall P l -> P (JArr l)) ->
  (forall d, Forall (fun kv => P (snd kv)) d -> P (JObj d)) ->
  forall j, P j.
Proof.
  intros Hnull Hbool Hint Hfloat Hstr Harr Hobj.
  fix IH 1. intros [| b | z | l | s | items | members].
  - exact Hnull.
  - apply Hbool.
  - apply Hint.
  - apply Hfloat.
  - apply Hstr.
  - apply Harr. induction items as [|i items IHl]; constructor.
    + apply IH.
    + exact IHl.
  - apply Hobj. induction members as [|[k v] members IHl]; constructor.
    + apply IH.
    + exact IHl.
Qed.

(** One escaped character is read back as the character. *)
Lemma scan_escape c rest :
  scanstring (escape_char c ++ rest) = cons_char c (scanstring rest).
Proof.
  unfold escape_char.
  destruct (N.eqb_spec c c_dquote) as [->|H1]; [reflexivity|].
  destruct (N.eqb_spec c c_backslash) as [->|H2]; [reflexivity|].
  destruct (N.eqb_spec c 10) as [->|H3]; [reflexivity|].
  destruct (N.eqb_spec c 13) as [->|H4]; [reflexivity|].
  destruct (N.eqb_spec c 9) as [->|H5]; [reflexivity|].
  destruct (N.eqb_spec c 8) as [->|H6]; [reflexivity|].
  destruct (N.eqb_spec c 12) as [->|H7]; [reflexivity|].
  destruct (N.ltb_spec c 32) as [Hlt|Hge].
  - assert (Hc : In c (map N.of_nat (seq 0 32))).
    { apply in_map_iff. exists (N.to_nat c). split; [lia|].
      apply in_seq. lia. }
    cbn in Hc.
    repeat (destruct Hc as [<-|Hc];
            [try congruence;
             destruct rest as [|b [|u [|g1 [|g2 [|g3 [|g4 r3]]]]]];
             reflexivity|]).
    contradiction.
  - cbn [app scanstring].
    apply N.eqb_neq in H1, H2. rewrite H1, H2.
    destruct (N.leb_spec c 31); [lia|]. reflexivity.
Qed.

Lemma scanstring_encode s rest :
  scanstring (flat_map escape_char s ++ c_dquote :: rest) = Some (s, rest).
Proof.
  induction s as [|c s IH]; [reflexivity|].
  cbn [flat_map]. rewrite <- app_assoc, scan_escape, IH. reflexivity.
Qed.

Lemma scan_once_string f s rest :
  scan_once (S f) (encode_basestring s ++ rest) = Some (JStr s, rest).
Proof.
  unfold encode_basestring. rewrite scan_once_S. cbn [app].
  change (c_dquote =? c_dquote)%N with true. cbv iota.
  rewrite <- app_assoc. cbn [app]. now rewrite scanstring_encode.
Qed.

Lemma dumps_opens j : textual j -> opens (dumps j).
Proof.
  intros [s|l _|d _ _]; cbn [dumps]; unfold encode_basestring, opens; eauto 8.
Qed.

Lemma opens_skip_ws s x : opens s -> skip_ws (s ++ x) = s ++ x.
Proof.
  intros (c & t & Hs & H). subst s.
  destruct H as [H|[H|H]]; subst c; reflexivity.
Qed.

Lemma opens_app s x : opens s -> opens (s ++ x).
Proof. intros (c & t & Hs & H). subst s. exists c, (t ++ x). auto. Qed.

Lemma join_cons2 sep (p q : pystr) rest :
  join sep (p :: q :: rest) = p ++ sep ++ join sep (q :: rest).
Proof. reflexivity. Qed.

Lemma join_opens sep p rest : opens p -> opens (join sep (p :: rest)).
Proof.
  intros H. destruct rest as [|q rest]; [exact H|].
  rewrite join_cons2. now apply opens_app.
Qed.

Lemma join_length sep (p : pystr) rest :
  (length p <= length (join sep (p :: rest)))%nat
  /\ match rest with
     | [] => True
     | q :: rest' =>
       (length p + length sep + length (join sep (q :: rest'))
        = length (join sep (p :: q :: rest')))%nat
     end.
Proof.
  destruct rest as [|q rest].
  - cbn [join]. auto.
  - rewrite join_cons2, !length_app. split; lia.
Qed.

Lemma array_items_read items :
  Forall reads_back items -> Forall textual items -> items <> [] ->
  forall g acc rest,
    (length (join (lit ", ") (map dumps items)) < g)%nat ->
    array_loop g acc (join (lit ", ") (map dumps items) ++ c_rbracket :: rest)
    = Some (JArr (acc ++ items), rest).
Proof.
  induction items as [|i items IH]; intros Hread Htext Hne g acc rest Hg;
    [congruence|].
  apply Forall_cons_iff in Hread. destruct Hread as (Hi & Hread).
  apply Forall_cons_iff in Htext. destruct Htext as (Ti & Htext).
  destruct g as [|g]; [lia|]. rewrite array_loop_S.
  destruct items as [|j items].
  - cbn [map join] in *. rewrite Hi by lia.
    change (skip_ws (c_rbracket :: rest)) with (c_rbracket :: rest).
    cbv iota. change (c_rbracket =? c_rbracket)%N with true. reflexivity.
  - cbn [map] in *. rewrite join_cons2 in *. rewrite <- !app_assoc.
    rewrite length_app, length_app in Hg.
    change (length (lit ", ")) with 2%nat in Hg.
    rewrite Hi by lia.
    change (lit ", " ++ join (lit ", ") (dumps j :: map dumps items)
            ++ c_rbracket :: rest)
      with (c_comma :: c_space :: join (lit ", ") (dumps j :: map dumps items)
            ++ c_rbracket :: rest).
    change (skip_ws (c_comma :: c_space
                     :: join (lit ", ") (dumps j :: map dumps items)
                     ++ c_rbracket :: rest))
      with (c_comma :: c_space
            :: join (lit ", ") (dumps j :: map dumps items)
            ++ c_rbracket :: rest).
    cbv iota. change (c_comma =? c_rbracket)%N with false.
    change (c_comma =? c_comma)%N with true. cbv iota.
    change (skip_ws (c_space :: join (lit ", ") (dumps j :: map dumps items)
                     ++ c_rbracket :: rest))
      with (skip_ws (join (lit ", ") (dumps j :: map dumps items)
                     ++ c_rbracket :: rest)).
    rewrite opens_skip_ws
      by (apply join_opens, dumps_opens; now apply Forall_inv in Htext).
    rewrite (IH Hread Htext) by (try discriminate; lia).
    rewrite <- app_assoc. reflexivity.
Qed.

Lemma dict_set_fresh k v d :
  ~ In k (dict_keys d) -> dict_set k v d = d ++ [(k, v)].
Proof.
  induction d as [|[k' v'] d IH]; intros Hk; [reflexivity|].
  cbn [dict_set app]. destruct (str_eqb k k') eqn:E.
  - apply str_eqb_eq in E. subst. exfalso. apply Hk. now left.
  - rewrite IH; [reflexivity|]. intros Hin. apply Hk. now right.
Qed.

Lemma object_loop_member g acc k v x :
  reads_back v -> textual v -> (length (dumps v) <= g)%nat ->
  object_loop (S g) acc (member_text (k, v) ++ x)
  = match skip_ws x with
    | [] => None
    | c4 :: r4 =>
      if (c4 =? c_rbrace)%N then Some (JObj (dict_set k v acc), r4)
      else if (c4 =? c_comma)%N
           then object_loop g (dict_set k v acc) (skip_ws r4)
           else None
    end.
Proof.
  intros Hv Tv Hg. rewrite object_loop_S.
  unfold member_text, encode_basestring. cbn [fst snd app].
  change (c_dquote =? c_dquote)%N with true. cbv iota.
  rewrite <- !app_assoc. cbn [app]. rewrite scanstring_encode.
  change (lit ": " ++ dumps v ++ x) with (c_colon :: c_space :: dumps v ++ x).
  change (skip_ws (c_colon :: c_space :: dumps v ++ x))
    with (c_colon :: c_space :: dumps v ++ x).
  cbv iota. change (c_colon =? c_colon)%N with true. cbv iota.
  change (skip_ws (c_space :: dumps v ++ x)) with (skip_ws (dumps v ++ x)).
  rewrite opens_skip_ws by now apply dumps_opens.
  rewrite Hv by exact Hg. reflexivity.
Qed.

Lemma member_text_opens p : opens (member_text p).
Proof.
  unfold member_text, encode_basestring, opens. cbn [app]. eauto 8.
Qed.

Lemma member_text_length p :
  (length (dumps (snd p)) + 4 <= length (member_text p))%nat.
Proof.
  unfold member_text, encode_basestring. cbn [length app].
  rewrite !length_app. cbn [length].
  change (length (lit ": ")) with 2%nat. lia.
Qed.

Lemma object_members_read members :
  Forall (fun kv => reads_back (snd kv)) members ->
  Forall (fun kv => textual (snd kv)) members ->
  members <> [] ->
  forall g acc rest,
    NoDup (dict_keys (acc ++ members)) ->
    (length (join (lit ", ") (map member_text members)) < g)%nat ->
    object_loop g acc
                (join (lit ", ") (map member_text members) ++ c_rbrace :: rest)
    = Some (JObj (acc ++ members), rest).
Proof.
  induction members as [|[k v] members IH];
    intros Hread Htext Hne g acc rest Hnd Hg; [congruence|].
  apply Forall_cons_iff in Hread. destruct Hread as (Hv & Hread).
  apply Forall_cons_iff in Htext. destruct Htext as (Tv & Htext).
  cbn [snd] in Hv, Tv.
  assert (Hfresh : ~ In k (dict_keys acc)).
  { unfold dict_keys in *. rewrite map_app in Hnd. cbn [map fst] in Hnd.
    apply NoDup_remove_2 in Hnd. intros Hin. apply Hnd.
    apply in_or_app. now left. }
  pose proof (member_text_length (k, v)) as Hlen. cbn [snd] in Hlen.
  destruct g as [|g]; [lia|].
  destruct members as [|m members].
  - cbn [map join] in *.
    rewrite object_loop_member by (try assumption; lia).
    change (skip_ws (c_rbrace :: rest)) with (c_rbrace :: rest).
    cbv iota. change (c_rbrace =? c_rbrace)%N with true. cbv iota.
    now rewrite dict_set_fresh.
  - cbn [map] in *. rewrite join_cons2 in *. rewrite <- !app_assoc.
    rewrite length_app, length_app in Hg.
    change (length (lit ", ")) with 2%nat in Hg.
    rewrite object_loop_member by (try assumption; lia).
    change (lit ", " ++ join (lit ", ") (member_text m :: map member_text members)
            ++ c_rbrace :: rest)
      with (c_comma :: c_space
            :: join (lit ", ") (member_text m :: map member_text members)
            ++ c_rbrace :: rest).
    change (skip_ws (c_comma :: c_space
                     :: join (lit ", ")
                          (member_text m :: map member_text members)
                     ++ c_rbrace :: rest))
      with (c_comma :: c_space
            :: join (lit ", ") (member_text m :: map member_text members)
            ++ c_rbrace :: rest).
    cbv iota. change (c_comma =? c_rbrace)%N with false.
    change (c_comma =? c_comma)%N with true. cbv iota.
    change (skip_ws (c_space
                     :: join (lit ", ")
                          (member_text m :: map member_text members)
                     ++ c_rbrace :: rest))
      with (skip_ws (join (lit ", ")
                       (member_text m :: map member_text members)
                     ++ c_rbrace :: rest)).
    rewrite opens_skip_ws by apply join_opens, member_text_opens.
    rewrite dict_set_fresh by exact Hfresh.
    rewrite (IH Hread Htext).
    + rewrite <- app_assoc. reflexivity.
    + discriminate.
    + rewrite <- app_assoc. exact Hnd.
    + lia.
Qed.

(** The decoder reads back the text of every value made of strings,
    lists and objects with distinct keys. *)
Lemma textual_reads_back j : textual j -> reads_back j.
Proof.
  induction j as [| b | z | l | s | items IH | members IH]
    using json_induction; intros T; inversion T; subst.
  - intros f rest Hf. destruct f as [|f]; [cbn in Hf; lia|].
    apply scan_once_string.
  - intros f rest Hf. cbn [dumps] in *.
    destruct f as [|f]; [cbn [length] in Hf; lia|].
    rewrite scan_once_S. cbn [app].
    change (c_lbracket =? c_dquote)%N with false.
    change (c_lbracket =? c_lbrace)%N with false.
    change (c_lbracket =? c_lbracket)%N with true. cbv iota.
    destruct items as [|i items].
    + reflexivity.
    + assert (Hread : Forall reads_back (i :: items)).
      { rewrite Forall_forall in *. intros x Hx. apply IH; auto. }
      rewrite <- app_assoc. cbn [app].
      assert (Hop : opens (join (lit ", ") (map dumps (i :: items)))).
      { cbn [map]. apply join_opens, dumps_opens.
        now apply Forall_inv in H0. }
      rewrite opens_skip_ws by exact Hop.
      pose proof (array_items_read (i :: items) Hread H0
                    ltac:(discriminate) f [] rest) as Harr.
      cbn [length] in Hf. rewrite length_app in Hf. cbn [length] in Hf.
      specialize (Harr ltac:(lia)).
      destruct Hop as (c & t & Ht & Hc).
      rewrite Ht in *. cbn [app] in *.
      assert (Hnot : (c =? c_rbracket)%N = false)
        by (destruct Hc as [-> | [-> | ->]]; reflexivity).
      rewrite Hnot. exact Harr.
  - intros f rest Hf.
    change (dumps (JObj members))
      with (c_lbrace :: join (lit ", ") (map member_text members)
                     ++ [c_rbrace]) in *.
    destruct f as [|f]; [cbn [length] in Hf; lia|].
    rewrite scan_once_S. cbn [app].
    change (c_lbrace =? c_dquote)%N with false.
    change (c_lbrace =? c_lbrace)%N with true. cbv iota.
    destruct members as [|m members].
    + reflexivity.
    + assert (Hread : Forall (fun kv => reads_back (snd kv)) (m :: members)).
      { rewrite Forall_forall in *. intros x Hx. apply IH; auto. }
      rewrite <- app_assoc. cbn [app].
      assert (Hop : opens (join (lit ", ") (map member_text (m :: members)))).
      { cbn [map]. apply join_opens, member_text_opens. }
      rewrite opens_skip_ws by exact Hop.
      pose proof (object_members_read (m :: members) Hread H1
                    ltac:(discriminate) f [] rest H0) as Hobj.
      cbn [length] in Hf. rewrite length_app in Hf. cbn [length] in Hf.
      specialize (Hobj ltac:(lia)).
      destruct Hop as (c & t & Ht & Hc).
      assert (Hq : c = c_dquote).
      { cbn [map] in Ht. destruct members; cbn [map join] in Ht;
          unfold member_text, encode_basestring in Ht; cbn [app] in Ht;
          congruence. }
      rewrite Ht in *. cbn [app] in *. subst c.
      change (c_dquote =? c_rbrace)%N with false. exact Hobj.
Qed.

Lemma textual_loads j : textual j -> json_loads (dumps j) = Some j.
Proof.
  intros T. unfold json_loads.
  rewrite <- (app_nil_r (dumps j)) at 2.
  rewrite opens_skip_ws by now apply dumps_opens.
  rewrite (textual_reads_back j T) by lia.
  reflexivity.
Qed.

(** ** The keys of a decoded object are distinct *)

Lemma dict_set_In x k v d :
  In x (dict_keys (dict_set k v d)) -> x = k \/ In x (dict_keys d).
Proof.
  induction d as [|[k' v'] d IH]; cbn [dict_set].
  - cbn. intros [<-|[]]. now left.
  - destruct (str_eqb k k') eqn:E; cbn [dict_keys map fst].
    + apply str_eqb_eq in E. subst. intros [<-|H]; [now left|right; now right].
    + intros [<-|H]; [right; now left|].
      destruct (IH H) as [->|Hin]; [now left|right; now right].
Qed.

Lemma dict_set_NoDup k v d :
  NoDup (dict_keys d) -> NoDup (dict_keys (dict_set k v d)).
Proof.
  induction d as [|[k' v'] d IH]; cbn [dict_set]; intros Hnd.
  - repeat constructor. intros [].
  - destruct (str_eqb k k') eqn:E; cbn [dict_keys map fst] in *.
    + apply str_eqb_eq in E. now subst.
    + inversion Hnd as [|? ? Hk Hd]; subst. constructor; [|now apply IH].
      intros Hin. apply dict_set_In in Hin. destruct Hin as [->|Hin].
      * rewrite (proj2 (str_eqb_eq k k) eq_refl) in E. discriminate.
      * now apply Hk.
Qed.

Lemma dict_set_Forall (P : pystr * json -> Prop) k v d :
  (forall k', P (k', v)) -> Forall P d -> Forall P (dict_set k v d).
Proof.
  intros Hv. induction 1 as [|[k' v'] d Hx Hd IH]; cbn [dict_set].
  - repeat constructor. apply Hv.
  - destruct (str_eqb k k'); constructor; auto.
Qed.

Lemma match_number_distinct s v r :
  match_number s = Some (v, r) -> distinct_keys v.
Proof.
  unfold match_number. repeat break_match; try discriminate;
    intros [= <- <-]; constructor.
Qed.

Lemma scan_atom_distinct s v r : scan_atom s = Some (v, r) -> distinct_keys v.
Proof.
  unfold scan_atom. repeat break_match;
    try (intros H; exact (match_number_distinct _ _ _ H));
    intros [= <- <-]; constructor.
Qed.

Lemma distinct_keys_empty :
  distinct_keys (JObj []) /\ distinct_keys (JArr []).
Proof.
  split; constructor; constructor.
Qed.

Lemma decoder_distinct g :
  (forall s v r, scan_once g s = Some (v, r) -> distinct_keys v)
  /\ (forall acc s v r,
         distinct_keys (JObj acc) ->
         object_loop g acc s = Some (v, r) -> distinct_keys v)
  /\ (forall acc s v r,
         distinct_keys (JArr acc) ->
         array_loop g acc s = Some (v, r) -> distinct_keys v).
Proof.
  induction g as [|g (IHscan & IHobj & IHarr)].
  - repeat split; intros; discriminate.
  - split; [|split].
    + intros s v r H. rewrite scan_once_S in H.
      destruct s as [|c r0]; [discriminate|].
      destruct (c =? c_dquote)%N.
      { destruct (scanstring r0) as [[str r']|]; [|discriminate].
        injection H as <- <-. constructor. }
      destruct (c =? c_lbrace)%N.
      { destruct (skip_ws r0) as [|c' r']; [discriminate|].
        destruct (c' =? c_rbrace)%N.
        - injection H as <- <-. apply distinct_keys_empty.
        - apply (IHobj _ _ _ _ (proj1 distinct_keys_empty) H). }
      destruct (c =? c_lbracket)%N.
      { destruct (skip_ws r0) as [|c' r']; [discriminate|].
        destruct (c' =? c_rbracket)%N.
        - injection H as <- <-. apply distinct_keys_empty.
        - apply (IHarr _ _ _ _ (proj2 distinct_keys_empty) H). }
      now apply scan_atom_distinct in H.
    + intros acc s v r Hacc H. rewrite object_loop_S in H.
      destruct s as [|q r0]; [discriminate|].
      destruct (q =? c_dquote)%N; [|discriminate].
      destruct (scanstring r0) as [[key r1]|]; [|discriminate].
      destruct (skip_ws r1) as [|c2 r2]; [discriminate|].
      destruct (c2 =? c_colon)%N; [|discriminate].
      destruct (scan_once g (skip_ws r2)) as [[v0 r3]|] eqn:Ev; [|discriminate].
      apply IHscan in Ev.
      assert (Hset : distinct_keys (JObj (dict_set key v0 acc))).
      { inversion Hacc; subst. constructor.
        - now apply dict_set_NoDup.
        - now apply dict_set_Forall. }
      destruct (skip_ws r3) as [|c4 r4]; [discriminate|].
      destruct (c4 =? c_rbrace)%N.
      * now injection H as <- <-.
      * destruct (c4 =? c_comma)%N; [|discriminate].
        now apply (IHobj _ _ _ _ Hset H).
    + intros acc s v r Hacc H. rewrite array_loop_S in H.
      destruct (scan_once g s) as [[v0 r1]|] eqn:Ev; [|discriminate].
      apply IHscan in Ev.
      assert (Happ : distinct_keys (JArr (acc ++ [v0]))).
      { inversion Hacc; subst. constructor. apply Forall_app. auto. }
      destruct (skip_ws r1) as [|c r2]; [discriminate|].
      destruct (c =? c_rbracket)%N.
      * now injection H as <- <-.
      * destruct (c =? c_comma)%N; [|discriminate].
        now apply (IHarr _ _ _ _ Happ H).
Qed.

Lemma json_loads_distinct s v : json_loads s = Some v -> distinct_keys v.
Proof.
  unfold json_loads.
  destruct (scan_once _ _) as [[v0 r]|] eqn:E; [|discriminate].
  destruct (skip_ws r); [|discriminate]. intros [= <-].
  now apply (proj1 (decoder_distinct _)) in E.
Qed.

(** ** What the validator leaves through *)

Lemma dict_get_In k v d :
  NoDup (dict_keys d) -> In (k, v) d -> dict_get k d = Some v.
Proof.
  induction d as [|[k' v'] d IH]; intros Hnd Hin; [destruct Hin|].
  cbn [dict_keys map fst] in Hnd. inversion Hnd as [|? ? Hk Hd]; subst.
  cbn [dict_get]. destruct Hin as [[= -> ->]|Hin].
  - now rewrite (proj2 (str_eqb_eq k k) eq_refl).
  - destruct (str_eqb k k') eqn:E; [|now apply IH].
    apply str_eqb_eq in E. subst. exfalso. apply Hk.
    apply in_map_iff. now exists (k', v).
Qed.

Lemma dict_get_Some_In k v d : dict_get k d = Some v -> In (k, v) d.
Proof.
  induction d as [|[k' v'] d IH]; cbn [dict_get]; [discriminate|].
  destruct (str_eqb k k') eqn:E.
  - apply str_eqb_eq in E. subst. intros [= ->]. now left.
  - intros H. right. now apply IH.
Qed.

(** Every member of a valid object without additional properties is
    declared, with a valid value. *)
Lemma valid_object_members req props d k v :
  NoDup (dict_keys d) ->
  is_valid (SObject req false props) (JObj d) = true ->
  In (k, v) d ->
  exists sc, In (k, sc) props /\ is_valid sc v = true.
Proof.
  intros Hnd Hvalid Hin. cbn [is_valid] in Hvalid.
  apply andb_true_iff in Hvalid. destruct Hvalid as (Hvalid & Hprops).
  apply andb_true_iff in Hvalid. destruct Hvalid as (_ & Hkeys).
  cbn [orb] in Hkeys. rewrite forallb_forall in Hkeys, Hprops.
  assert (Hk : schema_has k props = true).
  { apply Hkeys. apply in_map_iff. now exists (k, v). }
  unfold schema_has in Hk. apply existsb_exists in Hk.
  destruct Hk as ([k' sc] & Hp & E). cbn [fst] in E.
  apply str_eqb_eq in E. subst k'.
  exists sc. split; [exact Hp|].
  specialize (Hprops _ Hp). cbn [fst snd] in Hprops.
  now rewrite (dict_get_In _ _ _ Hnd Hin) in Hprops.
Qed.

Lemma valid_string_textual ml v : is_valid (SString ml) v = true -> textual v.
Proof. destruct v; try discriminate. constructor. Qed.

Lemma valid_string_list_textual ml mi v :
  is_valid (SArray (SString ml) mi) v = true -> textual v.
Proof.
  destruct v as [| | | | |items|]; try discriminate. cbn [is_valid].
  intros H. apply andb_true_iff in H. destruct H as (H & _).
  constructor. rewrite forallb_forall in H. apply Forall_forall.
  intros x Hx. apply (valid_string_textual ml). now apply H.
Qed.

(** A valid object is textual when the values its schema declares
    are. *)
Lemma valid_object_textual req props j :
  distinct_keys j ->
  is_valid (SObject req false props) j = true ->
  (forall k sc v, In (k, sc) props -> distinct_keys v ->
                  is_valid sc v = true -> textual v) ->
  textual j.
Proof.
  intros Hd Hvalid Hprops.
  destruct (is_valid_object_shape _ _ _ _ Hvalid) as (d & ->).
  inversion Hd as [| | | | | |? Hnd Hall]; subst.
  constructor; [exact Hnd|].
  rewrite Forall_forall in *. intros [k v] Hin. cbn [snd].
  destruct (valid_object_members _ _ _ _ _ Hnd Hvalid Hin) as (sc & Hsc & Hv).
  apply (Hprops k sc v Hsc); [|exact Hv].
  apply (Hall (k, v) Hin).
Qed.

Ltac declared_cases H :=
  cbn [In] in H;
  repeat match type of H with
         | _ \/ _ => destruct H as [H|H]
         | False => destruct H
         end;
  try (injection H as <- <-).

Lemma valid_equiv_form_textual e :
  distinct_keys e -> is_valid equiv_form_schema e = true -> textual e.
Proof.
  intros Hd Hv. apply (valid_object_textual _ _ _ Hd Hv).
  intros k sc v Hin _ Hval. declared_cases Hin.
  - now apply valid_string_textual in Hval.
  - now apply valid_string_list_textual in Hval.
  - now apply valid_string_textual in Hval.
Qed.

Lemma valid_output_textual obj :
  distinct_keys obj -> is_valid PURE_MATH_JSON_SCHEMA obj = true ->
  textual obj.
Proof.
  intros Hd Hv. apply (valid_object_textual _ _ _ Hd Hv).
  intros k sc v Hin Hdv Hval. declared_cases Hin.
  - apply (valid_object_textual _ _ _ Hdv Hval).
    intros k' sc' v' Hin' _ Hval'. declared_cases Hin'.
    now apply valid_string_textual in Hval'.
  - apply (valid_object_textual _ _ _ Hdv Hval).
    intros k' sc' v' Hin' _ Hval'. declared_cases Hin'.
    + now apply valid_string_list_textual in Hval'.
    + now apply valid_string_textual in Hval'.
    + now apply valid_string_textual in Hval'.
  - apply (valid_object_textual _ _ _ Hdv Hval).
    intros k' sc' v' Hin' Hdv' Hval'. declared_cases Hin'.
    + now apply valid_equiv_form_textual.
    + now apply valid_equiv_form_textual.
Qed.

Lemma parse_ok_loads s obj :
  parse_strict_json s = Ok obj ->
  exists m, search_final_object s = Some m /\ json_loads m = Some obj.
Proof.
  unfold parse_strict_json.
  destruct (search_final_object s) as [m|]; [|discriminate].
  destruct (json_loads m) as [o|] eqn:E; [|discriminate].
  destruct (validate _ o); [|discriminate]. intros [= <-]. eauto.
Qed.

Lemma parse_ok_textual s obj : parse_strict_json s = Ok obj -> textual obj.
Proof.
  intros H. destruct (parse_ok_loads _ _ H) as (m & _ & Hl).
  apply valid_output_textual.
  - now apply json_loads_distinct in Hl.
  - now apply parse_ok_valid in H.
Qed.

Lemma textual_member j k v :
  textual j -> getitem_key j k = Some v -> textual v.
Proof.
  intros T H. destruct j as [| | | | | |d]; try discriminate.
  inversion T as [| |? _ Hall]; subst. cbn in H.
  apply dict_get_Some_In in H. rewrite Forall_forall in Hall.
  apply (Hall (k, v) H).
Qed.

(** ** The schema, read as a shape *)

Lemma accepted_text n v : accepted (SString (Some n)) v <-> is_text n v.
Proof.
  unfold accepted, is_text. split.
  - intros (_ & H). destruct v; try discriminate. cbn [is_valid] in H.
    apply Z.leb_le in H. eauto.
  - intros (s & -> & H). split; [constructor|].
    cbn [is_valid]. now apply Z.leb_le.
Qed.

Lemma valid_strings items :
  forallb (is_valid (SString None)) items = true ->
  exists l, items = map JStr l.
Proof.
  induction items as [|i items IH]; cbn [forallb]; intros H.
  - now exists [].
  - apply andb_true_iff in H. destruct H as (Hi & H).
    destruct (IH H) as (l & ->).
    destruct i; try discriminate. now exists (s :: l).
Qed.

Lemma strings_valid l :
  forallb (is_valid (SString None)) (map JStr l) = true
  /\ Forall distinct_keys (map JStr l).
Proof.
  induction l as [|s l (IH1 & IH2)]; cbn [map forallb]; split; auto.
  constructor; [constructor|exact IH2].
Qed.

Lemma accepted_text_list mi v :
  accepted (SArray (SString None) mi) v <-> is_text_list mi v.
Proof.
  unfold accepted, is_text_list. split.
  - intros (_ & H). destruct v as [| | | | |items|]; try discriminate.
    cbn [is_valid] in H. apply andb_true_iff in H. destruct H as (H & Hm).
    destruct (valid_strings _ H) as (l & ->). exists l. split; [reflexivity|].
    destruct mi as [n|]; [|exact I].
    apply Z.leb_le in Hm. unfold py_len in *. now rewrite length_map in Hm.
  - intros (l & -> & Hm). destruct (strings_valid l) as (H1 & H2).
    split; [now constructor|].
    change (forallb (is_valid (SString None)) (map JStr l)
            && match mi with
               | Some n => py_len (map JStr l) <=? n
               | None => true
               end = true).
    apply andb_true_iff. split; [exact H1|].
    destruct mi as [n|]; [|reflexivity].
    apply Z.leb_le. unfold py_len in *. now rewrite length_map.
Qed.

(** An object schema that requires every property it declares and
    allows no other, read as a shape. *)
Lemma accepted_object props fields v :
  NoDup (map fst props) ->
  Forall2 (fun p f => fst p = fst f
                      /\ forall x, accepted (snd p) x <-> snd f x)
          props fields ->
  accepted (SObject (map fst props) false props) v <-> object_of fields v.
Proof.
  intros Hnd Hfields.
  assert (Hkeys : map fst props = map fst fields).
  { induction Hfields as [|p f props fields (Hk & _) _ IH]; [reflexivity|].
    cbn [map]. inversion Hnd; subst. f_equal; auto. }
  unfold accepted, object_of. split.
  - intros (Hd & Hv).
    destruct (is_valid_object_shape _ _ _ _ Hv) as (d & ->).
    inversion Hd as [| | | | | |? Hnd' Hall]; subst.
    exists d. split; [reflexivity|].
    destruct (is_valid_object_inv _ _ _ _ Hv) as (Hreq & Hprops).
    split.
    + rewrite <- Hkeys. apply NoDup_Permutation; try assumption.
      intros k. split.
      * intros Hin. apply in_map_iff in Hin. destruct Hin as ([k' x] & <- & Hin).
        destruct (valid_object_members _ _ _ _ _ Hnd' Hv Hin) as (sc & Hsc & _).
        apply in_map_iff. now exists (k', sc).
      * intros Hin. destruct (Hreq k Hin) as (x & Hx).
        apply dict_get_Some_In in Hx. apply in_map_iff. now exists (k, x).
    + clear Hkeys Hnd.
      assert (Hp : forall p, In p props ->
                             exists x, dict_get (fst p) d = Some x
                                       /\ accepted (snd p) x).
      { intros [k sc] Hin. cbn [fst snd].
        destruct (Hreq k) as (x & Hx);
          [apply in_map_iff; now exists (k, sc)|].
        exists x. split; [exact Hx|]. split.
        - rewrite Forall_forall in Hall.
          apply (Hall (k, x)). now apply dict_get_Some_In.
        - apply (Hprops k sc x Hin Hx). }
      clear Hreq Hprops Hv Hd.
      induction Hfields as [|p f props fields (Hk & Hiff) _ IH];
        constructor.
      * destruct (Hp p (or_introl eq_refl)) as (x & Hx & Hacc).
        exists x. rewrite <- Hk. split; [exact Hx|]. now apply Hiff.
      * apply IH. intros q Hq. apply Hp. now right.
  - intros (d & -> & Hperm & Hall).
    assert (Hnd' : NoDup (dict_keys d)).
    { apply (Permutation_NoDup (Permutation_sym Hperm)). now rewrite <- Hkeys. }
    assert (Hp : forall k sc, In (k, sc) props ->
                              exists x, dict_get k d = Some x
                                        /\ accepted sc x).
    { clear Hperm Hkeys Hnd Hnd'. intros k sc Hin.
      induction Hfields as [|p f props fields (Hk & Hiff) _ IH];
        [destruct Hin|].
      apply Forall_cons_iff in Hall. destruct Hall as ((x & Hx & Px) & Hall).
      destruct Hin as [->|Hin]; [|now apply IH].
      cbn [fst snd] in *. exists x. rewrite Hk. split; [exact Hx|].
      now apply Hiff. }
    assert (Hmem : forall k x, In (k, x) d ->
                               exists sc, In (k, sc) props /\ accepted sc x).
    { intros k x Hin.
      assert (Hk : In k (map fst props)).
      { rewrite Hkeys. apply (Permutation_in _ Hperm).
        apply in_map_iff. now exists (k, x). }
      apply in_map_iff in Hk. destruct Hk as ([k' sc] & <- & Hsc).
      cbn [fst] in *. exists sc. split; [exact Hsc|].
      destruct (Hp _ _ Hsc) as (x' & Hx' & Hacc).
      rewrite (dict_get_In _ _ _ Hnd' Hin) in Hx'. now injection Hx' as <-. }
    split.
    + constructor; [exact Hnd'|]. apply Forall_forall. intros [k x] Hin.
      destruct (Hmem k x Hin) as (sc & _ & (Hdx & _)). exact Hdx.
    + cbn [is_valid]. rewrite !andb_true_iff. repeat split.
      * apply forallb_forall. intros k Hk.
        apply in_map_iff in Hk. destruct Hk as ([k' sc] & <- & Hsc).
        destruct (Hp _ _ Hsc) as (x & Hx & _). cbn [fst].
        unfold dict_has. now rewrite Hx.
      * cbn [orb]. apply forallb_forall. intros k Hk.
        apply in_map_iff in Hk. destruct Hk as ([k' x] & <- & Hin).
        destruct (Hmem _ _ Hin) as (sc & Hsc & _). cbn [fst].
        unfold schema_has. apply existsb_exists. exists (k', sc).
        split; [exact Hsc|]. now apply str_eqb_eq.
      * apply forallb_forall. intros [k sc] Hsc. cbn [fst snd].
        destruct (Hp _ _ Hsc) as (x & Hx & (_ & Hv)). now rewrite Hx.
Qed.

Ltac distinct_names :=
  cbn [map fst];
  repeat (constructor; [cbn [In]; intuition discriminate|]);
  constructor.

Ltac field_by_field :=
  repeat (apply Forall2_cons;
          [split; [reflexivity|cbn [snd]; intros ?]|]);
  try apply Forall2_nil.

Lemma accepted_equiv_form v :
  accepted equiv_form_schema v <-> equiv_form_shape v.
Proof.
  apply (accepted_object
           [(lit "name_of_trafo", SString (Some 1));
            (lit "assumptions", SArray (SString None) None);
            (lit "latex", SString (Some 1))]).
  - distinct_names.
  - field_by_field.
    + apply accepted_text.
    + apply accepted_text_list.
    + apply accepted_text.
Qed.

Lemma accepted_output v :
  accepted PURE_MATH_JSON_SCHEMA v <-> output_shape v.
Proof.
  apply (accepted_object
           [(lit "input", _); (lit "analysis", _); (lit "equivalents", _)]).
  - distinct_names.
  - field_by_field.
    + apply (accepted_object [(lit "latex_raw", _)]).
      * distinct_names.
      * field_by_field. apply accepted_text.
    + apply (accepted_object
               [(lit "math_keywords", _); (lit "math_sentence", _);
                (lit "katex", _)]).
      * distinct_names.
      * field_by_field.
        -- apply accepted_text_list.
        -- apply accepted_text.
        -- apply accepted_text.
    + apply (accepted_object
               [(lit "equiv_form_1", _); (lit "equiv_form_2", _)]).
      * distinct_names.
      * field_by_field; apply accepted_equiv_form.
Qed.

(** ** A run against a server that answers *)

Section Healthy.

Variable b : builtins.
Variable cfg : config.
Variable srv : server.
Variable df : list Row.

Hypothesis Hsrv : healthy cfg srv.
Hypothesis Hfits : fits cfg df.
Hypothesis Hwrites : writes_all b.

Lemma iloc_In i row : iloc df i = Some row -> In row df.
Proof.
  unfold iloc. cbv zeta.
  destruct ((0 <=? i) && (i <? py_len df)).
  - apply nth_error_In.
  - destruct ((- py_len df <=? i) && (i <? 0)); [|discriminate].
    apply nth_error_In.
Qed.

Lemma process_row_healthy st i :
  0 <= i < py_len df ->
  exists rec st',
    record_of cfg srv df i rec
    /\ process_row b cfg srv df st i = Ok st'
    /\ buffer_record b rec (with_io st (io_post (st_io st))) = Ok st'.
Proof.
  intros Hi. destruct (iloc_in_range df i Hi) as (row & Hrow).
  assert (Hfit : py_len (row_prompt row) <= ctx cfg * 4).
  { unfold fits in Hfits. rewrite Forall_forall in Hfits.
    apply Hfits. now apply iloc_In with i. }
  destruct (Hsrv (posts (st_io st))
                 (request_payload (row_prompt row) (MAX_GENERATION_TOKENS cfg)))
    as (content & Hok).
  assert (Hinf : llama_server_infer srv (SERVER_BASE_PORT cfg) (local_rank cfg)
                   (row_prompt row) (MAX_GENERATION_TOKENS cfg) (st_io st)
                 = (Ok content, io_post (st_io st))).
  { unfold llama_server_infer.
    change (Z.to_nat max_attempts) with 60%nat.
    now apply infer_loop_success. }
  destruct (process_row_answered b cfg srv df st i row content _
                                 Hrow Hfit Hinf) as (rec & Hstep & Hrec).
  destruct (buffer_record_accepted
              b rec (with_io st (io_post (st_io st)))) as (st' & Hbuf).
  { right. apply Hwrites. }
  exists rec, st'. split; [|split; [now rewrite Hstep|exact Hbuf]].
  exists row, content. repeat split; try assumption.
  eexists. exact Hok.
Qed.

Lemma run_rows_healthy indices : forall st,
  Forall (fun i => 0 <= i < py_len df) indices ->
  exists st' new,
    run_rows b cfg srv df st indices = Ok st'
    /\ Forall2 (record_of cfg srv df) indices new
    /\ recorded st' = recorded st ++ new
    /\ st_io st' = mkIo (posts (st_io st) + length indices) (sleeps (st_io st)).
Proof.
  induction indices as [|i rest IH]; intros st Hin.
  - exists st, []. rewrite app_nil_r, Nat.add_0_r.
    repeat split; try constructor. now destruct (st_io st).
  - apply Forall_cons_iff in Hin. destruct Hin as (Hi & Hin).
    destruct (process_row_healthy st i Hi) as (rec & st1 & Hrec & Hrow & Hbuf).
    cbn [run_rows]. rewrite Hrow.
    destruct (IH st1 Hin) as (st' & new & Hrun & Hall & Hstored & Hio).
    exists st', (rec :: new). split; [exact Hrun|].
    destruct (buffer_record_ok _ _ _ _ Hbuf) as (Hb1 & _ & Hb3).
    split; [now constructor|]. split.
    + rewrite Hstored, Hb1. unfold recorded.
      cbn [with_io st_store st_buffer]. now rewrite <- app_assoc.
    + rewrite Hio, Hb3. cbn [with_io st_io io_post posts sleeps length].
      f_equal. lia.
Qed.

End Healthy.

(** ** The address of the server *)

Lemma uint_chars_inj u : forall u', uint_chars u = uint_chars u' -> u = u'.
Proof.
  induction u; intros u' H; destruct u'; cbn [uint_chars] in H;
    try discriminate; try reflexivity;
    injection H as H; f_equal; now apply IHu.
Qed.

Lemma str_of_Z_inj z1 z2 : str_of_Z z1 = str_of_Z z2 -> z1 = z2.
Proof.
  unfold str_of_Z. intros H.
  rewrite <- (DecimalZ.of_to z1), <- (DecimalZ.of_to z2).
  destruct (Z.to_int z1) as [u1|u1], (Z.to_int z2) as [u2|u2].
  - apply uint_chars_inj in H. now subst.
  - destruct u1; discriminate.
  - destruct u2; discriminate.
  - injection H as H. apply uint_chars_inj in H. now subst.
Qed.

(** ** Properties of the inference call and of the row loop *)

(** Whatever the server does, a call of [llama_server_infer] makes [p]
    posts with [1 <= p <= 60] and sleeps exactly [p - 1] times, once
    between two posts; it never ends with the error after the loop
    ("exhausted retries without success"); and when it returns a content,
    its last post was answered 200 with a body whose
    [choices[0].message.content] is that content. *)
Theorem infer_call_effects (srv : server) (SERVER_BASE_PORT local_rank : Z)
        (prompt : pystr) (max_tokens : Z) (w : io) :
  exists p,
    (1 <= p <= 60)%nat
    /\ snd (llama_server_infer srv SERVER_BASE_PORT local_rank prompt
                               max_tokens w)
       = mkIo (posts w + p) (sleeps w + p - 1)
    /\ fst (llama_server_infer srv SERVER_BASE_PORT local_rank prompt
                               max_tokens w)
       <> Raise (RuntimeError RetriesExhausted)
    /\ forall content,
        fst (llama_server_infer srv SERVER_BASE_PORT local_rank prompt
                                max_tokens w) = Ok content ->
        succeeds_with
          (srv (posts w + p - 1)%nat (server_url SERVER_BASE_PORT local_rank)
               (request_payload prompt max_tokens)) content.
Proof. apply llama_server_infer_effects. Qed.

Section LoopTheorems.

Variable b : builtins.
Variable cfg : config.
Variable srv : server.
Variable df : list Row.


(** A row whose answer parses and validates gets a record of twelve
    fields: the six base fields, then [math_keywords], [math_sentence],
    [katex], [equiv_form_1], [equiv_form_2] and [output_json], taken from
    the members [analysis] and [equivalents] of the parsed object, the
    lists and objects as JSON text. When the flush that is then due, if
    one is due, is accepted, the iteration ends normally with that
    record kept and the count one higher; the only exception that can
    leave the iteration is the one of that flush. *)
Theorem validation_success_adds_fields
        (st : pstate) (i : Z) (row : Row) (content obj : json) (w : io) :
  iloc df i = Some row ->
  py_len (row_prompt row) <= ctx cfg * 4 ->
  llama_server_infer srv (SERVER_BASE_PORT cfg) (local_rank cfg)
                     (row_prompt row) (MAX_GENERATION_TOKENS cfg) (st_io st)
  = (Ok content, w) ->
  try_parse content = Some obj ->
  exists analysis equivs kw sentence katex e1 e2,
    getitem_key obj (lit "analysis") = Some analysis
    /\ getitem_key obj (lit "equivalents") = Some equivs
    /\ getitem_key analysis (lit "math_keywords") = Some kw
    /\ getitem_key analysis (lit "math_sentence") = Some sentence
    /\ getitem_key analysis (lit "katex") = Some katex
    /\ getitem_key equivs (lit "equiv_form_1") = Some e1
    /\ getitem_key equivs (lit "equiv_form_2") = Some e2
    /\ let rec :=
         [(lit "paper_id", cell_json (row_get row (lit "paper_id")));
          (lit "equation_id", cell_json (row_get row (lit "equation_id")));
          (lit "latex_raw", JStr (row_latex_raw row));
          (lit "latex_clean", JStr (katex_hygiene (row_latex_raw row)));
          (lit "llm_raw_output", content);
          (lit "global_row", JInt i);
          (lit "math_keywords", JStr (dumps kw));
          (lit "math_sentence", sentence);
          (lit "katex", katex);
          (lit "equiv_form_1", JStr (dumps e1));
          (lit "equiv_form_2", JStr (dumps e2));
          (lit "output_json", JStr (dumps obj))] in
       (flush_accepted b st rec ->
        exists st',
          process_row b cfg srv df st i = Ok st'
          /\ recorded st' = recorded st ++ [rec]
          /\ st_count st' = st_count st + 1)
       /\ (forall e,
              process_row b cfg srv df st i = Raise e ->
              (st_count st + 1) mod flush_every = 0
              /\ to_parquet b (recorded st ++ [rec]) = Some e).
Proof.
  intros Hrow Hfit Hinf Hparse.
  destruct (process_row_answered b cfg srv df st i row content w
                                 Hrow Hfit Hinf)
    as (rec & Hstep & [[Hnone _]|(obj' & fields & Hobj & Hof & ->)]);
    [congruence|].
  rewrite Hparse in Hobj. injection Hobj as <-.
  destruct Hof as (analysis & equivs & kw & sentence & katex & e1 & e2
                   & Han & Heq & Hkw & Hse & Hka & He1 & He2 & ->).
  exists analysis, equivs, kw, sentence, katex, e1, e2.
  do 7 (split; [assumption|]).
  cbv zeta. unfold row_base in Hstep. cbn [app] in Hstep. split.
  - intros Hacc.
    destruct (buffer_record_accepted b _ (with_io st w) Hacc) as (st' & Hbuf).
    destruct (buffer_record_ok _ _ _ _ Hbuf) as (Hrec & Hcount & _).
    exists st'. rewrite Hstep. auto.
  - intros e He. rewrite Hstep in He.
    apply buffer_record_raise in He. exact He.
Qed.

End LoopTheorems.

(** A call of [process_file_row_sharded] that ends normally, with a rank
    and a world size as MPI gives them and an offset that is not
    negative, has only appended to the output file: what it added are
    records of rows assigned to the rank, each row at most once and in
    the order of the assignment, every record built from the row its
    [global_row] names and from an answer of the server to the prompt of
    that row, and nothing is left in the buffer only. *)
Theorem file_output_appended_in_row_order
        (b : builtins) (cfg : config) (srv : server) (f : frame) (s : store)
        (w : io) (st : pstate) :
  0 <= world_rank cfg -> 0 < world_size cfg -> 0 <= read_rank_ckpt b s ->
  process_file_row_sharded b cfg srv f s w = Ok st ->
  exists rows_ idx new,
    my_rows (world_rank cfg) (read_rank_ckpt b s) (world_size cfg)
            (py_len (filter_frame f)) = Some rows_
    /\ subseq idx rows_
    /\ NoDup idx
    /\ Forall (fun i => 0 <= i < py_len (filter_frame f)
                        /\ iloc (filter_frame f) i
                           = nth_error (filter_frame f) (Z.to_nat i)) idx
    /\ Forall2 (record_of cfg srv (filter_frame f)) idx new
    /\ global_rows new = idx
    /\ stored_rows (st_store st) = stored_rows s ++ new
    /\ st_count st = py_len new.
Proof.
  intros Hr HW Hs H.
  destruct (process_file_run _ _ _ _ _ _ _ H)
    as (rows_ & st1 & st2 & Erows & Erun & Efl & ->).
  destruct (run_rows_records _ _ _ _ _ _ _ Erun)
    as (idx & new & Hsub & Hrecs & Hrec & Hcnt & _).
  destruct (final_flush_ok _ _ _ Efl) as (Hst & _ & Hc & _).
  assert (Hnd : NoDup idx).
  { apply (subseq_NoDup _ _ Hsub). unfold my_rows, py_range in Erows.
    destruct (Z.eqb_spec (world_size cfg) 0); [discriminate|].
    injection Erows as <-. now apply range_items_NoDup. }
  assert (Hrange : Forall (fun i => 0 <= i < py_len (filter_frame f)
                                    /\ iloc (filter_frame f) i
                                       = nth_error (filter_frame f)
                                                   (Z.to_nat i)) idx).
  { apply Forall_forall. intros i Hi.
    apply (subseq_In _ _ _ Hsub) in Hi.
    pose proof (my_rows_in_frame _ _ _ _ _ _ HW Hr Hs Erows Hi) as Hin.
    split; [exact Hin|]. unfold iloc. cbv zeta.
    destruct (Z.leb_spec 0 i); [|lia].
    destruct (Z.ltb_spec i (py_len (filter_frame f))); [|lia].
    reflexivity. }
  exists rows_, idx, new. repeat split; try assumption.
  - now apply records_global_rows with (cfg := cfg) (srv := srv)
                                       (df := filter_frame f).
  - cbn [do_write_ckpt st_store]. unfold stored_rows, _write_rank_ckpt in *.
    cbn [out_file]. rewrite Hst, Hrec. unfold recorded.
    cbn [initial_state st_store st_buffer]. unfold stored_rows.
    now rewrite app_nil_r.
  - cbn [do_write_ckpt st_count]. rewrite Hc, Hcnt. reflexivity.
Qed.

(** The effort of a call of [process_file_row_sharded] that ends
    normally: at most 60 posts and 59 sleeps for each row assigned to the
    rank, and at least one post for each record added. *)
Theorem file_effort_bounded
        (b : builtins) (cfg : config) (srv : server) (f : frame) (s : store)
        (w : io) (st : pstate) :
  process_file_row_sharded b cfg srv f s w = Ok st ->
  exists rows_,
    my_rows (world_rank cfg) (read_rank_ckpt b s) (world_size cfg)
            (py_len (filter_frame f)) = Some rows_
    /\ (posts (st_io st) <= posts w + 60 * length rows_)%nat
    /\ (sleeps (st_io st) <= sleeps w + 59 * length rows_)%nat
    /\ (posts w + (length (stored_rows (st_store st))
                   - length (stored_rows s)) <= posts (st_io st))%nat.
Proof.
  intros H.
  destruct (process_file_run _ _ _ _ _ _ _ H)
    as (rows_ & st1 & st2 & Erows & Erun & Efl & ->).
  destruct (run_rows_records _ _ _ _ _ _ _ Erun)
    as (idx & new & _ & _ & Hrec & _ & Hp & Hs & Hn).
  destruct (final_flush_ok _ _ _ Efl) as (Hst & _ & _ & Hio & _).
  exists rows_. cbn [initial_state st_io] in *.
  cbn [do_write_ckpt st_io st_store]. rewrite Hio.
  repeat split; try assumption.
  assert (Hst' : stored_rows (_write_rank_ckpt (py_len rows_) (st_store st2))
                 = stored_rows s ++ new).
  { unfold stored_rows, _write_rank_ckpt in *. cbn [out_file].
    rewrite Hst, Hrec. unfold recorded.
    cbn [initial_state st_store st_buffer]. unfold stored_rows.
    now rewrite app_nil_r. }
  rewrite Hst', length_app. lia.
Qed.


Lemma validation_success_adds_fields_witness :
  exists st',
    process_row sample_builtins sample_cfg helpful_server
                (rows (sample_frame 1)) (initial_state empty_store fresh_io) 0
    = Ok st'
    /\ map dict_keys (recorded st')
       = [[lit "paper_id"; lit "equation_id"; lit "latex_raw";
           lit "latex_clean"; lit "llm_raw_output"; lit "global_row";
           lit "math_keywords"; lit "math_sentence"; lit "katex";
           lit "equiv_form_1"; lit "equiv_form_2"; lit "output_json"]]
    /\ st_count st' = 1.
Proof.
  destruct (validation_success_adds_fields
              sample_builtins sample_cfg helpful_server
              (rows (sample_frame 1))
              (initial_state empty_store fresh_io) 0
              (sample_row 0 (lit "x^2")) (JStr valid_output)
              (match json_loads valid_output with
               | Some obj => obj
               | None => JNull
               end) (mkIo 1 0))
    as (analysis & equivs & kw & sentence & katex & e1 & e2 & _ & _ & _
        & _ & _ & _ & _ & Hok & _).
  - reflexivity.
  - vm_compute. discriminate.
  - vm_compute. reflexivity.
  - vm_compute. reflexivity.
  - destruct Hok as (st' & Hrow & Hrec & Hcount).
    + left. vm_compute. discriminate.
    + exists st'. split; [exact Hrow|]. rewrite Hrec.
      split; [reflexivity|exact Hcount].
Defined.

Lemma file_output_appended_in_row_order_witness :
  exists st rows_ idx new,
    process_file_row_sharded sample_builtins sample_cfg moody_server
                             (sample_frame 4) empty_store fresh_io = Ok st
    /\ my_rows 0 0 1 4 = Some rows_
    /\ subseq idx rows_
    /\ NoDup idx
    /\ Forall (fun i => 0 <= i < 4
                        /\ iloc (filter_frame (sample_frame 4)) i
                           = nth_error (filter_frame (sample_frame 4))
                                       (Z.to_nat i)) idx
    /\ Forall2 (record_of sample_cfg moody_server
                          (filter_frame (sample_frame 4))) idx new
    /\ global_rows new = idx
    /\ stored_rows (st_store st) = new
    /\ st_count st = py_len new.
Proof.
  assert (H : exists st,
             process_file_row_sharded sample_builtins sample_cfg moody_server
                                      (sample_frame 4) empty_store fresh_io
             = Ok st) by (vm_compute; eexists; reflexivity).
  destruct H as (st & H).
  destruct (file_output_appended_in_row_order
              sample_builtins sample_cfg moody_server (sample_frame 4)
              empty_store fresh_io st)
    as (rows_ & idx & new & H1 & H2 & H3 & H4 & H5 & H6 & H7 & H8).
  - vm_compute. discriminate.
  - reflexivity.
  - vm_compute. discriminate.
  - exact H.
  - exists st, rows_, idx, new. repeat split; assumption.
Defined.

Lemma file_effort_bounded_witness :
  exists st rows_,
    process_file_row_sharded sample_builtins sample_cfg moody_server
                             (sample_frame 4) empty_store fresh_io = Ok st
    /\ my_rows 0 0 1 4 = Some rows_
    /\ (posts (st_io st) <= 60 * length rows_)%nat
    /\ (sleeps (st_io st) <= 59 * length rows_)%nat
    /\ (length (stored_rows (st_store st)) - 0 <= posts (st_io st))%nat.
Proof.
  assert (H : exists st,
             process_file_row_sharded sample_builtins sample_cfg moody_server
                                      (sample_frame 4) empty_store fresh_io
             = Ok st) by (vm_compute; eexists; reflexivity).
  destruct H as (st & H).
  destruct (file_effort_bounded _ _ _ _ _ _ _ H)
    as (rows_ & H1 & H2 & H3 & H4).
  exists st, rows_. repeat split; assumption.
Defined.

(** ** Properties of the prompt budget, of the cleaning and of the shards *)

Lemma run_rows_small_ctx b cfg srv df indices : forall st st',
  ctx cfg <= 580 ->
  run_rows b cfg srv df st indices = Ok st' -> st' = st.
Proof.
  induction indices as [|i rest IH]; intros st st' Hctx H.
  - now injection H as <-.
  - cbn [run_rows] in H.
    destruct (process_row b cfg srv df st i) as [st1|e] eqn:Erow;
      [|discriminate].
    destruct (process_row_cases _ _ _ _ _ _ _ Erow)
      as (row & _ & [[_ ->]|(Hfit & _)]).
    + now apply IH.
    + unfold row_prompt in Hfit. rewrite build_prompt_length in Hfit.
      unfold py_len in Hfit. lia.
Qed.

(** The prompt of a row is 2322 characters longer than its cleaned
    expression, so a row is skipped without a post exactly when its
    cleaned expression has more than [4 * ctx - 2322] characters (1774
    for the default context size of 1024); an iteration on a shorter one
    that ends normally has made at least one post. *)
Theorem prompt_budget_threshold
        (b : builtins) (cfg : config) (srv : server) (df : list Row)
        (st : pstate) (i : Z) (row : Row) :
  iloc df i = Some row ->
  let clean := katex_hygiene (row_latex_raw row) in
  py_len (row_prompt row) = 2322 + py_len clean
  /\ (py_len clean > ctx cfg * 4 - 2322 ->
      process_row b cfg srv df st i = Ok st)
  /\ (py_len clean <= ctx cfg * 4 - 2322 ->
      forall st',
        process_row b cfg srv df st i = Ok st' ->
        (posts (st_io st) < posts (st_io st'))%nat).
Proof.
  intros Hrow clean.
  assert (Hlen : py_len (row_prompt row) = 2322 + py_len clean)
    by apply build_prompt_length.
  split; [exact Hlen|]. split; intros Hc.
  - unfold process_row. rewrite Hrow. cbv zeta. fold (row_prompt row).
    unfold max_prompt_chars.
    destruct (Z.gtb_spec (py_len (row_prompt row)) (ctx cfg * 4));
      [reflexivity|lia].
  - intros st' Erow.
    destruct (process_row_cases _ _ _ _ _ _ _ Erow)
      as (row' & Hrow' & [[Hlong _]|(_ & p & Hp & Hcase)]).
    + rewrite Hrow in Hrow'. injection Hrow' as <-. lia.
    + cbv zeta in Hcase. destruct Hcase as [->|(rec & _ & Hbuf)].
      * cbn [with_io st_io posts]. lia.
      * destruct (buffer_record_ok _ _ _ _ Hbuf) as (_ & _ & ->).
        cbn [with_io st_io posts]. lia.
Qed.

(** With a context size of at most 580 tokens no prompt fits the budget:
    a call of [process_file_row_sharded] that ends normally has sent
    nothing to the server and has added nothing to the output file. *)
Theorem small_context_processes_nothing
        (b : builtins) (cfg : config) (srv : server) (f : frame) (s : store)
        (w : io) (st : pstate) :
  ctx cfg <= 580 ->
  process_file_row_sharded b cfg srv f s w = Ok st ->
  out_file (st_store st) = out_file s /\ st_io st = w /\ st_count st = 0.
Proof.
  intros Hctx H.
  destruct (process_file_run _ _ _ _ _ _ _ H)
    as (rows_ & st1 & st2 & _ & Erun & Efl & ->).
  apply run_rows_small_ctx in Erun; [|exact Hctx]. subst st1.
  unfold do_flush in Efl. cbn [initial_state st_buffer _flush] in Efl.
  injection Efl as <-. repeat split.
Qed.

(** The cleaned expression never ends with a comma, never starts with
    whitespace, and is never longer than the raw one. *)
Theorem katex_hygiene_trimmed (s : pystr) :
  (forall t c, katex_hygiene s = t ++ [c] -> c <> c_comma)
  /\ (forall c t, katex_hygiene s = c :: t -> is_space c = false)
  /\ py_len (katex_hygiene s) <= py_len s.
Proof.
  unfold katex_hygiene. repeat split.
  - intros t c H. apply rstrip_by_last in H.
    now apply N.eqb_neq in H.
  - intros c t H. apply rstrip_by_head in H. destruct H as (t' & H).
    unfold py_strip in H. apply rstrip_by_head in H. destruct H as (t'' & H).
    pose proof (lstrip_by_head is_space (sub_labels O s)) as Hh.
    rewrite H in Hh. exact Hh.
  - unfold py_len, py_strip.
    pose proof (rstrip_by_length (fun c => (c =? c_comma)%N)
                  (rstrip_by is_space (lstrip_by is_space (sub_labels O s)))).
    pose proof (rstrip_by_length is_space
                  (lstrip_by is_space (sub_labels O s))).
    pose proof (lstrip_by_length is_space (sub_labels O s)).
    pose proof (sub_labels_length s O).
    lia.
Qed.

(** A text that holds no [\label{] is only trimmed; and a label whose
    name has no closing brace, between two texts that hold no [\label{],
    is cut out before the trimming. *)
Theorem katex_hygiene_cuts_label (pre name post : pystr) :
  str_contains label_open pre = false ->
  Forall (fun c => c <> c_rbrace) name ->
  str_contains label_open post = false ->
  katex_hygiene pre = rstrip_by (fun c => (c =? c_comma)%N) (py_strip pre)
  /\ katex_hygiene (pre ++ label_open ++ name ++ c_rbrace :: post)
     = rstrip_by (fun c => (c =? c_comma)%N) (py_strip (pre ++ post)).
Proof.
  intros Hpre Hname Hpost. unfold katex_hygiene. split.
  - now rewrite sub_labels_plain.
  - rewrite sub_labels_cut by assumption.
    now rewrite (sub_labels_plain post).
Qed.

Lemma range_items_length start stop step :
  py_len (range_items start stop step) = range_len start stop step.
Proof.
  unfold range_items, py_len. rewrite length_map, length_seq.
  apply Z2Nat.id, range_len_nonneg.
Qed.

(** The shards of two ranks differ by at most one row, the rank with the
    smaller number having the row more. *)
Theorem shard_sizes_balanced (g1 g2 W N : Z) (l1 l2 : list Z) :
  0 <= g1 <= g2 -> g2 < W ->
  my_rows g1 0 W N = Some l1 ->
  my_rows g2 0 W N = Some l2 ->
  py_len l2 <= py_len l1 <= py_len l2 + 1.
Proof.
  intros Hg HW H1 H2.
  rewrite my_rows_fresh in H1, H2 by lia.
  injection H1 as <-. injection H2 as <-.
  rewrite !range_items_length. unfold range_len.
  destruct (Z.ltb_spec 0 W); [|lia].
  destruct (Z.ltb_spec g1 N), (Z.ltb_spec g2 N); try lia.
  - assert ((N - g2 - 1) / W <= (N - g1 - 1) / W)
      by (apply Z.div_le_mono; lia).
    assert ((N - g1 - 1) / W <= (N - g2 - 1 + 1 * W) / W)
      by (apply Z.div_le_mono; lia).
    rewrite Z.div_add in * by lia. lia.
  - rewrite Z.div_small by lia. lia.
Qed.

Lemma map_seq_ascending start step n : forall a,
  0 < step ->
  StronglySorted Z.lt (map (fun k => start + Z.of_nat k * step) (seq a n)).
Proof.
  induction n as [|n IH]; intros a Hs; cbn [seq map]; constructor.
  - now apply IH.
  - apply Forall_forall. intros y Hy. apply in_map_iff in Hy.
    destruct Hy as (k & <- & Hk). apply in_seq in Hk. nia.
Qed.

Lemma nth_error_seq_inv n : forall a k x,
  nth_error (seq a n) k = Some x -> x = (a + k)%nat.
Proof.
  induction n as [|n IH]; intros a [|k] x; cbn; try discriminate.
  - intros [= <-]. lia.
  - intros H. apply IH in H. lia.
Qed.

(** The rows of a rank are assigned, and so processed, in strictly
    ascending order, two neighbours [world_size] apart. *)
Theorem my_rows_ascending (g s W N : Z) (l : list Z) :
  0 < W ->
  my_rows g s W N = Some l ->
  StronglySorted Z.lt l
  /\ forall k a b, nth_error l k = Some a -> nth_error l (S k) = Some b ->
                   b = a + W.
Proof.
  intros HW. unfold my_rows, py_range.
  destruct (W =? 0) eqn:E; [discriminate|]. intros [= <-].
  unfold range_items. split; [now apply map_seq_ascending|].
  intros k a b Ha Hb.
  rewrite nth_error_map in Ha, Hb.
  destruct (nth_error (seq 0 _) k) as [x|] eqn:Ex; [|discriminate].
  destruct (nth_error (seq 0 _) (S k)) as [y|] eqn:Ey; [|discriminate].
  injection Ha as <-. injection Hb as <-.
  apply nth_error_seq_inv in Ex, Ey. subst x y. lia.
Qed.

Lemma prompt_budget_threshold_witness :
  py_len (row_prompt (sample_row 1 (repeat 120%N 100)))
  = 2322 + py_len (katex_hygiene (row_latex_raw
                                    (sample_row 1 (repeat 120%N 100))))
  /\ (py_len (katex_hygiene (row_latex_raw (sample_row 1 (repeat 120%N 100))))
      > ctx tight_cfg * 4 - 2322 ->
      process_row sample_builtins tight_cfg chatty_server (rows long_row_frame)
                  (initial_state empty_store fresh_io) 1
      = Ok (initial_state empty_store fresh_io))
  /\ (py_len (katex_hygiene (row_latex_raw (sample_row 1 (repeat 120%N 100))))
      <= ctx tight_cfg * 4 - 2322 ->
      forall st',
        process_row sample_builtins tight_cfg chatty_server
                    (rows long_row_frame)
                    (initial_state empty_store fresh_io) 1 = Ok st' ->
        (posts (st_io (initial_state empty_store fresh_io))
         < posts (st_io st'))%nat).
Proof.
  apply (prompt_budget_threshold
           sample_builtins tight_cfg chatty_server (rows long_row_frame)
           (initial_state empty_store fresh_io) 1
           (sample_row 1 (repeat 120%N 100))).
  reflexivity.
Defined.

Lemma small_context_processes_nothing_witness :
  exists st,
    process_file_row_sharded sample_builtins (mkConfig 0 1 0 18080 500 512)
                             helpful_server (sample_frame 3) empty_store
                             fresh_io = Ok st
    /\ out_file (st_store st) = None /\ st_io st = fresh_io /\ st_count st = 0.
Proof.
  assert (H : exists st,
             process_file_row_sharded sample_builtins
               (mkConfig 0 1 0 18080 500 512) helpful_server (sample_frame 3)
               empty_store fresh_io = Ok st)
    by (vm_compute; eexists; reflexivity).
  destruct H as (st & H). exists st. split; [exact H|].
  apply (small_context_processes_nothing
           sample_builtins (mkConfig 0 1 0 18080 500 512) helpful_server
           (sample_frame 3) empty_store fresh_io st); [|exact H].
  vm_compute. discriminate.
Defined.

Lemma katex_hygiene_cuts_label_witness :
  katex_hygiene (lit " a = b ,") = lit "a = b "
  /\ katex_hygiene (lit " a = b \label{eq:1}, ") = lit "a = b ".
Proof.
  destruct (katex_hygiene_cuts_label (lit " a = b ,") (lit "eq:1") [])
    as (H1 & _); try reflexivity.
  { repeat constructor; discriminate. }
  destruct (katex_hygiene_cuts_label (lit " a = b ") (lit "eq:1") (lit ", "))
    as (_ & H2); try reflexivity.
  { repeat constructor; discriminate. }
  split; [rewrite H1|etransitivity; [exact H2|]]; vm_compute; reflexivity.
Defined.

Lemma shard_sizes_balanced_witness :
  py_len [2; 5] <= py_len [0; 3; 6] <= py_len [2; 5] + 1.
Proof.
  apply (shard_sizes_balanced 0 2 3 7); try reflexivity; lia.
Defined.

Lemma my_rows_ascending_witness :
  StronglySorted Z.lt [3; 6]
  /\ forall k a b, nth_error [3; 6] k = Some a ->
                   nth_error [3; 6] (S k) = Some b -> b = a + 3.
Proof.
  apply (my_rows_ascending 0 1 3 7); [lia|reflexivity].
Defined.

(** ** Properties of the batches, of the file names and of the main loop *)

(** The batches are the entries of the directory whose name is a stem
    that is not empty followed by [.parquet], each as often as it is
    listed, in the order of their names. *)
Theorem load_parquets_selects_sorted (listing : list pystr) :
  (forall p, In p (load_parquets listing)
             <-> In p listing
                 /\ exists stem, stem <> [] /\ p = stem ++ lit ".parquet")
  /\ StronglySorted str_le (load_parquets listing)
  /\ (NoDup listing -> NoDup (load_parquets listing))
  /\ forall stem, stem <> [] -> path_stem (stem ++ lit ".parquet") = stem.
Proof.
  split; [|split; [|split]].
  - intros p. unfold load_parquets. split.
    + intros H. apply (Permutation_in _ (py_sorted_perm _)) in H.
      apply filter_In in H. destruct H as (Hin & H).
      apply str_eqb_eq in H. split; [exact Hin|].
      now apply path_suffix_parquet.
    + intros (Hin & Hs).
      apply (Permutation_in _ (Permutation_sym (py_sorted_perm _))).
      apply filter_In. split; [exact Hin|].
      apply str_eqb_eq. now apply path_suffix_parquet.
  - apply py_sorted_sorted.
  - intros Hnd. unfold load_parquets.
    apply (Permutation_NoDup (Permutation_sym (py_sorted_perm _))).
    now apply NoDup_filter.
  - apply path_stem_parquet.
Qed.

(** The order in which the directory lists its entries does not matter:
    the batches come out in the same order, and [main] does the same. *)
Theorem load_parquets_order_independent (l l' : list pystr) :
  Permutation l l' ->
  load_parquets l = load_parquets l'
  /\ forall b cfg srv read_parquet d w,
      main b cfg srv read_parquet l d w = main b cfg srv read_parquet l' d w.
Proof.
  intros HP. pose proof (load_parquets_perm _ _ HP) as H. split; [exact H|].
  intros. unfold main. now rewrite H.
Qed.

(** The stem of the batch and the rank can be read off the name of an
    output file and off the name of a checkpoint file: two ranks, or one
    rank on two batches, never share a file. *)
Theorem rank_file_names_injective (s1 s2 : pystr) (r1 r2 : Z) :
  0 <= r1 -> 0 <= r2 ->
  (out_name s1 r1 = out_name s2 r2 -> s1 = s2 /\ r1 = r2)
  /\ (ckpt_name s1 r1 = ckpt_name s2 r2 -> s1 = s2 /\ r1 = r2).
Proof.
  intros H1 H2. split; [now apply out_name_inj|now apply ckpt_name_inj].
Qed.

(** A run of [main] that ends normally changes no file but the output
    files and the checkpoint files of its own rank for the batches: the
    files of every other rank are as they were. *)
Theorem main_leaves_other_files
        (b : builtins) (cfg : config) (srv : server)
        (read_parquet : pystr -> frame) (listing : list pystr)
        (d d' : dst_files) (w w' : io) :
  0 <= world_rank cfg ->
  main b cfg srv read_parquet listing d w = Ok (d', w') ->
  (forall n,
      (forall pq, In pq (load_parquets listing) ->
                  n <> out_name (path_stem pq) (world_rank cfg)) ->
      outputs d' n = outputs d n)
  /\ (forall n,
      (forall pq, In pq (load_parquets listing) ->
                  n <> ckpt_name (path_stem pq) (world_rank cfg)) ->
      checkpoints d' n = checkpoints d n)
  /\ forall stem r,
      0 <= r -> r <> world_rank cfg ->
      outputs d' (out_name stem r) = outputs d (out_name stem r)
      /\ checkpoints d' (ckpt_name stem r) = checkpoints d (ckpt_name stem r).
Proof.
  intros Hr H. unfold main in H. apply main_loop_frame in H.
  destruct H as (Ho & Hc). split; [exact Ho|]. split; [exact Hc|].
  intros stem r Hr' Hne. split.
  - apply Ho. intros pq _ E. apply out_name_inj in E; try assumption.
    destruct E as (_ & E). contradiction.
  - apply Hc. intros pq _ E. apply ckpt_name_inj in E; try assumption.
    destruct E as (_ & E). contradiction.
Qed.




Lemma load_parquets_order_independent_witness :
  load_parquets [lit "b.parquet"; lit "notes.txt"; lit "a.parquet"]
  = load_parquets [lit "a.parquet"; lit "b.parquet"; lit "notes.txt"]
  /\ forall b cfg srv read_parquet d w,
      main b cfg srv read_parquet
           [lit "b.parquet"; lit "notes.txt"; lit "a.parquet"] d w
      = main b cfg srv read_parquet
             [lit "a.parquet"; lit "b.parquet"; lit "notes.txt"] d w.
Proof.
  apply load_parquets_order_independent.
  apply Permutation_sym, (Permutation_cons_app [_; _] []). reflexivity.
Defined.

Lemma rank_file_names_injective_witness :
  (out_name (lit "batch") 3 = out_name (lit "batch") 3 ->
   lit "batch" = lit "batch" /\ 3 = 3)
  /\ (ckpt_name (lit "batch") 3 = ckpt_name (lit "batch") 3 ->
      lit "batch" = lit "batch" /\ 3 = 3).
Proof. apply rank_file_names_injective; lia. Defined.

Lemma main_leaves_other_files_witness :
  exists d',
    (forall n,
        (forall pq, In pq (load_parquets [lit "a.parquet"]) ->
                    n <> out_name (path_stem pq) 0) ->
        outputs d' n = None)
    /\ (forall n,
        (forall pq, In pq (load_parquets [lit "a.parquet"]) ->
                    n <> ckpt_name (path_stem pq) 0) ->
        checkpoints d' n = None)
    /\ forall stem r,
        0 <= r -> r <> 0 ->
        outputs d' (out_name stem r) = None
        /\ checkpoints d' (ckpt_name stem r) = None.
Proof.
  assert (H : exists d' w',
             main sample_builtins sample_cfg chatty_server
                  (fun _ => sample_frame 2) [lit "a.parquet"]
                  (mkDst (fun _ => None) (fun _ => None)) fresh_io
             = Ok (d', w')) by (vm_compute; eexists _, _; reflexivity).
  destruct H as (d' & w' & H). exists d'.
  apply (main_leaves_other_files
           sample_builtins sample_cfg chatty_server (fun _ => sample_frame 2)
           [lit "a.parquet"] (mkDst (fun _ => None) (fun _ => None)) d'
           fresh_io w'); [|exact H].
  vm_compute. discriminate.
Defined.




(** ** Properties of the answers the pipeline accepts *)

(** What [parse_strict_json] returns is an object with exactly the
    members [input], [analysis] and [equivalents], each an object with
    exactly the members the schema declares, their values strings that
    are not empty or lists of strings, at most ten keywords; and every
    value of that shape passes the validator. *)
Theorem accepted_answer_shape :
  (forall s obj, parse_strict_json s = Ok obj -> output_shape obj)
  /\ (forall obj, output_shape obj ->
                  validate PURE_MATH_JSON_SCHEMA obj = Ok tt).
Proof.
  split.
  - intros s obj H. apply accepted_output. split.
    + destruct (parse_ok_loads _ _ H) as (m & _ & Hl).
      now apply json_loads_distinct in Hl.
    + now apply parse_ok_valid in H.
  - intros obj H. apply accepted_output in H. destruct H as (_ & H).
    unfold validate. now rewrite H.
Qed.

(** The four columns of a record that hold JSON text, [output_json],
    [math_keywords], [equiv_form_1] and [equiv_form_2], decode back to
    the values they were written from. *)
Theorem json_columns_decode_back
        (s : pystr) (obj analysis equivs kw e1 e2 : json) :
  parse_strict_json s = Ok obj ->
  getitem_key obj (lit "analysis") = Some analysis ->
  getitem_key obj (lit "equivalents") = Some equivs ->
  getitem_key analysis (lit "math_keywords") = Some kw ->
  getitem_key equivs (lit "equiv_form_1") = Some e1 ->
  getitem_key equivs (lit "equiv_form_2") = Some e2 ->
  json_loads (dumps obj) = Some obj
  /\ json_loads (dumps kw) = Some kw
  /\ json_loads (dumps e1) = Some e1
  /\ json_loads (dumps e2) = Some e2.
Proof.
  intros H Han Heq Hkw He1 He2.
  pose proof (parse_ok_textual _ _ H) as T.
  pose proof (textual_member _ _ _ T Han) as Tan.
  pose proof (textual_member _ _ _ T Heq) as Teq.
  repeat split; apply textual_loads; try assumption.
  - exact (textual_member _ _ _ Tan Hkw).
  - exact (textual_member _ _ _ Teq He1).
  - exact (textual_member _ _ _ Teq He2).
Qed.

Lemma json_columns_decode_back_witness :
  exists obj kw e1 e2,
    parse_strict_json valid_output = Ok obj
    /\ json_loads (dumps obj) = Some obj
    /\ json_loads (dumps kw) = Some kw
    /\ json_loads (dumps e1) = Some e1
    /\ json_loads (dumps e2) = Some e2.
Proof.
  assert (H : exists obj analysis equivs kw e1 e2,
             parse_strict_json valid_output = Ok obj
             /\ getitem_key obj (lit "analysis") = Some analysis
             /\ getitem_key obj (lit "equivalents") = Some equivs
             /\ getitem_key analysis (lit "math_keywords") = Some kw
             /\ getitem_key equivs (lit "equiv_form_1") = Some e1
             /\ getitem_key equivs (lit "equiv_form_2") = Some e2)
    by (vm_compute; do 6 eexists; repeat split; reflexivity).
  destruct H as (obj & analysis & equivs & kw & e1 & e2
                 & H & Han & Heq & Hkw & He1 & He2).
  exists obj, kw, e1, e2. split; [exact H|].
  exact (json_columns_decode_back _ _ _ _ _ _ _ H Han Heq Hkw He1 He2).
Defined.

(** ** Properties of a run against a server that answers *)


(** The address a rank posts to names the port [SERVER_BASE_PORT +
    local_rank]: two ranks post to the same address only when these
    ports are the same. *)
Theorem server_url_injective (base1 base2 l1 l2 : Z) :
  server_url base1 l1 = server_url base2 l2 -> base1 + l1 = base2 + l2.
Proof.
  unfold server_url. intros H.
  apply app_inv_head in H. apply app_inv_tail in H.
  now apply str_of_Z_inj.
Qed.


Lemma server_url_injective_witness : 18080 + 3 = 18080 + 3.
Proof. apply (server_url_injective 18080 18080 3 3). reflexivity. Defined.
